(** * SageAttention, sm90 kernel [qk_int8_sv_f8_attn_kernel] and its two host
    entry points: a shallow embedding and the properties checked against it.

    The embedding follows [csrc/qattn/qk_int_sv_f8_cuda_sm90.cu].  One thread
    of one thread-block is a computation in a small writer/error monad: it
    logs the accesses it makes to the global scale arrays, the barrier waits
    and the bulk loads, and it stops at the first access that leaves an
    array.  Unsigned 32-bit arithmetic is written out with its wrap-around,
    binary32 values are [spec_float]s at precision 24.  The primitives the
    kernel calls but whose code lives in headers that are not part of the
    sources at hand ([update_mdo], [RS_32_to_8], [normalize_d], [math::]),
    and the warp-group matrix instructions, are parameters of the model.
    The shared-memory matrix descriptors of [csrc/wgmma.cuh] are functions
    on 64-bit words. *)

From Stdlib Require Import ZArith Lia Bool List String.
From Stdlib Require Import Floats.SpecFloat.
From stdpp Require Import base list gmap strings pretty.

Local Open Scope Z_scope.

(** ** Machine integers *)

Module U32.
Definition modulus : Z := 2 ^ 32.
Definition wrap (a : Z) : Z := a mod modulus.
Definition add (a b : Z) : Z := wrap (a + b).
Definition sub (a b : Z) : Z := wrap (a - b).
Definition mul (a b : Z) : Z := wrap (a * b).
Definition in_range (a : Z) : Prop := 0 <= a < modulus.
End U32.

Declare Scope u32_scope.
Delimit Scope u32_scope with u32.
Infix "+u" := U32.add (at level 50, left associativity) : u32_scope.
Infix "-u" := U32.sub (at level 50, left associativity) : u32_scope.
Infix "*u" := U32.mul (at level 40, left associativity) : u32_scope.
Local Open Scope u32_scope.

(** Host-side [int]: the narrowing of a 64-bit tensor size or stride. *)
Module I32.
Definition max_int : Z := 2 ^ 31 - 1.
Definition of_int64 (a : Z) : Z := (a + 2 ^ 31) mod 2 ^ 32 - 2 ^ 31.
End I32.

(** Modelled from the spec: [div_ceil] of [utils.cuh], which is not among the
    sources; the spec writes it ceil(a/b), the quotient rounded up. *)
Definition div_ceil (M N : Z) : Z := (M + N - 1) / N.

(** ** binary32 and the narrow output formats *)

Module F32.
Definition prec : Z := 24.
Definition emax : Z := 128.
Definition t : Type := spec_float.

Definition of_Z (a : Z) : t := binary_normalize prec emax a 0 false.
Definition zero : t := S754_zero false.
Definition one : t := of_Z 1.
Definition add : t -> t -> t := SFadd prec emax.
Definition mul : t -> t -> t := SFmul prec emax.

Definition is_finite (a : t) : bool :=
  match a with
  | S754_zero _ | S754_finite _ _ _ => true
  | S754_infinity _ | S754_nan => false
  end.

(** The value of a finite float as a scaled integer: [a = num * 2 ^ exp]. *)
Definition scaled (a : t) : option (Z * Z) :=
  match a with
  | S754_zero _ => Some (0, 0)
  | S754_finite s m e => Some (if s then Z.neg m else Z.pos m, e)
  | S754_infinity _ | S754_nan => None
  end.

(** [__int2float_rz]: a signed 32-bit integer to binary32, rounded toward
    zero.  Up to 24 significant bits the conversion is exact; beyond, the
    low bits are dropped. *)
Definition int2float_rz (a : Z) : t :=
  let mag := Z.abs a in
  let digits := Zdigits2 mag in
  if digits <=? prec then of_Z a
  else S754_finite (a <? 0) (Z.to_pos (Z.shiftr mag (digits - prec)))
                   (digits - prec).

(** Narrowing with round-to-nearest-even, as [__float22half2_rn] and
    [__float22bfloat162_rn] do on each component. *)
Definition narrow (p e : Z) (a : t) : spec_float :=
  match a with
  | S754_finite s m ex => binary_round p e s m ex
  | _ => a
  end.
Definition to_half : t -> spec_float := narrow 11 16.
Definition to_bfloat16 : t -> spec_float := narrow 8 128.
End F32.

(** The literal [-5000000.0f] of the kernel. *)
Definition neg_sentinel : F32.t := F32.of_Z (-5000000).

(** ** Compile-time configuration *)

(** Modelled from the spec: the enumerations of [attn_utils.cuh], which is
    not among the sources, with the values the kernel and the entry points
    name. *)
Inductive MaskMode := kNone | kCausal.
Inductive QuantGranularity := kPerBlock | kPerWarp | kPerThread.
Inductive OutType := Half | BFloat16.

(** The two entry points instantiate the kernel with these three values
    only; the kernel statically asserts [NUM_THREADS == 128] and
    [CTA_Q <= CTA_K]. *)
Definition CTA_Q : Z := 64.
Definition CTA_K : Z := 128.
Definition NUM_THREADS : Z := 128.

Record template := {
  head_dim : Z;
  Q_GRAN : QuantGranularity;
  K_GRAN : QuantGranularity;
  DTypeOut : OutType;
  mask_mode : MaskMode;
  return_lse : bool;
  fuse_v_scale : bool
}.

Definition num_tiles_q : Z := CTA_Q / 64.
Definition num_tiles_k : Z := CTA_K / 16.
Definition num_tiles_qk_inner (T : template) : Z := head_dim T / 32.
Definition num_tiles_v (T : template) : Z := head_dim T / 16.
Definition num_tiles_pv_inner : Z := CTA_K / 32.

(** ** Launch coordinates and kernel arguments *)

Record dim3 := { x : Z; y : Z; z : Z }.

Record thread := {
  gridDim : dim3;
  blockIdx : dim3;
  threadIdx : Z
}.

Record kernel_args := {
  Q_scale : list F32.t;
  K_scale : list F32.t;
  V_scale : list F32.t;
  stride_bz_o : Z;
  stride_h_o : Z;
  stride_seq_o : Z;
  qo_len : Z;
  kv_len : Z;
  num_kv_groups : Z;
  sm_scale : F32.t
}.

(** Register tiles: [tile A] is an array [\[fq\]\[f\]\[k\]], [frag A] one
    [\[f\]\[k\]] slice of it. *)
Abbreviation frag A := (list (list A)) (only parsing).
Abbreviation tile A := (list (list (list A))) (only parsing).

Definition zseq (n : Z) : list Z := seqZ 0 n.

Definition tile_init {A} (nq nf : Z) (a : A) : tile A :=
  (fun _ => (fun _ => (fun _ => a) <$> zseq 8) <$> zseq nf) <$> zseq nq.

Definition tile_map {A B} (f : A -> B) (t : tile A) : tile B :=
  (fun r : frag A => (fun c : list A => f <$> c) <$> r) <$> t.

(** [g fq f k a]: the new value of element [\[fq\]\[f\]\[k\]] holding [a]. *)
Definition tile_imap {A B} (g : Z -> Z -> Z -> A -> B) (t : tile A) : tile B :=
  imap (fun fq => imap (fun f => imap (fun k => g (Z.of_nat fq) (Z.of_nat f) (Z.of_nat k)))) t.

Definition tile_get {A} (t : tile A) (fq f k : Z) : option A :=
  match t !! Z.to_nat fq with
  | Some r =>
      match r !! Z.to_nat f with
      | Some c => c !! Z.to_nat k
      | None => None
      end
  | None => None
  end.

Definition tile_zip {A} (op : A -> A -> A) (a b : tile A) : tile A :=
  zip_with (zip_with (zip_with op)) a b.

(** Statically sized register arrays are read with a default; the default is
    never met on tiles of the kernel's shapes. *)
Definition at0 (c : list F32.t) (k : Z) : F32.t := default F32.zero (c !! Z.to_nat k).

(** ** Effects of one thread *)

Inductive array_id := Q_scale_array | K_scale_array | V_scale_array.
Inductive barrier := barrier_Q | barrier_K | barrier_V.

Inductive event :=
  | EvInitBarrier (b : barrier) (count : Z)
  | EvSyncThreads
  | EvExpectBytes (b : barrier) (bytes : Z)
  | EvLoad (b : barrier) (s0 s1 s2 s3 : Z)
  | EvWait (b : barrier) (phase : Z)
  | EvRead (arr : array_id) (idx : Z)
  | EvTile (iter : Z).

(** A computation logs what it does and either finishes with a value or
    stops: a thread at its first read outside an array, a host function at
    the exception it throws. *)
Inductive outcome (F A : Type) :=
  | Done (a : A)
  | Stop (f : F).
Arguments Done {F A} a.
Arguments Stop {F A} f.

Definition W (E F A : Type) : Type := list E * outcome F A.

Definition ret {E F A} (a : A) : W E F A := ([], Done a).

Definition bind {E F A B} (c : W E F A) (f : A -> W E F B) : W E F B :=
  match c with
  | (tr, Done a) => let '(tr', r) := f a in (tr ++ tr', r)
  | (tr, Stop e) => (tr, Stop e)
  end.

Notation "'let*' x ':=' c 'in' k" := (bind c (fun x => k))
  (at level 10, x pattern, c at level 100, k at level 200).

Definition emit {E F} (es : list E) : W E F unit := (es, Done tt).
Definition stop {E F A} (f : F) : W E F A := ([], Stop f).

Inductive fault := OutOfBounds (arr : array_id) (idx : Z).

Definition M : Type -> Type := W event fault.

(** Element [i] of a global array, if the array has one. *)
Definition zlookup {A} (l : list A) (i : Z) : option A :=
  if (0 <=? i) && (i <? Z.of_nat (length l)) then l !! Z.to_nat i else None.

Definition read (arr : array_id) (data : list F32.t) (idx : Z) : M F32.t :=
  ([EvRead arr idx],
   match zlookup data idx with
   | Some v => Done v
   | None => Stop (OutOfBounds arr idx)
   end).

Fixpoint for_each {E F A S} (body : S -> A -> W E F S) (l : list A) (s : S)
    : W E F S :=
  match l with
  | [] => ret s
  | a :: l' => let* s' := body s a in for_each body l' s'
  end.

(** ** Index arithmetic of the kernel *)

Definition warp_idx (t : thread) : Z := (threadIdx t mod 128) / 32.
Definition lane_id (t : thread) : Z := threadIdx t mod 32.
Definition batch_id (t : thread) : Z := z (blockIdx t).
Definition bx (t : thread) : Z := x (blockIdx t).
Definition head_id (t : thread) : Z := y (blockIdx t).
Definition num_qo_heads (t : thread) : Z := y (gridDim t).
Definition kv_head_id (P : kernel_args) (t : thread) : Z := head_id t / num_kv_groups P.

Definition q_scale_idx (T : template) (t : thread) : Z :=
  match Q_GRAN T with
  | kPerBlock =>
      let num_block_q := x (gridDim t) in
      batch_id t *u num_qo_heads t *u num_block_q +u head_id t *u num_block_q +u bx t
  | kPerWarp =>
      let num_warp_block_q := x (gridDim t) *u 4 in
      batch_id t *u num_qo_heads t *u num_warp_block_q
        +u head_id t *u num_warp_block_q +u bx t *u 4 +u warp_idx t
  | kPerThread =>
      let num_warp_block_q := x (gridDim t) *u 4 in
      batch_id t *u num_qo_heads t *u (num_warp_block_q *u 8)
        +u head_id t *u (num_warp_block_q *u 8)
        +u bx t *u (4 * 8) +u warp_idx t *u 8 +u lane_id t / 4
  end.

Definition k_scale_idx (T : template) (P : kernel_args) (t : thread) : Z :=
  let num_block_k := div_ceil (kv_len P) CTA_K in
  match K_GRAN T with
  | kPerBlock | kPerWarp =>
      batch_id t *u (num_qo_heads t / num_kv_groups P) *u num_block_k
        +u (head_id t / num_kv_groups P) *u num_block_k
  | kPerThread =>
      batch_id t *u (num_qo_heads t / num_kv_groups P) *u (num_block_k *u 4)
        +u (head_id t / num_kv_groups P) *u (num_block_k *u 4)
        +u lane_id t mod 4
  end.

Definition k_scale_advance_offset (T : template) : Z :=
  match K_GRAN T with
  | kPerBlock | kPerWarp => 1
  | kPerThread => 4
  end.

Definition Q_idx_lane_base (t : thread) : Z :=
  bx t *u CTA_Q +u warp_idx t *u 16 +u lane_id t / 4.

Definition num_iterations (T : template) (P : kernel_args) (t : thread) : Z :=
  div_ceil
    (match mask_mode T with
     | kCausal => Z.min (kv_len P) ((bx t +u 1) *u CTA_Q)
     | kNone => kv_len P
     end)
    CTA_K.

(** The values [iter] takes in [for (iter = 1; iter < num_iterations; iter++)]. *)
Definition loop_iters (n : Z) : list Z := seqZ 1 (n - 1).

(** *** Masking of the last tile *)

Definition q_idx (t : thread) (fq k : Z) : Z :=
  Q_idx_lane_base t +u fq *u 64 +u 8 *u ((k mod 4) / 2).

Definition k_idx (T : template) (P : kernel_args) (t : thread) (fk k : Z) : Z :=
  (num_iterations T P t -u 1) *u CTA_K +u fk *u 16 +u 2 *u (lane_id t mod 4)
    +u 8 *u (k / 4) +u k mod 2.

Definition is_out_of_bounds (T : template) (P : kernel_args) (t : thread)
    (fq fk k : Z) : bool :=
  match mask_mode T with
  | kCausal =>
      (k_idx T P t fk k >? q_idx t fq k) || (k_idx T P t fk k >=? kv_len P)
  | kNone => k_idx T P t fk k >=? kv_len P
  end.

Definition mask_scores (T : template) (P : kernel_args) (t : thread)
    (RS_f32 : tile F32.t) : tile F32.t :=
  tile_imap
    (fun fq fk k s => if is_out_of_bounds T P t fq fk k then neg_sentinel else s)
    RS_f32.

(** *** Thread-local accumulation of the normaliser *)

Definition quad_sum (c : list F32.t) (r : Z) : F32.t :=
  F32.add (F32.add (F32.add (at0 c (2 * r)) (at0 c (2 * r + 1)))
                   (at0 c (2 * r + 4)))
          (at0 c (2 * r + 5)).

Definition accumulate_d (d : list (list F32.t)) (RS_f32 : tile F32.t)
    : list (list F32.t) :=
  imap (fun fq =>
    imap (fun r dv =>
      foldl (fun acc c => F32.add acc (quad_sum c (Z.of_nat r))) dv
            (default [] (RS_f32 !! fq))))
    d.

(** *** Registers of a thread between tiles *)

Record regs := {
  reg_RO : tile F32.t;
  reg_m : list (list F32.t);
  reg_d : list (list F32.t);
  phase : Z;
  smem_K : Z;
  smem_V : Z
}.

Definition init_regs (T : template) : regs :=
  {| reg_RO := tile_init num_tiles_q (num_tiles_v T) F32.zero;
     reg_m := (fun _ => [neg_sentinel; neg_sentinel]) <$> zseq num_tiles_q;
     reg_d := (fun _ => [F32.one; F32.one]) <$> zseq num_tiles_q;
     phase := 1;
     smem_K := 0;
     smem_V := 0 |}.

(** ** The kernel, one thread *)

(** [math.cuh] and [attn_utils.cuh] are not among the sources, and the matrix
    instructions of [wgmma.cuh] are inline assembly: the kernel is written
    against this interface.  Its operations are indexed by the thread because
    they exchange values with the other lanes (shuffles) or read the tiles the
    block shares.

    [wgmma_s8s8s32 t fq acc off tileK]: one int8 instruction on the query rows
    of [fq] and the key tile held in shared memory (the one that starts at key
    [tileK]), at offset [off] of the head dimension; [acc = None] is
    [ScaleD = 0].  [wgmma_f8f8f32 t acc RA off tileV]: one float8 instruction
    on the register operand [RA] and the value tile held in shared memory. *)
Class Primitives := {
  log2e : F32.t;
  ptx_log2 : F32.t -> F32.t;
  update_mdo :
    thread -> tile F32.t -> tile F32.t -> list (list F32.t) -> list (list F32.t) ->
    F32.t -> tile F32.t * tile F32.t * list (list F32.t) * list (list F32.t);
  RS_32_to_8 : tile F32.t -> tile Z;
  normalize_d :
    thread -> tile F32.t -> list (list F32.t) -> list (list F32.t) ->
    tile F32.t * list (list F32.t) * list (list F32.t);
  wgmma_s8s8s32 : thread -> Z -> option (frag Z) -> Z -> Z -> frag Z;
  wgmma_f8f8f32 : thread -> option (frag F32.t) -> list Z -> Z -> Z -> frag F32.t
}.

Section Kernel.

Context {prims : Primitives}.

Variable T : template.
Variable P : kernel_args.

Definition tile_bytes : Z := CTA_K * head_dim T * 1.

(** What thread 0 alone does. *)
Definition leader (t : thread) (es : list event) : M unit :=
  if threadIdx t =? 0 then emit es else ret tt.

Definition compute_QK (t : thread) (tileK : Z) : tile Z :=
  (fun fq =>
     foldl (fun acc k_it => wgmma_s8s8s32 t fq (Some acc) (k_it * 32) tileK)
           (wgmma_s8s8s32 t fq None 0 tileK)
           (seqZ 1 (num_tiles_qk_inner T - 1)))
  <$> zseq num_tiles_q.

Definition compute_PV (t : thread) (RS_f8 : tile Z) (tileV : Z) : tile F32.t :=
  (fun fq =>
     let RA v_it := default [] (default [] (RS_f8 !! Z.to_nat fq) !! Z.to_nat v_it) in
     foldl (fun acc v_it => wgmma_f8f8f32 t (Some acc) (RA v_it) (v_it * 32) tileV)
           (wgmma_f8f8f32 t None (RA 0) 0 tileV)
           (seqZ 1 (num_tiles_pv_inner - 1)))
  <$> zseq num_tiles_q.

(** Softmax update, requantisation and the second product: the part the
    loop body and the epilogue share once the scores are in [RS_f32]. *)
Definition softmax_pv (t : thread) (r : regs) (p : Z) (RS_f32 : tile F32.t)
    (scale : F32.t) : M (tile F32.t * list (list F32.t) * list (list F32.t)) :=
  let '(RS_f32, RO, m, d) := update_mdo t RS_f32 (reg_RO r) (reg_m r) (reg_d r) scale in
  let d := accumulate_d d RS_f32 in
  let RS_f8 := RS_32_to_8 RS_f32 in
  let* _ := emit [EvWait barrier_V p] in
  let RO_temp := compute_PV t RS_f8 (smem_V r) in
  ret (tile_zip F32.add RO RO_temp, m, d).

Definition loop_body (t : thread) (q_scale original_sm_scale : F32.t)
    (r : regs) (iter : Z) : M regs :=
  let* _ := emit [EvTile iter] in
  let p := Z.lxor (phase r) 1 in
  let* ks := read K_scale_array (K_scale P)
               (k_scale_idx T P t +u (iter -u 1) *u k_scale_advance_offset T) in
  let dequant_scale := F32.mul q_scale ks in
  let sm_scale := F32.mul original_sm_scale dequant_scale in
  let* _ := emit [EvWait barrier_K p] in
  let RS := compute_QK t (smem_K r) in
  let* _ := leader t [EvExpectBytes barrier_K tile_bytes;
                      EvLoad barrier_K 0 (iter *u CTA_K) (kv_head_id P t) (batch_id t)] in
  let RS_f32 := tile_map F32.int2float_rz RS in
  let* (RO, m, d) := softmax_pv t r p RS_f32 sm_scale in
  let* _ := leader t [EvExpectBytes barrier_V tile_bytes;
                      EvLoad barrier_V (iter *u CTA_K) 0 (kv_head_id P t) (batch_id t)] in
  ret {| reg_RO := RO; reg_m := m; reg_d := d; phase := p;
         smem_K := iter *u CTA_K; smem_V := iter *u CTA_K |}.

(** The scores the epilogue hands to the softmax update. *)
Definition epilogue_scores (t : thread) (RS : tile Z) (dequant_scale : F32.t)
    : tile F32.t :=
  mask_scores T P t
    (tile_map (fun s => F32.mul (F32.int2float_rz s) dequant_scale) RS).

(** The epilogue from the point where the scores [RS] of the last tile are in
    registers: dequantise, mask, update, multiply by the value tile. *)
Definition epilogue_tile (t : thread) (original_sm_scale dequant_scale : F32.t)
    (r : regs) (p : Z) (RS : tile Z) : M regs :=
  let sm_scale := original_sm_scale in
  let RS_f32 := epilogue_scores t RS dequant_scale in
  let* (RO, m, d) := softmax_pv t r p RS_f32 sm_scale in
  ret {| reg_RO := RO; reg_m := m; reg_d := d; phase := p;
         smem_K := smem_K r; smem_V := smem_V r |}.

Definition epilogue (t : thread) (q_scale original_sm_scale : F32.t)
    (r : regs) : M regs :=
  let* _ := emit [EvTile (num_iterations T P t)] in
  let p := Z.lxor (phase r) 1 in
  let* ks := read K_scale_array (K_scale P)
               (k_scale_idx T P t
                  +u (num_iterations T P t -u 1) *u k_scale_advance_offset T) in
  let dequant_scale := F32.mul q_scale ks in
  let* _ := emit [EvWait barrier_K p] in
  epilogue_tile t original_sm_scale dequant_scale r p (compute_QK t (smem_K r)).

(** [fuse_v_scale]: the per-channel value scale of the head. *)
Definition V_scale_base (t : thread) : Z :=
  batch_id t *u (num_qo_heads t / num_kv_groups P) *u head_dim T
    + (head_id t / num_kv_groups P) *u head_dim T
    + (lane_id t mod 4) *u 2.

Definition scale_frag (RO : tile F32.t) (fv : Z) (v_scale : list F32.t) : tile F32.t :=
  tile_imap
    (fun _ f k a =>
       if f =? fv
       then F32.mul a (at0 v_scale (if k <? 4 then k mod 2 else 2 + k mod 2))
       else a)
    RO.

Definition apply_v_scale (t : thread) (RO : tile F32.t) : M (tile F32.t) :=
  for_each
    (fun RO fv =>
       let* v0 := read V_scale_array (V_scale P) (V_scale_base t + fv *u 16) in
       let* v1 := read V_scale_array (V_scale P) (V_scale_base t + fv *u 16 + 1) in
       let* v2 := read V_scale_array (V_scale P) (V_scale_base t + fv *u 16 + 8) in
       let* v3 := read V_scale_array (V_scale P) (V_scale_base t + fv *u 16 + 8 + 1) in
       ret (scale_frag RO fv [v0; v1; v2; v3]))
    (zseq (num_tiles_v T)) RO.

Definition prologue (t : thread) : M unit :=
  let* _ := leader t [EvInitBarrier barrier_Q 1; EvInitBarrier barrier_K 1;
                      EvInitBarrier barrier_V 1] in
  let* _ := emit [EvSyncThreads] in
  leader t [EvExpectBytes barrier_Q (CTA_Q * head_dim T * 1);
            EvExpectBytes barrier_K tile_bytes;
            EvExpectBytes barrier_V tile_bytes;
            EvLoad barrier_Q 0 (bx t *u CTA_Q) (head_id t) (batch_id t);
            EvLoad barrier_K 0 0 (kv_head_id P t) (batch_id t);
            EvLoad barrier_V 0 0 (kv_head_id P t) (batch_id t)].

(** The kernel from registers [r0] up to the registers it is about to write
    back: loads, the loop over all tiles but the last, the epilogue, the
    normalisation. *)
Definition tiles_from (t : thread) (r0 : regs) : M regs :=
  let sm_scale := F32.mul (sm_scale P) log2e in
  let* _ := prologue t in
  let* q_scale := read Q_scale_array (Q_scale P) (q_scale_idx T t) in
  let original_sm_scale := sm_scale in
  let* _ := emit [EvWait barrier_Q 0] in
  let* r := for_each (loop_body t q_scale original_sm_scale)
              (loop_iters (num_iterations T P t)) r0 in
  let* r := epilogue t q_scale original_sm_scale r in
  let '(RO, m, d) := normalize_d t (reg_RO r) (reg_m r) (reg_d r) in
  let* RO := if fuse_v_scale T then apply_v_scale t RO else ret RO in
  ret {| reg_RO := RO; reg_m := m; reg_d := d; phase := phase r;
         smem_K := smem_K r; smem_V := smem_V r |}.

Definition kernel_compute (t : thread) : M regs := tiles_from t (init_regs T).

(** *** Write-back *)

Definition O_lane_ptr (t : thread) : Z :=
  batch_id t *u stride_bz_o P + head_id t *u stride_h_o P
    + (bx t *u CTA_Q +u warp_idx t *u 16 +u lane_id t / 4) *u stride_seq_o P
    + (lane_id t mod 4) *u 2.

Definition convert : F32.t -> spec_float :=
  match DTypeOut T with
  | Half => F32.to_half
  | BFloat16 => F32.to_bfloat16
  end.

(** [((X2* )ptr)\[0\] = convert(((float2* )c)\[i\])]: two adjacent elements. *)
Definition store2 (ptr : Z) (c : list F32.t) (i : Z) : list (Z * spec_float) :=
  [(ptr, convert (at0 c (2 * i))); (ptr + 1, convert (at0 c (2 * i + 1)))].

Definition O_stores (t : thread) (RO : tile F32.t) : list (Z * spec_float) :=
  fq ← zseq num_tiles_q;
  fv ← zseq (head_dim T / 16);
  let c := default [] (default [] (RO !! Z.to_nat fq) !! Z.to_nat fv) in
  let ptr := O_lane_ptr t + fq *u 64 *u stride_seq_o P + fv *u 16 in
  (if Q_idx_lane_base t +u fq *u 64 <? qo_len P
   then store2 ptr c 0 ++ store2 (ptr + 8) c 2
   else [])
  ++
  (if Q_idx_lane_base t +u fq *u 64 +u 8 <? qo_len P
   then store2 (ptr + 8 *u stride_seq_o P) c 1
          ++ store2 (ptr + 8 + 8 *u stride_seq_o P) c 3
   else []).

Definition lse_idx (t : thread) : Z :=
  bx t *u CTA_Q +u lane_id t / 4 +u 8 *u (lane_id t mod 4) +u 16 *u warp_idx t.

Definition lse_lane_ptr (t : thread) : Z :=
  batch_id t *u (qo_len P *u num_qo_heads t) + head_id t *u qo_len P + lse_idx t.

Definition lse_value (t : thread) (m d : list (list F32.t)) : F32.t :=
  let fq := (lane_id t mod 4) / 2 in
  let k := (lane_id t mod 4) mod 2 in
  F32.add (ptx_log2 (at0 (default [] (d !! Z.to_nat fq)) k))
          (at0 (default [] (m !! Z.to_nat fq)) k).

Definition Lse_stores (t : thread) (m d : list (list F32.t)) : list (Z * F32.t) :=
  if return_lse T then
    _ ← zseq num_tiles_q;
    if (lse_idx t <? qo_len P) && (lane_id t mod 4 <? 2)
    then [(lse_lane_ptr t, lse_value t m d)]
    else []
  else [].

(** Global memory the kernel writes: the output tensor and the
    log-sum-exp tensor, by element index from their base pointers. *)
Record memory := {
  O_mem : gmap Z spec_float;
  Lse_mem : gmap Z F32.t
}.

Definition store_all {V} (ws : list (Z * V)) (mem : gmap Z V) : gmap Z V :=
  foldl (fun acc w => <[w.1 := w.2]> acc) mem ws.

Definition qk_int8_sv_f8_attn_kernel (t : thread) (mem : memory) : M memory :=
  let* r := kernel_compute t in
  ret {| O_mem := store_all (O_stores t (reg_RO r)) (O_mem mem);
         Lse_mem := store_all (Lse_stores t (reg_m r) (reg_d r)) (Lse_mem mem) |}.

(** *** The grid *)

Definition block_threads (g b : dim3) : list thread :=
  (fun tid => {| gridDim := g; blockIdx := b; threadIdx := tid |}) <$> zseq NUM_THREADS.

Definition grid_blocks (g : dim3) : list dim3 :=
  bz ← zseq (z g); by_ ← zseq (y g); bx_ ← zseq (x g);
  [{| x := bx_; y := by_; z := bz |}].

Definition grid_threads (g : dim3) : list thread :=
  b ← grid_blocks g; block_threads g b.

(** Threads retire their stores in the order of the schedule; a fault in
    any thread aborts the launch. *)
Fixpoint run_threads (sched : list thread) (mem : memory) : option memory :=
  match sched with
  | [] => Some mem
  | t :: sched' =>
      match qk_int8_sv_f8_attn_kernel t mem with
      | (_, Done mem') => run_threads sched' mem'
      | (_, Stop _) => None
      end
  end.

End Kernel.

(** ** The host entry points *)

Inductive ScalarType :=
  | Int8 | Float8_e4m3fn | Float32 | Float16 | BFloat16_type | OtherScalarType.

#[global] Instance ScalarType_eq_dec : EqDecision ScalarType.
Proof. solve_decision. Defined.

(** What the entry points look at in a tensor; [float_data] is the content of
    a float32 tensor in storage order (the scale arrays). *)
Record Tensor := {
  is_cuda : bool;
  scalar_type : ScalarType;
  sizes : list Z;
  strides : list Z;
  float_data : list F32.t
}.

Definition size (a : Tensor) (i : nat) : Z := default 0 (sizes a !! i).
Definition stride (a : Tensor) (i : nat) : Z := default 0 (strides a !! i).

(** Row-major contiguity as [is_contiguous] decides it: dimensions of size 1
    are skipped, an empty tensor is contiguous. *)
Fixpoint contiguous_from (expected : Z) (rev_dims : list (Z * Z)) : bool :=
  match rev_dims with
  | [] => true
  | (sz, st) :: rest =>
      if sz =? 1 then contiguous_from expected rest
      else (st =? expected) && contiguous_from (expected * sz) rest
  end.

Definition is_contiguous (a : Tensor) : bool :=
  existsb (Z.eqb 0) (sizes a)
  || contiguous_from 1 (rev (zip (sizes a) (strides a))).

Inductive host_stop :=
  | TorchCheck (what : string)
  | InvalidArgument (msg : string)
  | AssertionFailure (what : string)
  | UndefinedBehaviour (what : string).

Inductive device_action :=
  | DevEmpty (shape : list Z) (ty : ScalarType)
  | DevTensorMap (d1 d2 d3 d4 stride1 stride2 stride3 : Z)
  | DevSetAttribute (sMemSize : Z)
  | DevLaunch (T : template) (P : kernel_args) (grid : dim3).

Definition H : Type -> Type := W device_action host_stop.

(** [int] remainder and quotient; a zero divisor, and [INT_MIN] by [-1],
    have no defined result. *)
Definition int_rem (a b : Z) : option Z :=
  if (b =? 0) || ((a =? - 2 ^ 31) && (b =? -1)) then None else Some (Z.rem a b).
Definition int_quot (a b : Z) : option Z :=
  if (b =? 0) || ((a =? - 2 ^ 31) && (b =? -1)) then None else Some (Z.quot a b).

(** The text the head-count check hands to [std::invalid_argument]. *)
Definition head_ratio_message (num_qo_heads num_kv_heads : Z) : string :=
  "num_qo_heads (" +:+ pretty num_qo_heads
    +:+ ") must be divisible by num_kv_heads (" +:+ pretty num_kv_heads +:+ ")".

Record call := {
  query : Tensor;
  key : Tensor;
  value : Tensor;
  output : Tensor;
  query_scale : Tensor;
  key_scale : Tensor;
  value_scale : Tensor;
  tensor_layout : Z;
  is_causal : Z;
  qk_quant_gran : Z;
  softmax_scale : F32.t;
  return_lse_flag : Z
}.

(** The sizes and strides an entry point reads off its tensors, narrowed to
    [int], for either layout. *)
Record geometry := {
  g_batch_size : Z; g_head_dim : Z;
  g_qo_len : Z; g_kv_len : Z; g_num_qo_heads : Z; g_num_kv_heads : Z;
  g_stride_bz_q : Z; g_stride_bz_k : Z; g_stride_bz_v : Z; g_stride_bz_o : Z;
  g_stride_seq_q : Z; g_stride_h_q : Z; g_stride_seq_k : Z; g_stride_h_k : Z;
  g_stride_h_v : Z; g_stride_d_v : Z; g_stride_seq_o : Z; g_stride_h_o : Z
}.

Definition geometry_of (c : call) : geometry :=
  let i := I32.of_int64 in
  let seq_ax := if tensor_layout c =? 0 then 1%nat else 2%nat in
  let head_ax := if tensor_layout c =? 0 then 2%nat else 1%nat in
  {| g_batch_size := i (size (query c) 0);
     g_head_dim := i (size (query c) 3);
     g_qo_len := i (size (query c) seq_ax);
     g_kv_len := i (size (key c) seq_ax);
     g_num_qo_heads := i (size (query c) head_ax);
     g_num_kv_heads := i (size (key c) head_ax);
     g_stride_bz_q := i (stride (query c) 0);
     g_stride_bz_k := i (stride (key c) 0);
     g_stride_bz_v := i (stride (value c) 0);
     g_stride_bz_o := i (stride (output c) 0);
     g_stride_seq_q := i (stride (query c) seq_ax);
     g_stride_h_q := i (stride (query c) head_ax);
     g_stride_seq_k := i (stride (key c) seq_ax);
     g_stride_h_k := i (stride (key c) head_ax);
     g_stride_h_v := i (stride (value c) head_ax);
     g_stride_d_v := i (stride (value c) seq_ax);
     g_stride_seq_o := i (stride (output c) seq_ax);
     g_stride_h_o := i (stride (output c) head_ax) |}.

(** A 4-D shape in the order of the layout. *)
Definition shape4 (c : call) (batch len heads dim : Z) : list Z :=
  if tensor_layout c =? 0 then [batch; len; heads; dim] else [batch; heads; len; dim].

Record lse_tensor := { lse_sizes : list Z; lse_type : ScalarType }.

Section Host.

(** Whether [assert] is compiled out. *)
Variable NDEBUG : bool.
(** Modelled from the spec: the granularity dispatch of [dispatch_utils.h],
    which is not among the sources; it selects per-warp or per-thread
    scale indexing from the integer argument and anything else fails. *)
Variable granularity_of : Z -> option QuantGranularity.
(** Whether the driver's [cuTensorMapEncodeTiled] returns [CUDA_SUCCESS] for
    a tensor of these sizes and strides. *)
Variable encode_ok : Z -> Z -> Z -> Z -> Z -> Z -> Z -> bool.

(** Modelled from the spec: the [CHECK_*] macros of [utils.cuh], which is not
    among the sources; a failed check raises, a passed one does nothing. *)
Definition CHECK (b : bool) (what : string) : H unit :=
  if b then ret tt else stop (TorchCheck what).

Definition assert (b : bool) (what : string) : H unit :=
  if NDEBUG || b then ret tt else stop (AssertionFailure what).

Definition CHECK_SHAPE (a : Tensor) (shape : list Z) (what : string) : H unit :=
  CHECK (bool_decide (sizes a = shape)) what.

Definition all_checks (l : list (bool * string)) : H unit :=
  for_each (fun _ c => CHECK c.1 c.2) l tt.

(** The macro checks that open either entry point, in the order written;
    the lines on [value_scale] are those of the fused variant. *)
Definition check_tensors (fuse : bool) (c : call) : H unit :=
  let only_fused (l : list (bool * string)) := if fuse then l else [] in
  let last_is_1 (a : Tensor) := bool_decide (last (strides a) = Some 1) in
  let has_type (a : Tensor) (ty : ScalarType) := bool_decide (scalar_type a = ty) in
  let has_dims (a : Tensor) (n : nat) := bool_decide (length (sizes a) = n) in
  all_checks
    ([(is_cuda (query c), "CHECK_CUDA(query)");
      (is_cuda (key c), "CHECK_CUDA(key)");
      (is_cuda (value c), "CHECK_CUDA(value)");
      (is_cuda (output c), "CHECK_CUDA(output)");
      (is_cuda (query_scale c), "CHECK_CUDA(query_scale)");
      (is_cuda (key_scale c), "CHECK_CUDA(key_scale)")]
     ++ only_fused [(is_cuda (value_scale c), "CHECK_CUDA(value_scale)")]
     ++ [(last_is_1 (query c), "CHECK_LASTDIM_CONTIGUOUS(query)");
         (last_is_1 (key c), "CHECK_LASTDIM_CONTIGUOUS(key)");
         (last_is_1 (value c), "CHECK_LASTDIM_CONTIGUOUS(value)");
         (last_is_1 (output c), "CHECK_LASTDIM_CONTIGUOUS(output)");
         (is_contiguous (query_scale c), "CHECK_CONTIGUOUS(query_scale)");
         (is_contiguous (key_scale c), "CHECK_CONTIGUOUS(key_scale)")]
     ++ only_fused [(is_contiguous (value_scale c), "CHECK_CONTIGUOUS(value_scale)")]
     ++ [(has_type (query c) Int8, "CHECK_DTYPE(query)");
         (has_type (key c) Int8, "CHECK_DTYPE(key)");
         (has_type (value c) Float8_e4m3fn, "CHECK_DTYPE(value)");
         (has_type (query_scale c) Float32, "CHECK_DTYPE(query_scale)");
         (has_type (key_scale c) Float32, "CHECK_DTYPE(key_scale)")]
     ++ only_fused [(has_type (value_scale c) Float32, "CHECK_DTYPE(value_scale)")]
     ++ [(has_dims (query c) 4%nat, "CHECK_DIMS(query)");
         (has_dims (key c) 4%nat, "CHECK_DIMS(key)");
         (has_dims (value c) 4%nat, "CHECK_DIMS(value)");
         (has_dims (output c) 4%nat, "CHECK_DIMS(output)");
         (has_dims (query_scale c) 3%nat, "CHECK_DIMS(query_scale)");
         (has_dims (key_scale c) 3%nat, "CHECK_DIMS(key_scale)")]
     ++ only_fused [(has_dims (value_scale c) 3%nat, "CHECK_DIMS(value_scale)")]).

(** Shapes of key, output and value against the sizes read off query and
    key, as the branch of the layout checks them. *)
Definition check_shapes (c : call) : H unit :=
  let g := geometry_of c in
  let dim_ax := if tensor_layout c =? 0 then 1%nat else 2%nat in
  let head_ax := if tensor_layout c =? 0 then 2%nat else 1%nat in
  let* _ := assert (size (value c) 0 =? g_batch_size g) "value.size(0) == batch_size" in
  let* _ := CHECK_SHAPE (key c)
              (shape4 c (g_batch_size g) (g_kv_len g) (g_num_kv_heads g) (g_head_dim g))
              "CHECK_SHAPE(key)" in
  let* _ := CHECK_SHAPE (output c)
              (shape4 c (g_batch_size g) (g_qo_len g) (g_num_qo_heads g) (g_head_dim g))
              "CHECK_SHAPE(output)" in
  let* _ := assert (size (value c) dim_ax =? g_head_dim g) "value.size == head_dim" in
  assert (size (value c) head_ax =? g_num_kv_heads g) "value.size == num_kv_heads".

(** [if (num_qo_heads % num_kv_heads != 0) throw std::invalid_argument]. *)
Definition check_head_ratio (num_qo_heads num_kv_heads : Z) : H unit :=
  match int_rem num_qo_heads num_kv_heads with
  | None => stop (UndefinedBehaviour "num_qo_heads % num_kv_heads")
  | Some r =>
      if negb (r =? 0)
      then stop (InvalidArgument (head_ratio_message num_qo_heads num_kv_heads))
      else ret tt
  end.

Definition allocate_lse (c : call) : H lse_tensor :=
  let g := geometry_of c in
  if negb (return_lse_flag c =? 0)
  then
    let shape := [g_batch_size g; g_num_qo_heads g; g_qo_len g] in
    let* _ := emit [DevEmpty shape Float32] in
    ret {| lse_sizes := shape; lse_type := Float32 |}
  else ret {| lse_sizes := [0]; lse_type := Float32 |}.

(** Modelled from the spec: the [DISPATCH_*] macros of [dispatch_utils.h],
    which is not among the sources: head dimension 64 or 128, causal iff the
    flag is nonzero, per-warp or per-thread granularity, log-sum-exp iff the
    flag is nonzero, half or bfloat16 output. *)
Definition dispatch (fuse : bool) (c : call) : H template :=
  let g := geometry_of c in
  let* HEAD_DIM :=
    if g_head_dim g =? 64 then ret 64
    else if g_head_dim g =? 128 then ret 128
    else stop (InvalidArgument "Unsupported head dim") in
  let IS_CAUSAL := negb (is_causal c =? 0) in
  let* QK_QUANT_GRAN :=
    match granularity_of (qk_quant_gran c) with
    | Some kPerWarp => ret kPerWarp
    | Some kPerThread => ret kPerThread
    | _ => stop (InvalidArgument "Unsupported quantization granularity")
    end in
  let RETURN_LSE := negb (return_lse_flag c =? 0) in
  let* DTypeOut_ :=
    match scalar_type (output c) with
    | Float16 => ret Half
    | BFloat16_type => ret BFloat16
    | _ => stop (InvalidArgument "Unsupported output dtype")
    end in
  ret {| head_dim := HEAD_DIM;
         Q_GRAN := QK_QUANT_GRAN; K_GRAN := QK_QUANT_GRAN;
         DTypeOut := DTypeOut_;
         mask_mode := if IS_CAUSAL then kCausal else kNone;
         return_lse := RETURN_LSE;
         fuse_v_scale := fuse |}.

Definition scale_shapes (T : template) (g : geometry) : list Z * list Z :=
  match Q_GRAN T with
  | kPerThread =>
      ([g_batch_size g; g_num_qo_heads g;
        div_ceil (g_qo_len g) CTA_Q * (NUM_THREADS / 32) * 8],
       [g_batch_size g; g_num_kv_heads g; div_ceil (g_kv_len g) CTA_K * 4])
  | _ =>
      ([g_batch_size g; g_num_qo_heads g;
        div_ceil (g_qo_len g) CTA_Q * (NUM_THREADS / 32)],
       [g_batch_size g; g_num_kv_heads g; div_ceil (g_kv_len g) CTA_K])
  end.

Definition launch_args (fuse : bool) (c : call) (num_kv_groups : Z) : kernel_args :=
  let g := geometry_of c in
  {| Q_scale := float_data (query_scale c);
     K_scale := float_data (key_scale c);
     V_scale := if fuse then float_data (value_scale c) else [];
     stride_bz_o := U32.wrap (g_stride_bz_o g);
     stride_h_o := U32.wrap (g_stride_h_o g);
     stride_seq_o := U32.wrap (g_stride_seq_o g);
     qo_len := U32.wrap (g_qo_len g);
     kv_len := U32.wrap (g_kv_len g);
     num_kv_groups := U32.wrap num_kv_groups;
     sm_scale := softmax_scale c |}.

Definition launch_grid (c : call) : dim3 :=
  let g := geometry_of c in
  {| x := U32.wrap (div_ceil (g_qo_len g) CTA_Q);
     y := U32.wrap (g_num_qo_heads g);
     z := U32.wrap (g_batch_size g) |}.

(** [create_tensor_map_4D]: encode the map, then
    [assert(result == CUDA_SUCCESS)]. *)
Definition create_tensor_map_4D (d1 d2 d3 d4 stride1 stride2 stride3 : Z) : H unit :=
  let* _ := emit [DevTensorMap d1 d2 d3 d4 stride1 stride2 stride3] in
  assert (encode_ok d1 d2 d3 d4 stride1 stride2 stride3) "result == CUDA_SUCCESS".

Definition attn_inst_buf (fuse : bool) (c : call) : H lse_tensor :=
  let g := geometry_of c in
  let* _ := check_tensors fuse c in
  let* _ := check_shapes c in
  let* _ := check_head_ratio (g_num_qo_heads g) (g_num_kv_heads g) in
  let* lse := allocate_lse c in
  let* num_kv_groups :=
    match int_quot (g_num_qo_heads g) (g_num_kv_heads g) with
    | Some q => ret q
    | None => stop (UndefinedBehaviour "num_qo_heads / num_kv_heads")
    end in
  let* T := dispatch fuse c in
  let* _ := assert (size (value c) 3 >=? div_ceil (g_kv_len g) CTA_K * CTA_K)
              "value.size(3) >= div_ceil(kv_len, CTA_K) * CTA_K" in
  let* _ := CHECK_SHAPE (query_scale c) (scale_shapes T g).1 "CHECK_SHAPE(query_scale)" in
  let* _ := CHECK_SHAPE (key_scale c) (scale_shapes T g).2 "CHECK_SHAPE(key_scale)" in
  let* _ := if fuse
            then CHECK_SHAPE (value_scale c)
                   [g_batch_size g; g_num_kv_heads g; g_head_dim g]
                   "CHECK_SHAPE(value_scale)"
            else ret tt in
  let* _ := create_tensor_map_4D
              (g_batch_size g) (g_num_qo_heads g) (g_qo_len g) (head_dim T)
              (g_stride_bz_q g) (g_stride_h_q g) (g_stride_seq_q g) in
  let* _ := create_tensor_map_4D
              (g_batch_size g) (g_num_kv_heads g) (g_kv_len g) (head_dim T)
              (g_stride_bz_k g) (g_stride_h_k g) (g_stride_seq_k g) in
  let* _ := create_tensor_map_4D
              (g_batch_size g) (g_num_kv_heads g) (head_dim T) (size (value c) 3)
              (g_stride_bz_v g) (g_stride_h_v g) (g_stride_d_v g) in
  let* _ := emit
    [DevSetAttribute (CTA_Q * head_dim T + CTA_K * head_dim T + CTA_K * head_dim T);
     DevLaunch T (launch_args fuse c num_kv_groups) (launch_grid c)] in
  ret lse.

Definition qk_int8_sv_f8_accum_f32_attn_inst_buf : call -> H lse_tensor :=
  attn_inst_buf false.

Definition qk_int8_sv_f8_accum_f32_fuse_v_scale_attn_inst_buf : call -> H lse_tensor :=
  attn_inst_buf true.

End Host.

(** ** The matrix descriptors of [wgmma.cuh] *)

Module U64.
Definition modulus : Z := 2 ^ 64.
Definition wrap (a : Z) : Z := a mod modulus.
(** [a << n] on [uint64_t]. *)
Definition shl (a n : Z) : Z := wrap (Z.shiftl a n).
End U64.

Module wgmma.

(** [(((x) & 0x3FFFF) >> 0x4)]. *)
Definition matrix_descriptor_encode (x : Z) : Z := Z.shiftr (Z.land x 0x3FFFF) 0x4.

(** The layout code of the last field:
    [(stride == 128) ? 1llu : (stride == 64) ? 2llu : 3llu]. *)
Definition layout_code (stride : Z) : Z :=
  if stride =? 128 then 1 else if stride =? 64 then 2 else 3.

(** [make_smem_desc<stride>(ptr)], with [addr] the 32-bit shared-memory
    address of [ptr]. *)
Definition make_smem_desc (stride : Z) (addr : Z) : Z :=
  let desc := 0x0000000000000000 in
  let desc := Z.lor desc (matrix_descriptor_encode addr) in
  let desc := Z.lor desc (U64.shl (matrix_descriptor_encode 16) 16) in
  let desc := Z.lor desc (U64.shl (matrix_descriptor_encode (8 * stride)) 32) in
  let desc := Z.lor desc (U64.shl (layout_code stride) 62) in
  desc.

End wgmma.

(** ** Observations, launches and layouts used in the statements *)

#[global] Instance array_id_eq_dec : EqDecision array_id.
Proof. solve_decision. Defined.

#[global] Instance dim3_eq_dec : EqDecision dim3.
Proof. solve_decision. Defined.

#[global] Instance thread_eq_dec : EqDecision thread.
Proof. solve_decision. Defined.

(** The tile iterations a thread entered, in order. *)
Definition tile_iterations (tr : list event) : list Z :=
  omap (fun e => match e with EvTile i => Some i | _ => None end) tr.

(** The indices at which a thread read array [arr], in order. *)
Definition reads_of (arr : array_id) (tr : list event) : list Z :=
  omap (fun e =>
          match e with
          | EvRead a i => if decide (a = arr) then Some i else None
          | _ => None
          end) tr.

(** [t] is a thread of a launch with grid [g]. *)
Definition in_grid (g : dim3) (t : thread) : bool :=
  bool_decide (gridDim t = g)
  && (0 <=? bx t) && (bx t <? x g)
  && (0 <=? head_id t) && (head_id t <? y g)
  && (0 <=? batch_id t) && (batch_id t <? z g)
  && (0 <=? threadIdx t) && (threadIdx t <? NUM_THREADS).

(** Element index of output element [(b, h, row, col)] from the base pointer. *)
Definition O_index (P : kernel_args) (b h row col : Z) : Z :=
  b * stride_bz_o P + h * stride_h_o P + row * stride_seq_o P + col.

(** The output strides are not negative and the last element of the output
    lies below index [2 ^ 32], so that no offset the kernel computes in
    32 bits wraps. *)
Definition O_fits (g : dim3) (T : template) (P : kernel_args) : Prop :=
  0 <= stride_bz_o P /\ 0 <= stride_h_o P /\ 0 <= stride_seq_o P
  /\ 0 <= head_dim T /\ 0 <= qo_len P
  /\ (z g - 1) * stride_bz_o P + (y g - 1) * stride_h_o P
       + (qo_len P - 1) * stride_seq_o P + head_dim T <= U32.modulus
  /\ 64 * x g <= U32.modulus.

(** Element index of log-sum-exp entry [(b, h, i)]. *)
Definition Lse_index (g : dim3) (P : kernel_args) (b h i : Z) : Z :=
  b * (qo_len P * y g) + h * qo_len P + i.

Definition Lse_fits (g : dim3) (P : kernel_args) : Prop :=
  0 <= qo_len P /\ z g * (y g * qo_len P) < U32.modulus
  /\ 64 * x g <= U32.modulus.

(** The thread that holds query row [i] of head [h] of batch [b], and the
    register pair of that row in it. *)
Definition row_owner (g : dim3) (b h i : Z) : thread :=
  {| gridDim := g;
     blockIdx := {| x := i / 64; y := h; z := b |};
     threadIdx := 32 * ((i mod 64) / 16) + 4 * (i mod 8) + (i mod 16) / 8 |}.

Definition row_pair (i : Z) : Z := (i mod 16) / 8.

(** The scale arrays have the sizes the entry points check, the grid is the
    one they launch, and the index arithmetic stays below [2 ^ 32]. *)
Definition scale_len (gran : QuantGranularity) (blocks per_block : Z) : Z :=
  match gran with
  | kPerBlock => blocks
  | kPerWarp => blocks * per_block
  | kPerThread => blocks * per_block * 8
  end.

Definition k_scale_len (gran : QuantGranularity) (blocks : Z) : Z :=
  match gran with
  | kPerBlock | kPerWarp => blocks
  | kPerThread => blocks * 4
  end.

Record valid_launch (g : dim3) (T : template) (P : kernel_args) (num_kv_heads : Z)
    : Prop := {
  vl_grid_x : x g = div_ceil (qo_len P) CTA_Q;
  vl_qo_len : 1 <= qo_len P <= I32.max_int;
  vl_kv_len : 1 <= kv_len P <= I32.max_int;
  vl_heads : y g = num_kv_groups P * num_kv_heads;
  vl_groups : 1 <= num_kv_groups P;
  vl_kv_heads : 1 <= num_kv_heads;
  vl_batch : 1 <= z g;
  vl_head_dim : head_dim T = 64 \/ head_dim T = 128;
  vl_Q_scale :
    Z.of_nat (length (Q_scale P)) = z g * y g * scale_len (Q_GRAN T) (x g) 4;
  vl_Q_fits : z g * y g * (x g * 4 * 8) < U32.modulus;
  vl_K_scale :
    Z.of_nat (length (K_scale P))
    = z g * num_kv_heads * k_scale_len (K_GRAN T) (div_ceil (kv_len P) CTA_K);
  vl_K_fits : z g * num_kv_heads * (div_ceil (kv_len P) CTA_K * 4) < U32.modulus;
  vl_V_scale :
    fuse_v_scale T = true ->
    Z.of_nat (length (V_scale P)) = z g * num_kv_heads * head_dim T;
  vl_V_fits : z g * num_kv_heads * 128 < U32.modulus
}.

(** ** A concrete device and concrete launches, to run the model on *)

Definition sample_primitives : Primitives :=
  {| log2e := S754_finite false 12102203 (-23);
     ptx_log2 := fun a => a;
     update_mdo := fun _ RS RO m d _ => (RS, RO, m, d);
     RS_32_to_8 := tile_map (fun _ => 0);
     normalize_d := fun _ RO m d => (RO, m, d);
     wgmma_s8s8s32 := fun t _ _ _ tileK =>
       (fun f => (fun k => threadIdx t + tileK + 16 * f + k) <$> zseq 8) <$> zseq 8;
     wgmma_f8f8f32 := fun _ _ _ _ _ =>
       (fun _ => (fun _ => F32.one) <$> zseq 8) <$> zseq 4 |}.

Definition sample_template (mode : MaskMode) (lse : bool) : template :=
  {| head_dim := 64; Q_GRAN := kPerWarp; K_GRAN := kPerWarp; DTypeOut := Half;
     mask_mode := mode; return_lse := lse; fuse_v_scale := false |}.

(** One batch, one head, [qo] query rows in one tile, [kv] keys, contiguous
    output of row length 64. *)
Definition sample_args (qo kv : Z) : kernel_args :=
  {| Q_scale := repeat F32.one 4;
     K_scale := repeat F32.one (Z.to_nat (div_ceil kv CTA_K));
     V_scale := [];
     stride_bz_o := 64 * 64; stride_h_o := 64 * 64; stride_seq_o := 64;
     qo_len := qo; kv_len := kv; num_kv_groups := 1;
     sm_scale := F32.one |}.

Definition sample_grid : dim3 := {| x := 1; y := 1; z := 1 |}.

Definition sample_thread (tid : Z) : thread :=
  {| gridDim := sample_grid; blockIdx := {| x := 0; y := 0; z := 0 |};
     threadIdx := tid |}.

(** A concrete call in layout 0: one batch, 64 query rows, 128 keys, head
    dimension 64, per-warp scales. *)
Definition sample_granularity_of (a : Z) : option QuantGranularity :=
  if a =? 2 then Some kPerWarp else if a =? 3 then Some kPerThread else None.

(** A driver that accepts tensors without an empty dimension. *)
Definition sample_encode_ok (d1 d2 d3 d4 stride1 stride2 stride3 : Z) : bool :=
  (0 <? d1) && (0 <? d2) && (0 <? d3) && (0 <? d4).

Definition sample_tensor (ty : ScalarType) (shape : list Z) (data : list F32.t) : Tensor :=
  {| is_cuda := true; scalar_type := ty; sizes := shape;
     strides := match shape with
                | [a; b; c; d] => [b * c * d; c * d; d; 1]
                | [a; b; c] => [b * c; c; 1]
                | _ => []
                end;
     float_data := data |}.

Definition sample_call (qo_heads kv_heads lse : Z) : call :=
  {| query := sample_tensor Int8 [1; 64; qo_heads; 64] [];
     key := sample_tensor Int8 [1; 128; kv_heads; 64] [];
     value := sample_tensor Float8_e4m3fn [1; 64; kv_heads; 128] [];
     output := sample_tensor Float16 [1; 64; qo_heads; 64] [];
     query_scale :=
       sample_tensor Float32 [1; qo_heads; 4] (repeat F32.one (Z.to_nat (qo_heads * 4)));
     key_scale := sample_tensor Float32 [1; kv_heads; 1] (repeat F32.one (Z.to_nat kv_heads));
     value_scale :=
       sample_tensor Float32 [1; kv_heads; 64] (repeat F32.one (Z.to_nat (kv_heads * 64)));
     tensor_layout := 0; is_causal := 0; qk_quant_gran := 2;
     softmax_scale := F32.one; return_lse_flag := lse |}.

(** The same call with four query heads and two key heads over a key tensor
    of sequence length 0, with the scale shapes the entry points demand. *)
Definition sample_call_without_keys : call :=
  let c := sample_call 4 2 0 in
  {| query := query c;
     key := sample_tensor Int8 [1; 0; 2; 64] [];
     value := value c;
     output := output c;
     query_scale := query_scale c;
     key_scale := sample_tensor Float32 [1; 2; 0] [];
     value_scale := value_scale c;
     tensor_layout := tensor_layout c; is_causal := is_causal c;
     qk_quant_gran := qk_quant_gran c;
     softmax_scale := softmax_scale c; return_lse_flag := return_lse_flag c |}.

(** ** Notions used in the statements *)

(** What a finished piece of a thread's run contributed to the trace. *)
Record contributes (tr : list event) (tiles kreads qreads vreads : list Z) : Prop := {
  c_tiles : tile_iterations tr = tiles;
  c_kreads : reads_of K_scale_array tr = kreads;
  c_qreads : reads_of Q_scale_array tr = qreads;
  c_vreads : reads_of V_scale_array tr = vreads
}.

(** The index at which tile iteration [iter] reads the key scale. *)
Definition k_read_idx (T : template) (P : kernel_args) (t : thread) (iter : Z) : Z :=
  k_scale_idx T P t +u (iter -u 1) *u k_scale_advance_offset T.

(** A piece of trace made of reads of the value scale only. *)
Definition only_v_reads (tr : list event) : Prop :=
  exists vreads, contributes tr [] [] [] vreads.

(** A computation that stops with [e]. *)
Definition stops_with {E F A} (c : W E F A) (e : F) : Prop :=
  exists tr, c = (tr, Stop e).

(** The checks before the head-count test only ever stop on a macro check or
    an assertion. *)
Definition not_invalid_argument (e : host_stop) : Prop :=
  match e with InvalidArgument _ => False | _ => True end.

(** Stores agree when two of them at one address carry one value. *)
Definition agreeing {V} (ws : list (Z * V)) : Prop :=
  forall a v v', (a, v) ∈ ws -> (a, v') ∈ ws -> v = v'.

(** The registers a thread ends its computation with, if it does not fault,
    and the stores it then retires. *)
Definition thread_regs {prims : Primitives} (T : template) (P : kernel_args)
    (t : thread) : option regs :=
  match (kernel_compute T P t).2 with
  | Done r => Some r
  | Stop _ => None
  end.

Definition O_writes {prims : Primitives} (T : template) (P : kernel_args)
    (t : thread) : list (Z * spec_float) :=
  match thread_regs T P t with
  | Some r => O_stores T P t (reg_RO r)
  | None => []
  end.

Definition Lse_writes {prims : Primitives} (T : template) (P : kernel_args)
    (t : thread) : list (Z * F32.t) :=
  match thread_regs T P t with
  | Some r => Lse_stores T P t (reg_m r) (reg_d r)
  | None => []
  end.

(** The value stored at column [col] of row [row] by the thread that holds
    them in its registers [RO]. *)
Definition O_value (T : template) (RO : tile F32.t) (row col : Z) : spec_float :=
  convert T
    (at0 (default [] (default [] (RO !! 0%nat) !! Z.to_nat (col / 16)))
         (4 * ((col mod 16) / 8) + 2 * ((row mod 16) / 8) + col mod 2)).

(** Distinct elements of the output tensor lie at distinct addresses. *)
Definition O_distinct_rows (g : dim3) (T : template) (P : kernel_args)
    (rows : Z) : Prop :=
  forall b h row col b' h' row' col',
    0 <= b < z g -> 0 <= h < y g -> 0 <= row < rows -> 0 <= col < head_dim T ->
    0 <= b' < z g -> 0 <= h' < y g -> 0 <= row' < rows -> 0 <= col' < head_dim T ->
    O_index P b h row col = O_index P b' h' row' col' ->
    b = b' /\ h = h' /\ row = row' /\ col = col'.

Definition O_distinct (g : dim3) (T : template) (P : kernel_args) : Prop :=
  O_distinct_rows g T P (qo_len P).

(** The log-sum-exp entry of query row [i], from the registers [m] and [d]
    of the thread that holds the row. *)
Definition lse_entry {prims : Primitives} (m d : list (list F32.t)) (i : Z) : F32.t :=
  F32.add (ptx_log2 (at0 (default [] (d !! 0%nat)) (row_pair i)))
          (at0 (default [] (m !! 0%nat)) (row_pair i)).

(** The device actions that do not start the kernel: allocating the
    log-sum-exp tensor and encoding a tensor map. *)
Definition before_launch (a : device_action) : bool :=
  match a with
  | DevEmpty _ _ | DevTensorMap _ _ _ _ _ _ _ => true
  | DevSetAttribute _ | DevLaunch _ _ _ => false
  end.

(** A host computation that has neither set the kernel attribute nor
    launched, whatever its outcome. *)
Definition quiet {A} (c : H A) : Prop := Forall (fun a => before_launch a = true) c.1.

(** A call that either stopped without launching or ended with the kernel's
    attribute and its one launch. *)
Definition launched_last {A} (fuse : bool) (c : call) (r : H A) : Prop :=
  match r.2 with
  | Stop _ => quiet r
  | Done _ =>
      exists pre T nkg,
        r.1 = pre ++ [DevSetAttribute (CTA_Q * head_dim T + CTA_K * head_dim T
                                        + CTA_K * head_dim T);
                      DevLaunch T (launch_args fuse c nkg) (launch_grid c)]
        /\ Forall (fun a => before_launch a = true) pre
  end.

(** Position of element [(i0, i1, i2)] in the storage of a contiguous tensor
    whose last two sizes are [d1] and [d2]. *)
Definition flat3 (d1 d2 i0 i1 i2 : Z) : Z := (i0 * d1 + i1) * d2 + i2.

(** Which of the query scales of its head a thread uses: one per block, per
    warp, or per row pair [lane_id / 4] of a warp. *)
Definition q_scale_slot (T : template) (t : thread) : Z :=
  match Q_GRAN T with
  | kPerBlock => bx t
  | kPerWarp => bx t * 4 + warp_idx t
  | kPerThread => bx t * 32 + warp_idx t * 8 + lane_id t / 4
  end.

(** Which of the key scales of its key head a thread uses in tile iteration
    [iter]: one per tile, or per tile and column pair [lane_id mod 4]. *)
Definition k_scale_slot (T : template) (t : thread) (iter : Z) : Z :=
  match K_GRAN T with
  | kPerBlock | kPerWarp => iter - 1
  | kPerThread => (iter - 1) * 4 + lane_id t mod 4
  end.

(** The thread that holds output element [(b, h, row, col)] in its
    registers. *)
Definition O_owner (g : dim3) (b h row col : Z) : thread :=
  {| gridDim := g;
     blockIdx := {| x := row / 64; y := h; z := b |};
     threadIdx := 32 * ((row mod 64) / 16) + 4 * (row mod 8) + (col mod 8) / 2 |}.

(** ** What a thread does to one barrier *)

#[global] Instance barrier_eq_dec : EqDecision barrier.
Proof. solve_decision. Defined.

Inductive barrier_op :=
  | OpInit (count : Z)
  | OpExpect (bytes : Z)
  | OpLoad (s0 s1 s2 s3 : Z)
  | OpWait (phase : Z).

(** The operations of a trace on barrier [b], in order. *)
Definition barrier_ops (b : barrier) (tr : list event) : list barrier_op :=
  omap (fun e =>
          match e with
          | EvInitBarrier b' n => if decide (b' = b) then Some (OpInit n) else None
          | EvExpectBytes b' n => if decide (b' = b) then Some (OpExpect n) else None
          | EvLoad b' s0 s1 s2 s3 =>
              if decide (b' = b) then Some (OpLoad s0 s1 s2 s3) else None
          | EvWait b' p => if decide (b' = b) then Some (OpWait p) else None
          | _ => None
          end) tr.

(** The parity a thread waits for in tile iteration [iter]. *)
Definition wait_phase (iter : Z) : Z := (iter - 1) mod 2.

(** The bulk load of tile [tile] (counted from 0) of the keys or of the
    values of the block's key head: the key tensor is indexed
    [(head_dim, position, head, batch)], the value tensor
    [(position, head_dim, head, batch)]. *)
Definition tile_load (P : kernel_args) (t : thread) (b : barrier) (tile : Z)
    : barrier_op :=
  match b with
  | barrier_V => OpLoad (tile * CTA_K) 0 (kv_head_id P t) (batch_id t)
  | _ => OpLoad 0 (tile * CTA_K) (kv_head_id P t) (batch_id t)
  end.

(** What thread 0 adds to the waits every thread makes. *)
Definition if_leader {A} (t : thread) (l : list A) : list A :=
  if threadIdx t =? 0 then l else [].

(** Operations on the key or value barrier before the first tile, and in a
    tile iteration of the loop: wait for the tile, then refill the buffer
    with the next one. *)
Definition first_ops (T : template) (P : kernel_args) (t : thread) (b : barrier)
    : list barrier_op :=
  if_leader t [OpInit 1; OpExpect (CTA_K * head_dim T); tile_load P t b 0].

Definition tile_ops (T : template) (P : kernel_args) (t : thread) (b : barrier)
    (iter : Z) : list barrier_op :=
  OpWait (wait_phase iter)
    :: if_leader t [OpExpect (CTA_K * head_dim T); tile_load P t b iter].

(** The operations of the loop over [iters] from phase [p]. *)
Fixpoint loop_ops (P : kernel_args) (T : template) (t : thread) (b : barrier)
    (p : Z) (iters : list Z) : list barrier_op :=
  match iters with
  | [] => []
  | iter :: l =>
      (OpWait (Z.lxor p 1)
         :: if_leader t [OpExpect (CTA_K * head_dim T * 1);
                         match b with
                         | barrier_V => OpLoad (iter *u CTA_K) 0 (kv_head_id P t) (batch_id t)
                         | _ => OpLoad 0 (iter *u CTA_K) (kv_head_id P t) (batch_id t)
                         end])
      ++ loop_ops P T t b (Z.lxor p 1) l
  end.

Fixpoint loop_phase (p : Z) (iters : list Z) : Z :=
  match iters with
  | [] => p
  | _ :: l => loop_phase (Z.lxor p 1) l
  end.

(** Position of output element [(b, h, row, col)] in the storage of a
    contiguous output tensor: [(batch, seq, head, dim)] order in layout 0,
    [(batch, head, seq, dim)] order otherwise. *)
Definition O_position (c : call) (L H D b h row col : Z) : Z :=
  if tensor_layout c =? 0
  then ((b * L + row) * H + h) * D + col
  else ((b * H + h) * L + row) * D + col.

(** ** Calls whose sizes the kernel can index *)

Definition numel (a : Tensor) : Z := foldr Z.mul 1 (sizes a).

(** The storage of a float32 tensor holds one value per element. *)
Definition stored (a : Tensor) : Prop := Z.of_nat (length (float_data a)) = numel a.

(** No tensor of the call is empty, the scale tensors are backed by storage,
    and the scale arrays have fewer than [2 ^ 32] entries even at the finest
    granularity, so that the kernel's 32-bit indices can reach them. *)
Record call_in_range (fuse : bool) (c : call) : Prop := {
  cr_batch : 1 <= g_batch_size (geometry_of c);
  cr_qo_len : 1 <= g_qo_len (geometry_of c);
  cr_kv_len : 1 <= g_kv_len (geometry_of c);
  cr_qo_heads : 1 <= g_num_qo_heads (geometry_of c);
  cr_kv_heads : 1 <= g_num_kv_heads (geometry_of c);
  cr_Q_scale : stored (query_scale c);
  cr_K_scale : stored (key_scale c);
  cr_V_scale : fuse = true -> stored (value_scale c);
  cr_Q_fits :
    g_batch_size (geometry_of c) * g_num_qo_heads (geometry_of c)
      * (div_ceil (g_qo_len (geometry_of c)) CTA_Q * 4 * 8) < U32.modulus;
  cr_K_fits :
    g_batch_size (geometry_of c) * g_num_kv_heads (geometry_of c)
      * (div_ceil (g_kv_len (geometry_of c)) CTA_K * 4) < U32.modulus;
  cr_V_fits :
    g_batch_size (geometry_of c) * g_num_kv_heads (geometry_of c) * 128 < U32.modulus
}.

(** The register of its owning thread that holds output element
    [(row, col)], within the fragment of columns [col / 16]. *)
Definition O_reg (row col : Z) : Z :=
  4 * ((col mod 16) / 8) + 2 * ((row mod 16) / 8) + col mod 2.

(** The four value scales [v_scale\[0..3\]] the fused kernel reads for
    fragment [fv]. *)
Definition v_scale_frag (T : template) (P : kernel_args) (t : thread) (fv : Z)
    : list F32.t :=
  let v i := default F32.zero (zlookup (V_scale P) i) in
  [v (V_scale_base T P t + fv *u 16); v (V_scale_base T P t + fv *u 16 + 1);
   v (V_scale_base T P t + fv *u 16 + 8); v (V_scale_base T P t + fv *u 16 + 8 + 1)].

(** The accumulators after the value scales of the fragments [l] have been
    applied. *)
Definition scaled_by (T : template) (P : kernel_args) (t : thread)
    (RO : tile F32.t) (l : list Z) : tile F32.t :=
  foldl (fun RO fv => scale_frag RO fv (v_scale_frag T P t fv)) RO l.

(** A fused launch: the sample launch with one value scale per channel. *)
Definition sample_fused_template : template :=
  {| head_dim := 64; Q_GRAN := kPerWarp; K_GRAN := kPerWarp; DTypeOut := Half;
     mask_mode := kNone; return_lse := false; fuse_v_scale := true |}.

Definition sample_fused_args (qo kv : Z) : kernel_args :=
  {| Q_scale := repeat F32.one 4;
     K_scale := repeat F32.one (Z.to_nat (div_ceil kv CTA_K));
     V_scale := (fun ch => F32.of_Z (ch + 1)) <$> zseq 64;
     stride_bz_o := 64 * 64; stride_h_o := 64 * 64; stride_seq_o := 64;
     qo_len := qo; kv_len := kv; num_kv_groups := 1;
     sm_scale := F32.one |}.

(** * Properties *)

Ltac zlia := Z.to_euclidean_division_equations; lia.

Lemma u32_wrap_small a : 0 <= a < U32.modulus -> U32.wrap a = a.
Proof. intros Ha. unfold U32.wrap. now apply Z.mod_small. Qed.

Lemma u32_add_small a b : 0 <= a + b < U32.modulus -> (a +u b) = a + b.
Proof. apply u32_wrap_small. Qed.

Lemma u32_mul_small a b : 0 <= a * b < U32.modulus -> (a *u b) = a * b.
Proof. apply u32_wrap_small. Qed.

Lemma u32_sub_small a b : 0 <= a - b < U32.modulus -> (a -u b) = a - b.
Proof. apply u32_wrap_small. Qed.

(** ** Registers at kernel entry *)

Lemma tile_get_init {A} (nq nf : Z) (a : A) (fq f k : Z) :
  0 <= fq < nq -> 0 <= f < nf -> 0 <= k < 8 ->
  tile_get (tile_init nq nf a) fq f k = Some a.
Proof.
  intros Hq Hf Hk. unfold tile_get, tile_init, zseq.
  rewrite list_lookup_fmap, (lookup_seqZ_lt 0 nq (Z.to_nat fq)) by lia.
  cbn [fmap option_fmap option_map].
  rewrite list_lookup_fmap, (lookup_seqZ_lt 0 nf (Z.to_nat f)) by lia.
  cbn [fmap option_fmap option_map].
  rewrite list_lookup_fmap, (lookup_seqZ_lt 0 8 (Z.to_nat k)) by lia.
  reflexivity.
Qed.

(** C7.  The kernel is the tile loop started from [init_regs], and in
    [init_regs] every running maximum is the finite float -5000000 (it is
    -10000000 * 2^-1, not an infinity), every running normaliser is 1.0
    (8388608 * 2^-23) and every output accumulator is 0.0. *)
Theorem kernel_entry_registers {prims : Primitives} (T : template) (P : kernel_args)
    (t : thread) :
  kernel_compute T P t = tiles_from T P t (init_regs T)
  /\ reg_m (init_regs T) = [[neg_sentinel; neg_sentinel]]
  /\ F32.is_finite neg_sentinel = true
  /\ F32.scaled neg_sentinel = Some (-10000000, -1)
  /\ reg_d (init_regs T) = [[F32.one; F32.one]]
  /\ F32.scaled F32.one = Some (8388608, -23)
  /\ length (reg_RO (init_regs T)) = Z.to_nat num_tiles_q
  /\ (forall fq fv k : Z,
        0 <= fq < num_tiles_q -> 0 <= fv < num_tiles_v T -> 0 <= k < 8 ->
        tile_get (reg_RO (init_regs T)) fq fv k = Some F32.zero).
Proof.
  repeat split; try reflexivity.
  intros fq fv k Hq Hv Hk. now apply tile_get_init.
Qed.

(** ** Masking of the final tile *)

Lemma tile_get_imap {A B} (g : Z -> Z -> Z -> A -> B) (sc : tile A) (fq f k : nat) :
  tile_get (tile_imap g sc) (Z.of_nat fq) (Z.of_nat f) (Z.of_nat k)
  = g (Z.of_nat fq) (Z.of_nat f) (Z.of_nat k)
      <$> tile_get sc (Z.of_nat fq) (Z.of_nat f) (Z.of_nat k).
Proof.
  unfold tile_get, tile_imap. rewrite !Nat2Z.id.
  rewrite list_lookup_imap. destruct (sc !! fq) as [row|]; [|reflexivity].
  cbn [fmap option_fmap option_map].
  rewrite list_lookup_imap. destruct (row !! f) as [c|]; [|reflexivity].
  cbn [fmap option_fmap option_map].
  now rewrite list_lookup_imap.
Qed.




(** ** Traces of one thread *)

Lemma bind_Done {E F A B} (c : W E F A) (f : A -> W E F B) tr a :
  c = (tr, Done a) -> bind c f = (tr ++ (f a).1, (f a).2).
Proof. intros ->. unfold bind. now destruct (f a). Qed.

Lemma bind_Stop {E F A B} (c : W E F A) (f : A -> W E F B) tr e :
  c = (tr, Stop e) -> bind c f = (tr, Stop e).
Proof. now intros ->. Qed.

Lemma tile_iterations_app tr1 tr2 :
  tile_iterations (tr1 ++ tr2) = tile_iterations tr1 ++ tile_iterations tr2.
Proof. apply omap_app. Qed.

Lemma reads_of_app arr tr1 tr2 :
  reads_of arr (tr1 ++ tr2) = reads_of arr tr1 ++ reads_of arr tr2.
Proof. apply omap_app. Qed.

Lemma zlookup_Some {A} (l : list A) (i : Z) :
  0 <= i < Z.of_nat (length l) -> exists a, zlookup l i = Some a.
Proof.
  intros Hi. unfold zlookup.
  destruct (Z.leb_spec 0 i); [|lia]. destruct (Z.ltb_spec i (Z.of_nat (length l))); [|lia].
  cbn [andb]. apply lookup_lt_is_Some. lia.
Qed.

Lemma zlookup_None {A} (l : list A) (i : Z) :
  Z.of_nat (length l) <= i -> zlookup l i = None.
Proof.
  intros Hi. unfold zlookup.
  destruct (Z.ltb_spec i (Z.of_nat (length l))); [lia|].
  now rewrite andb_false_r.
Qed.

Lemma contributes_app tr1 tr2 t1 k1 q1 v1 t2 k2 q2 v2 :
  contributes tr1 t1 k1 q1 v1 -> contributes tr2 t2 k2 q2 v2 ->
  contributes (tr1 ++ tr2) (t1 ++ t2) (k1 ++ k2) (q1 ++ q2) (v1 ++ v2).
Proof.
  intros [] []. split; rewrite ?tile_iterations_app, ?reads_of_app; congruence.
Qed.

Lemma leader_contributes (t : thread) (es : list event) :
  tile_iterations es = [] -> (forall arr, reads_of arr es = []) ->
  exists tr, leader t es = (tr, Done tt) /\ contributes tr [] [] [] [].
Proof.
  intros Ht Hr. unfold leader. destruct (threadIdx t =? 0).
  - exists es. split; [reflexivity|]. split; auto.
  - exists []. split; [reflexivity|]. split; reflexivity.
Qed.

Lemma loop_body_Done {prims : Primitives} (T : template) (P : kernel_args) (t : thread)
    (q_scale osm : F32.t) (r : regs) (iter : Z) :
  0 <= k_read_idx T P t iter < Z.of_nat (length (K_scale P)) ->
  exists tr r',
    loop_body T P t q_scale osm r iter = (tr, Done r')
    /\ contributes tr [iter] [k_read_idx T P t iter] [] [].
Proof.
  intros Hidx. destruct (zlookup_Some _ _ Hidx) as [ks Hks].
  unfold loop_body, softmax_pv, read, leader.
  fold (k_read_idx T P t iter). rewrite Hks.
  destruct (threadIdx t =? 0);
    cbv beta iota zeta delta [bind emit ret];
    destruct (update_mdo t _ _ _ _ _) as [[[sc RO] m] d];
    (eexists; eexists; split; [reflexivity|]; split; reflexivity).
Qed.

Lemma loop_Done {prims : Primitives} (T : template) (P : kernel_args) (t : thread)
    (q_scale osm : F32.t) (iters : list Z) :
  (forall iter, iter ∈ iters ->
     0 <= k_read_idx T P t iter < Z.of_nat (length (K_scale P))) ->
  forall r, exists tr r',
    for_each (loop_body T P t q_scale osm) iters r = (tr, Done r')
    /\ contributes tr iters (k_read_idx T P t <$> iters) [] [].
Proof.
  induction iters as [|iter iters IH]; intros Hin r.
  - exists [], r. split; [reflexivity|]. split; reflexivity.
  - destruct (loop_body_Done T P t q_scale osm r iter) as (tr1 & r1 & E1 & C1).
    { apply Hin. left. }
    destruct (IH (fun i Hi => Hin i (list_elem_of_further _ _ _ Hi)) r1)
      as (tr2 & r2 & E2 & C2).
    exists (tr1 ++ tr2), r2. split.
    + cbn [for_each]. rewrite (bind_Done _ _ _ _ E1), E2. reflexivity.
    + apply (contributes_app _ _ _ _ _ _ _ _ _ _ C1 C2).
Qed.

Lemma epilogue_Done {prims : Primitives} (T : template) (P : kernel_args) (t : thread)
    (q_scale osm : F32.t) (r : regs) :
  0 <= k_read_idx T P t (num_iterations T P t) < Z.of_nat (length (K_scale P)) ->
  exists tr r',
    epilogue T P t q_scale osm r = (tr, Done r')
    /\ contributes tr [num_iterations T P t]
         [k_read_idx T P t (num_iterations T P t)] [] [].
Proof.
  intros Hidx. destruct (zlookup_Some _ _ Hidx) as [ks Hks].
  unfold epilogue, epilogue_tile, softmax_pv, read.
  fold (k_read_idx T P t (num_iterations T P t)). rewrite Hks.
  cbv beta iota zeta delta [bind emit ret].
  destruct (update_mdo t _ _ _ _ _) as [[[sc RO] m] d].
  eexists; eexists; split; [reflexivity|]; split; reflexivity.
Qed.

Lemma prologue_Done (T : template) (P : kernel_args) (t : thread) :
  exists tr, prologue T P t = (tr, Done tt) /\ contributes tr [] [] [] [].
Proof.
  unfold prologue, leader. destruct (threadIdx t =? 0);
    (eexists; split; [reflexivity|]; split; reflexivity).
Qed.

(** ** Index arithmetic stays in range *)

Ltac u32_small solver :=
  repeat match goal with
  | |- context [U32.mul ?a ?b] => rewrite (u32_mul_small a b) by solver
  | |- context [U32.add ?a ?b] => rewrite (u32_add_small a b) by solver
  | |- context [U32.sub ?a ?b] => rewrite (u32_sub_small a b) by solver
  end.

Lemma radix2 (h i Y N : Z) :
  0 <= h < Y -> 0 <= i < N -> 0 <= h * N + i < Y * N.
Proof.
  intros Hh Hi.
  assert ((h + 1) * N <= Y * N) by (apply Z.mul_le_mono_nonneg_r; lia).
  assert (0 <= h * N) by (apply Z.mul_nonneg_nonneg; lia).
  lia.
Qed.

Lemma radix3 (b h i B Y N : Z) :
  0 <= b < B -> 0 <= h < Y -> 0 <= i < N ->
  0 <= b * Y * N + h * N + i < B * Y * N
  /\ 0 <= b * Y <= b * Y * N /\ 0 <= h * N.
Proof.
  intros Hb Hh Hi.
  pose proof (radix2 h i Y N Hh Hi) as H1.
  pose proof (radix2 b (h * N + i) B (Y * N) Hb H1) as H2.
  assert (0 <= b * Y) by (apply Z.mul_nonneg_nonneg; lia).
  assert (b * Y * 1 <= b * Y * N) by (apply Z.mul_le_mono_nonneg_l; lia).
  assert (0 <= h * N) by (apply Z.mul_nonneg_nonneg; lia).
  lia.
Qed.

Lemma in_grid_spec (g : dim3) (t : thread) :
  in_grid g t = true ->
  gridDim t = g /\ 0 <= bx t < x g /\ 0 <= head_id t < y g
  /\ 0 <= batch_id t < z g /\ 0 <= threadIdx t < NUM_THREADS.
Proof.
  unfold in_grid. rewrite !andb_true_iff, bool_decide_eq_true.
  rewrite !Z.leb_le, !Z.ltb_lt. tauto.
Qed.

Lemma lane_ranges (t : thread) :
  0 <= threadIdx t ->
  0 <= warp_idx t < 4 /\ 0 <= lane_id t < 32 /\ 0 <= lane_id t / 4 < 8
  /\ 0 <= lane_id t mod 4 < 4.
Proof. unfold warp_idx, lane_id. intros. zlia. Qed.

Lemma q_scale_idx_in_range (g : dim3) (T : template) (P : kernel_args)
    (nkv : Z) (t : thread) :
  valid_launch g T P nkv -> in_grid g t = true ->
  0 <= q_scale_idx T t < Z.of_nat (length (Q_scale P)).
Proof.
  intros V Hg. apply in_grid_spec in Hg as (Hgd & Hbx & Hh & Hb & Htid).
  destruct (lane_ranges t) as (Hw & Hl & Hl4 & Hl3); [lia|].
  rewrite (vl_Q_scale _ _ _ _ V). pose proof (vl_Q_fits _ _ _ _ V) as Hfit.
  unfold q_scale_idx, scale_len, num_qo_heads. rewrite Hgd.
  unfold U32.modulus in Hfit.
  assert (Hzy : 1 <= z g * y g) by nia.
  assert (Hx : x g * 4 * 8 <= z g * y g * (x g * 4 * 8)) by nia.
  destruct (Q_GRAN T).
  - destruct (radix3 (batch_id t) (head_id t) (bx t) (z g) (y g) (x g))
      as (R1 & R2 & R3); try lia.
    assert (z g * y g * x g <= z g * y g * (x g * 4 * 8)) by nia.
    u32_small ltac:(unfold U32.modulus; lia). lia.
  - destruct (radix3 (batch_id t) (head_id t) (bx t * 4 + warp_idx t) (z g) (y g) (x g * 4))
      as (R1 & R2 & R3); try lia.
    assert (z g * y g * (x g * 4) <= z g * y g * (x g * 4 * 8)) by nia.
    u32_small ltac:(unfold U32.modulus; lia). lia.
  - destruct (radix3 (batch_id t) (head_id t)
                (bx t * 32 + warp_idx t * 8 + lane_id t / 4) (z g) (y g) (x g * 4 * 8))
      as (R1 & R2 & R3); try lia.
    u32_small ltac:(unfold U32.modulus; lia). lia.
Qed.

Lemma num_iterations_range (g : dim3) (T : template) (P : kernel_args)
    (nkv : Z) (t : thread) :
  valid_launch g T P nkv -> in_grid g t = true ->
  1 <= num_iterations T P t <= div_ceil (kv_len P) CTA_K
  /\ num_iterations T P t =
     div_ceil (match mask_mode T with
               | kCausal => Z.min (kv_len P) ((bx t + 1) * 64)
               | kNone => kv_len P
               end) 128.
Proof.
  intros V Hg. apply in_grid_spec in Hg as (Hgd & Hbx & Hh & Hb & Htid).
  pose proof (vl_kv_len _ _ _ _ V) as Hkv. pose proof (vl_qo_len _ _ _ _ V) as Hqo.
  pose proof (vl_grid_x _ _ _ _ V) as Hx.
  unfold I32.max_int in *. unfold num_iterations, div_ceil, CTA_K, CTA_Q in *.
  destruct (mask_mode T).
  - split; [zlia | reflexivity].
  - assert (E : (bx t +u 1) *u 64 = (bx t + 1) * 64).
    { u32_small ltac:(unfold U32.modulus; zlia). reflexivity. }
    rewrite E. split; [zlia | reflexivity].
Qed.

Lemma kv_heads_of_grid (g : dim3) (T : template) (P : kernel_args)
    (nkv : Z) (t : thread) :
  valid_launch g T P nkv -> in_grid g t = true ->
  num_qo_heads t / num_kv_groups P = nkv
  /\ 0 <= head_id t / num_kv_groups P < nkv.
Proof.
  intros V Hg. apply in_grid_spec in Hg as (Hgd & Hbx & Hh & Hb & Htid).
  pose proof (vl_heads _ _ _ _ V) as Hy. pose proof (vl_groups _ _ _ _ V) as HG.
  unfold num_qo_heads. rewrite Hgd, Hy. split.
  - rewrite Z.mul_comm. apply Z.div_mul. lia.
  - split; [apply Z.div_pos; lia|]. apply Z.div_lt_upper_bound; lia.
Qed.

Lemma k_read_idx_in_range (g : dim3) (T : template) (P : kernel_args)
    (nkv : Z) (t : thread) (iter : Z) :
  valid_launch g T P nkv -> in_grid g t = true ->
  1 <= iter <= num_iterations T P t ->
  0 <= k_read_idx T P t iter < Z.of_nat (length (K_scale P)).
Proof.
  intros V Hg Hiter.
  destruct (num_iterations_range g T P nkv t V Hg) as ((Hn1 & Hn2) & _).
  destruct (kv_heads_of_grid g T P nkv t V Hg) as (Hnkv & Hhk).
  apply in_grid_spec in Hg as (Hgd & Hbx & Hh & Hb & Htid).
  destruct (lane_ranges t) as (Hw & Hl & Hl4 & Hl3); [lia|].
  rewrite (vl_K_scale _ _ _ _ V). pose proof (vl_K_fits _ _ _ _ V) as Hfit.
  pose proof (vl_kv_heads _ _ _ _ V) as Hkvh.
  unfold k_read_idx, k_scale_idx, k_scale_advance_offset, k_scale_len.
  rewrite Hnkv. set (hk := head_id t / num_kv_groups P) in *.
  set (nb := div_ceil (kv_len P) CTA_K) in *.
  unfold U32.modulus in Hfit.
  assert (Hzn : 1 <= z g * nkv) by nia.
  assert (Hnb : nb * 4 <= z g * nkv * (nb * 4)) by nia.
  destruct (K_GRAN T).
  - destruct (radix3 (batch_id t) hk (iter - 1) (z g) nkv nb) as (R1 & R2 & R3); try lia.
    assert (z g * nkv * nb <= z g * nkv * (nb * 4)) by nia.
    u32_small ltac:(unfold U32.modulus; lia). lia.
  - destruct (radix3 (batch_id t) hk (iter - 1) (z g) nkv nb) as (R1 & R2 & R3); try lia.
    assert (z g * nkv * nb <= z g * nkv * (nb * 4)) by nia.
    u32_small ltac:(unfold U32.modulus; lia). lia.
  - destruct (radix3 (batch_id t) hk (lane_id t mod 4 + (iter - 1) * 4) (z g) nkv (nb * 4))
      as (R1 & R2 & R3); try lia.
    u32_small ltac:(unfold U32.modulus; lia). lia.
Qed.

(** ** A validated launch over at least one key runs to completion *)

Lemma for_each_Done {E F A S} (body : S -> A -> W E F S) (Q : list E -> Prop)
    (l : list A) :
  Q [] -> (forall a b, Q a -> Q b -> Q (a ++ b)) ->
  (forall a s, a ∈ l -> exists tr s', body s a = (tr, Done s') /\ Q tr) ->
  forall s, exists tr s', for_each body l s = (tr, Done s') /\ Q tr.
Proof.
  intros Hnil Happ. induction l as [|a l IH]; intros Hbody s.
  - exists [], s. split; [reflexivity | assumption].
  - destruct (Hbody a s) as (tr1 & s1 & E1 & Q1); [left|].
    destruct (IH (fun a' s' Ha => Hbody a' s' (list_elem_of_further _ _ _ Ha)) s1)
      as (tr2 & s2 & E2 & Q2).
    exists (tr1 ++ tr2), s2. split; [|auto].
    cbn [for_each]. rewrite (bind_Done _ _ _ _ E1), E2. reflexivity.
Qed.

Lemma only_v_reads_nil : only_v_reads [].
Proof. exists []. split; reflexivity. Qed.

Lemma only_v_reads_app a b : only_v_reads a -> only_v_reads b -> only_v_reads (a ++ b).
Proof.
  intros [va Ca] [vb Cb]. exists (va ++ vb).
  apply (contributes_app _ _ _ _ _ _ _ _ _ _ Ca Cb).
Qed.

Lemma apply_v_scale_Done (g : dim3) (T : template) (P : kernel_args)
    (nkv : Z) (t : thread) (RO : tile F32.t) :
  valid_launch g T P nkv -> in_grid g t = true -> fuse_v_scale T = true ->
  exists tr RO', apply_v_scale T P t RO = (tr, Done RO') /\ only_v_reads tr.
Proof.
  intros V Hg Hfuse.
  destruct (kv_heads_of_grid g T P nkv t V Hg) as (Hnkv & Hhk).
  apply in_grid_spec in Hg as (Hgd & Hbx & Hh & Hb & Htid).
  destruct (lane_ranges t) as (Hw & Hl & Hl4 & Hl3); [lia|].
  pose proof (vl_V_scale _ _ _ _ V Hfuse) as Hlen.
  pose proof (vl_V_fits _ _ _ _ V) as Hfit.
  pose proof (vl_head_dim _ _ _ _ V) as Hhd.
  pose proof (vl_kv_heads _ _ _ _ V) as Hkvh.
  unfold apply_v_scale.
  apply for_each_Done; [apply only_v_reads_nil | apply only_v_reads_app |].
  intros fv RO0 Hfv. unfold zseq in Hfv. apply elem_of_seqZ in Hfv.
  assert (Hfv' : 0 <= fv * 16 + 9 < head_dim T + 0).
  { unfold num_tiles_v in Hfv. destruct Hhd as [Hd | Hd]; rewrite Hd in *; zlia. } clear Hfv.
  assert (Hbase : V_scale_base T P t
                  = batch_id t * nkv * head_dim T
                    + head_id t / num_kv_groups P * head_dim T + lane_id t mod 4 * 2).
  { unfold V_scale_base. rewrite Hnkv. set (hk := head_id t / num_kv_groups P) in *.
    destruct (radix3 (batch_id t) hk 0 (z g) nkv (head_dim T)) as (R1 & R2 & R3); try lia.
    assert (z g * nkv * head_dim T <= z g * nkv * 128) by nia.
    unfold U32.modulus in Hfit.
    u32_small ltac:(unfold U32.modulus; lia). reflexivity. }
  set (hk := head_id t / num_kv_groups P) in *.
  destruct (radix3 (batch_id t) hk (lane_id t mod 4 * 2 + fv * 16 + 9) (z g) nkv (head_dim T))
    as (R1 & R2 & R3); try lia.
  assert (E16 : fv *u 16 = fv * 16).
  { unfold U32.modulus in Hfit. u32_small ltac:(unfold U32.modulus; lia). reflexivity. }
  rewrite E16, Hbase.
  destruct (zlookup_Some (V_scale P)
              (batch_id t * nkv * head_dim T + hk * head_dim T + lane_id t mod 4 * 2 + fv * 16))
    as [v0 E0]; [lia|].
  destruct (zlookup_Some (V_scale P)
              (batch_id t * nkv * head_dim T + hk * head_dim T + lane_id t mod 4 * 2 + fv * 16 + 1))
    as [v1 E1]; [lia|].
  destruct (zlookup_Some (V_scale P)
              (batch_id t * nkv * head_dim T + hk * head_dim T + lane_id t mod 4 * 2 + fv * 16 + 8))
    as [v2 E2]; [lia|].
  destruct (zlookup_Some (V_scale P)
              (batch_id t * nkv * head_dim T + hk * head_dim T + lane_id t mod 4 * 2 + fv * 16 + 8 + 1))
    as [v3 E3]; [lia|].
  unfold read. rewrite E0, E1, E2, E3.
  eexists; eexists; split; [reflexivity|].
  eexists. split; reflexivity.
Qed.

Lemma loop_iters_snoc (n : Z) : 1 <= n -> loop_iters n ++ [n] = seqZ 1 n.
Proof.
  intros Hn. unfold loop_iters.
  transitivity (seqZ 1 ((n - 1) + 1)); [|f_equal; lia].
  rewrite seqZ_app by lia. f_equal.
  replace (1 + (n - 1)) with n by lia. reflexivity.
Qed.

Lemma contributes_then_v tr1 tr2 tiles kreads qreads vreads :
  contributes tr1 tiles kreads qreads [] -> contributes tr2 [] [] [] vreads ->
  contributes (tr1 ++ tr2) tiles kreads qreads vreads.
Proof.
  intros C1 C2.
  pose proof (contributes_app _ _ _ _ _ _ _ _ _ _ C1 C2) as C.
  now rewrite !app_nil_r in C.
Qed.

Theorem kernel_compute_Done {prims : Primitives} (g : dim3) (T : template)
    (P : kernel_args) (nkv : Z) (t : thread) :
  valid_launch g T P nkv -> in_grid g t = true ->
  exists tr r vreads,
    kernel_compute T P t = (tr, Done r)
    /\ contributes tr (seqZ 1 (num_iterations T P t))
         (k_read_idx T P t <$> seqZ 1 (num_iterations T P t))
         [q_scale_idx T t] vreads.
Proof.
  intros V Hg.
  destruct (num_iterations_range g T P nkv t V Hg) as ((Hn1 & Hn2) & _).
  set (n := num_iterations T P t) in *.
  destruct (prologue_Done T P t) as (tr0 & E0 & C0).
  destruct (zlookup_Some (Q_scale P) (q_scale_idx T t)) as [q Eq].
  { apply (q_scale_idx_in_range g T P nkv t V Hg). }
  set (osm := F32.mul (sm_scale P) log2e).
  destruct (loop_Done T P t q osm (loop_iters n)) with (r := init_regs T)
    as (tr1 & r1 & E1 & C1).
  { intros iter Hin. unfold loop_iters in Hin. apply elem_of_seqZ in Hin.
    apply (k_read_idx_in_range g T P nkv t iter V Hg). fold n. lia. }
  destruct (epilogue_Done T P t q osm r1) as (tr2 & r2 & E2 & C2).
  { apply (k_read_idx_in_range g T P nkv t n V Hg). fold n. lia. }
  fold n in E2, C2.
  assert (Cmain : contributes (tr0 ++ [EvRead Q_scale_array (q_scale_idx T t)]
                                 ++ [EvWait barrier_Q 0] ++ tr1 ++ tr2)
                    (seqZ 1 n) (k_read_idx T P t <$> seqZ 1 n) [q_scale_idx T t] []).
  { rewrite <- (loop_iters_snoc n Hn1), fmap_app.
    apply (contributes_app _ _ [] [] [] [] _ _ [q_scale_idx T t] []); [exact C0|].
    apply (contributes_app _ _ [] [] [q_scale_idx T t] [] _ _ [] []);
      [split; reflexivity|].
    apply (contributes_app _ _ [] [] [] [] _ _ [] []); [split; reflexivity|].
    apply (contributes_app _ _ _ _ [] [] _ _ [] []); assumption. }
  unfold kernel_compute, tiles_from. fold osm n.
  rewrite E0. unfold read. rewrite Eq.
  cbv beta iota zeta delta [bind emit ret]. rewrite E1.
  cbv beta iota zeta. rewrite E2. cbv beta iota zeta.
  destruct (normalize_d t (reg_RO r2) (reg_m r2) (reg_d r2)) as [[RO m] d].
  destruct (fuse_v_scale T) eqn:Hfuse.
  - destruct (apply_v_scale_Done g T P nkv t RO V Hg Hfuse) as (tr3 & RO' & E3 & [vr C3]).
    rewrite E3. eexists; eexists; exists ([] ++ vr). split; [reflexivity|].
    rewrite app_nil_r.
    assert (Hl : tr0 ++ [EvRead Q_scale_array (q_scale_idx T t)]
                   ++ [EvWait barrier_Q 0] ++ tr1 ++ tr2 ++ tr3
                 = (tr0 ++ [EvRead Q_scale_array (q_scale_idx T t)]
                      ++ [EvWait barrier_Q 0] ++ tr1 ++ tr2) ++ tr3)
      by (now rewrite <- !app_assoc).
    rewrite Hl.
    apply contributes_then_v; assumption.
  - eexists; eexists; exists []. split; [reflexivity|].
    rewrite !app_nil_r. exact Cmain.
Qed.

(** ** How many tiles a thread-block traverses *)

(** C3, as stated, fails without keys: with [kv_len = 0] the loop is skipped
    but the epilogue is entered, one tile iteration where ceil(0/128) = 0. *)
Lemma tile_iterations_without_keys :
  let tr := (kernel_compute (prims := sample_primitives) (sample_template kNone false)
               (sample_args 64 0) (sample_thread 0)).1 in
  Z.of_nat (length (tile_iterations tr)) = 1
  /\ div_ceil (kv_len (sample_args 64 0)) CTA_K = 0
  /\ Z.of_nat (length (tile_iterations tr)) <> div_ceil (kv_len (sample_args 64 0)) CTA_K.
Proof. vm_compute. repeat split; discriminate. Qed.

(** C3, amended.  In a validated launch over at least one key, every thread
    of the block with query-tile index [bx] runs to completion and enters
    ceil(kv_len / 128) tile iterations without causal masking, and
    ceil(min(kv_len, (bx + 1) * 64) / 128) with it; the tiles it traverses
    are tiles 0, 1, ... in order; under causal masking each starts at or
    before the last query row of the block, and in both modes every key that
    some query row of the block may attend to lies in a traversed tile. *)
Theorem tile_iterations_count {prims : Primitives} (g : dim3) (T : template)
    (P : kernel_args) (nkv : Z) (t : thread) :
  valid_launch g T P nkv -> in_grid g t = true ->
  exists tr r,
    kernel_compute T P t = (tr, Done r)
    /\ tile_iterations tr = seqZ 1 (num_iterations T P t)
    /\ Z.of_nat (length (tile_iterations tr))
       = match mask_mode T with
         | kNone => div_ceil (kv_len P) 128
         | kCausal => div_ceil (Z.min (kv_len P) ((bx t + 1) * 64)) 128
         end
    /\ (mask_mode T = kCausal ->
        forall j, 0 <= j < Z.of_nat (length (tile_iterations tr)) ->
                  j * 128 <= bx t * 64 + 63)
    /\ (forall kpos qpos,
          0 <= kpos < kv_len P -> bx t * 64 <= qpos < (bx t + 1) * 64 ->
          (mask_mode T = kCausal -> kpos <= qpos) ->
          kpos < Z.of_nat (length (tile_iterations tr)) * 128).
Proof.
  intros V Hg.
  destruct (kernel_compute_Done g T P nkv t V Hg) as (tr & r & vr & E & C).
  destruct (num_iterations_range g T P nkv t V Hg) as ((Hn1 & Hn2) & Hn).
  pose proof (vl_kv_len _ _ _ _ V) as Hkv.
  apply in_grid_spec in Hg as (Hgd & Hbx & Hh & Hb & Htid).
  exists tr, r. split; [exact E|]. rewrite (c_tiles _ _ _ _ _ C).
  rewrite length_seqZ, Z2Nat.id by lia. rewrite Hn.
  unfold div_ceil. destruct (mask_mode T).
  - repeat split; try reflexivity; [discriminate|]. intros; zlia.
  - repeat split; try reflexivity; intros; zlia.
Qed.

Lemma sample_valid_launch (mode : MaskMode) (lse : bool) (qo kv : Z) :
  1 <= qo <= 64 -> 1 <= kv <= 1024 ->
  valid_launch sample_grid (sample_template mode lse) (sample_args qo kv) 1.
Proof.
  intros Hqo Hkv.
  split; cbn -[Z.mul Z.div div_ceil];
    unfold I32.max_int, U32.modulus, CTA_Q, CTA_K, div_ceil;
    try rewrite repeat_length; try zlia; try discriminate.
Defined.

Lemma tile_iterations_count_witness :
  exists tr r,
    kernel_compute (prims := sample_primitives) (sample_template kCausal false)
      (sample_args 64 300) (sample_thread 5) = (tr, Done r)
    /\ tile_iterations tr = [1]
    /\ Z.of_nat (length (tile_iterations tr)) = 1.
Proof.
  destruct (tile_iterations_count (prims := sample_primitives) sample_grid
              (sample_template kCausal false) (sample_args 64 300) 1 (sample_thread 5))
    as (tr & r & E & Ht & Hn & _).
  - apply sample_valid_launch; lia.
  - reflexivity.
  - exists tr, r. split; [exact E|]. split; [exact Ht|]. rewrite Hn. reflexivity.
Defined.

(** ** Reads of the key scale *)

(** C4 at [kv_len = 0].  A call over a key tensor of sequence length 0, with
    the empty key-scale tensor the shape check demands, passes the validation
    of a build without assertions and launches the kernel with [kv_len = 0].
    There [num_iterations] is 0, the epilogue computes [num_iterations - 1]
    in unsigned arithmetic and reads the empty array at index 4294967295. *)
Theorem k_scale_read_without_keys {prims : Primitives}
    (encode_ok : Z -> Z -> Z -> Z -> Z -> Z -> Z -> bool) :
  let c := sample_call_without_keys in
  let T := sample_template kNone false in
  let P := launch_args false c 2 in
  let t := {| gridDim := launch_grid c; blockIdx := {| x := 0; y := 0; z := 0 |};
              threadIdx := 0 |} in
  (exists pre,
      attn_inst_buf true sample_granularity_of encode_ok false c
      = (pre ++ [DevLaunch T P (launch_grid c)],
         Done {| lse_sizes := [0]; lse_type := Float32 |}))
  /\ in_grid (launch_grid c) t = true
  /\ kv_len P = 0 /\ K_scale P = []
  /\ num_iterations T P t = 0
  /\ k_read_idx T P t (num_iterations T P t) = 4294967295
  /\ (kernel_compute T P t).2 = Stop (OutOfBounds K_scale_array 4294967295)
  /\ reads_of K_scale_array (kernel_compute T P t).1 = [4294967295].
Proof.
  intros c T P t. split; [|repeat split; reflexivity].
  exists (removelast (attn_inst_buf true sample_granularity_of encode_ok false c).1).
  reflexivity.
Qed.

(** In a validated launch over at least one key every read of the three
    scale arrays is inside its array: the thread runs to completion, it reads
    the query scale once and the key scale once per tile iteration, at the
    index [k_read_idx] of that iteration, below the length of the array. *)
Theorem scale_reads_in_bounds {prims : Primitives} (g : dim3) (T : template)
    (P : kernel_args) (nkv : Z) (t : thread) :
  valid_launch g T P nkv -> in_grid g t = true ->
  exists tr r,
    kernel_compute T P t = (tr, Done r)
    /\ reads_of Q_scale_array tr = [q_scale_idx T t]
    /\ reads_of K_scale_array tr
       = (fun iter => k_read_idx T P t iter) <$> seqZ 1 (num_iterations T P t)
    /\ Forall (fun i => 0 <= i < Z.of_nat (length (K_scale P)))
         (reads_of K_scale_array tr).
Proof.
  intros V Hg.
  destruct (kernel_compute_Done g T P nkv t V Hg) as (tr & r & vr & E & C).
  exists tr, r. split; [exact E|]. split; [apply C|]. split; [apply C|].
  rewrite (c_kreads _ _ _ _ _ C). apply Forall_fmap, Forall_forall.
  intros iter Hin. apply elem_of_seqZ in Hin.
  apply (k_read_idx_in_range g T P nkv t iter V Hg). lia.
Qed.

Lemma scale_reads_in_bounds_witness :
  exists tr r,
    kernel_compute (prims := sample_primitives) (sample_template kNone false)
      (sample_args 64 300) (sample_thread 37) = (tr, Done r)
    /\ reads_of K_scale_array tr = [0; 1; 2].
Proof.
  destruct (scale_reads_in_bounds (prims := sample_primitives) sample_grid
              (sample_template kNone false) (sample_args 64 300) 1 (sample_thread 37))
    as (tr & r & E & _ & Hk & _).
  - apply sample_valid_launch; lia.
  - reflexivity.
  - exists tr, r. split; [exact E | exact Hk].
Defined.

(** ** The head-count check of the entry points *)

Lemma stops_with_bind {E F A B} (c : W E F A) (f : A -> W E F B) (e : F) :
  stops_with (bind c f) e -> stops_with c e \/ exists a, stops_with (f a) e.
Proof.
  intros [tr Hs]. unfold bind in Hs. destruct c as [tr1 [a|e1]].
  - right. exists a. destruct (f a) as [tr2 o]. inversion Hs; subst. now exists tr2.
  - left. inversion Hs; subst. now exists tr.
Qed.

Lemma stops_with_ret {E F A} (a : A) (e : F) : ~ stops_with (ret (E := E) a) e.
Proof. intros [tr Hs]. discriminate. Qed.

Lemma stops_with_emit {E F} (es : list E) (e : F) : ~ stops_with (emit es) e.
Proof. intros [tr Hs]. discriminate. Qed.

Lemma stops_with_stop {E F A} (e0 e : F) : stops_with (stop (E := E) (A := A) e0) e -> e = e0.
Proof. intros [tr Hs]. now inversion Hs. Qed.

Lemma stops_with_CHECK (b : bool) (what : string) (e : host_stop) :
  stops_with (CHECK b what) e -> e = TorchCheck what.
Proof.
  unfold CHECK. destruct b; intros Hs.
  - now apply stops_with_ret in Hs.
  - now apply stops_with_stop in Hs.
Qed.

Lemma stops_with_assert (NDEBUG b : bool) (what : string) (e : host_stop) :
  stops_with (assert NDEBUG b what) e -> e = AssertionFailure what.
Proof.
  unfold assert. destruct (NDEBUG || b); intros Hs.
  - now apply stops_with_ret in Hs.
  - now apply stops_with_stop in Hs.
Qed.

Lemma stops_with_all_checks (l : list (bool * string)) (e : host_stop) :
  stops_with (all_checks l) e -> exists what, e = TorchCheck what.
Proof.
  unfold all_checks. generalize tt. induction l as [|c l IH]; intros u Hs.
  - now apply stops_with_ret in Hs.
  - cbn [for_each] in Hs. apply stops_with_bind in Hs as [Hs | [a Hs]].
    + apply stops_with_CHECK in Hs. eauto.
    + eapply IH, Hs.
Qed.

Lemma stops_with_check_tensors (fuse : bool) (c : call) (e : host_stop) :
  stops_with (check_tensors fuse c) e -> not_invalid_argument e.
Proof. intros Hs. apply stops_with_all_checks in Hs as [w ->]. exact I. Qed.

Lemma stops_with_check_shapes (NDEBUG : bool) (c : call) (e : host_stop) :
  stops_with (check_shapes NDEBUG c) e -> not_invalid_argument e.
Proof.
  unfold check_shapes, CHECK_SHAPE. intros Hs.
  repeat (apply stops_with_bind in Hs as [Hs | [? Hs]]);
    first [apply stops_with_CHECK in Hs | apply stops_with_assert in Hs];
    subst; exact I.
Qed.

Lemma writes_nothing_all_checks (l : list (bool * string)) : (all_checks l).1 = [].
Proof.
  unfold all_checks. generalize tt. induction l as [|c l IH]; intros u; [reflexivity|].
  cbn [for_each]. unfold CHECK at 1. destruct c.1; [|reflexivity].
  cbn [bind ret]. specialize (IH tt). destruct (for_each _ l tt). exact IH.
Qed.

Lemma writes_nothing_check_tensors (fuse : bool) (c : call) :
  (check_tensors fuse c).1 = [].
Proof. apply writes_nothing_all_checks. Qed.

Lemma writes_nothing_check_shapes (NDEBUG : bool) (c : call) :
  (check_shapes NDEBUG c).1 = [].
Proof.
  unfold check_shapes, CHECK_SHAPE, CHECK, assert.
  repeat match goal with
         | |- context [if ?b then _ else _] => destruct b
         end; reflexivity.
Qed.

Lemma check_head_ratio_spec (a b : Z) :
  b <> 0 -> 0 <= a ->
  ((b | a) -> check_head_ratio a b = ret tt)
  /\ (~ (b | a) ->
      check_head_ratio a b = stop (InvalidArgument (head_ratio_message a b))).
Proof.
  intros Hb Ha. unfold check_head_ratio, int_rem.
  destruct (Z.eqb_spec b 0); [contradiction|].
  destruct (Z.eqb_spec a (- 2 ^ 31)); [lia|]. cbn [orb andb].
  pose proof (Z.rem_divide a b Hb) as Hd.
  destruct (Z.eqb_spec (Z.rem a b) 0) as [E|E]; cbn [negb]; split; intros D;
    try reflexivity; exfalso; tauto.
Qed.

Ltac stop_leaf Hs :=
  first
    [ apply stops_with_ret in Hs; contradiction
    | apply stops_with_emit in Hs; contradiction
    | apply stops_with_CHECK in Hs; discriminate
    | apply stops_with_assert in Hs; discriminate
    | apply stops_with_check_tensors in Hs; contradiction
    | apply stops_with_check_shapes in Hs; contradiction
    | apply stops_with_stop in Hs; discriminate ].

Ltac stop_cases Hs :=
  repeat first
    [ stop_leaf Hs
    | apply stops_with_bind in Hs as [Hs | [? Hs]]
    | match type of Hs with
      | stops_with (if ?b then _ else _) _ => destruct b
      | stops_with (match ?a with _ => _ end) _ => destruct a
      end ].

(** C9 at [num_kv_heads = 0].  A key tensor with no heads passes every check
    before the head-count test, and the test then takes a remainder by zero:
    the call neither raises the invalid-argument error nor returns. *)
Theorem head_ratio_zero_kv_heads (NDEBUG fuse : bool)
    (granularity_of : Z -> option QuantGranularity)
    (encode_ok : Z -> Z -> Z -> Z -> Z -> Z -> Z -> bool) :
  let c := sample_call 4 0 0 in
  g_num_qo_heads (geometry_of c) = 4
  /\ g_num_kv_heads (geometry_of c) = 0
  /\ check_tensors fuse c = ([], Done tt)
  /\ check_shapes NDEBUG c = ([], Done tt)
  /\ attn_inst_buf NDEBUG granularity_of encode_ok fuse c
     = ([], Stop (UndefinedBehaviour "num_qo_heads % num_kv_heads")).
Proof. destruct NDEBUG, fuse; repeat split; reflexivity. Qed.

(** Whenever [num_kv_heads] is not zero the head-count test does what C9
    says.  A call whose [num_qo_heads] is not a multiple of [num_kv_heads]
    stops before any device action, and once the tensor checks pass it stops
    with [std::invalid_argument] and the message naming both counts; a call
    whose [num_qo_heads] is a multiple never stops with that error. *)
Theorem head_ratio_checked (NDEBUG fuse : bool)
    (granularity_of : Z -> option QuantGranularity)
    (encode_ok : Z -> Z -> Z -> Z -> Z -> Z -> Z -> bool) (c : call) :
  let a := g_num_qo_heads (geometry_of c) in
  let b := g_num_kv_heads (geometry_of c) in
  b <> 0 -> 0 <= a ->
  (~ (b | a) ->
   (exists e, attn_inst_buf NDEBUG granularity_of encode_ok fuse c = ([], Stop e))
   /\ (check_tensors fuse c = ([], Done tt) ->
       check_shapes NDEBUG c = ([], Done tt) ->
       attn_inst_buf NDEBUG granularity_of encode_ok fuse c
       = ([], Stop (InvalidArgument (head_ratio_message a b)))))
  /\ ((b | a) ->
      ~ stops_with (attn_inst_buf NDEBUG granularity_of encode_ok fuse c)
          (InvalidArgument (head_ratio_message a b))).
Proof.
  intros a b Hb Ha. destruct (check_head_ratio_spec a b Hb Ha) as [Hyes Hno].
  split.
  - intros Hnd. specialize (Hno Hnd).
    pose proof (writes_nothing_check_tensors fuse c) as W1.
    pose proof (writes_nothing_check_shapes NDEBUG c) as W2.
    unfold attn_inst_buf. fold a b. rewrite Hno.
    destruct (check_tensors fuse c) as [tr1 [[]|e1]]; cbn [fst] in W1; subst tr1;
      destruct (check_shapes NDEBUG c) as [tr2 [[]|e2]]; cbn [fst] in W2; subst tr2;
      (split; [eexists; reflexivity|]); intros E1 E2;
      first [reflexivity | discriminate].
  - intros Hd Hs. specialize (Hyes Hd).
    unfold attn_inst_buf in Hs. fold a b in Hs. rewrite Hyes in Hs.
    unfold allocate_lse, dispatch, CHECK_SHAPE in Hs.
    stop_cases Hs.
    all: apply stops_with_stop in Hs; unfold head_ratio_message in Hs; discriminate.
Qed.

Lemma head_ratio_checked_witness :
  attn_inst_buf false sample_granularity_of sample_encode_ok false (sample_call 4 3 0)
  = ([], Stop (InvalidArgument "num_qo_heads (4) must be divisible by num_kv_heads (3)")).
Proof.
  apply (head_ratio_checked false false sample_granularity_of sample_encode_ok
           (sample_call 4 3 0)).
  - vm_compute. discriminate.
  - vm_compute. discriminate.
  - intros [k Hk]. change (4 = k * 3) in Hk. lia.
  - reflexivity.
  - reflexivity.
Defined.

(** ** Stores to global memory *)

Lemma store_all_app {V} (ws1 ws2 : list (Z * V)) (mem : gmap Z V) :
  store_all (ws1 ++ ws2) mem = store_all ws2 (store_all ws1 mem).
Proof. unfold store_all. apply foldl_app. Qed.

Lemma store_all_notin {V} (ws : list (Z * V)) (mem : gmap Z V) (a : Z) :
  (forall w, w ∈ ws -> w.1 <> a) -> store_all ws mem !! a = mem !! a.
Proof.
  induction ws as [|w ws IH] using rev_ind; intros Hnot; [reflexivity|].
  rewrite store_all_app. cbn [store_all foldl].
  rewrite lookup_insert_ne.
  - apply IH. intros w' Hw'. apply Hnot, elem_of_app. now left.
  - apply Hnot, elem_of_app. right. apply list_elem_of_singleton. reflexivity.
Qed.

Lemma store_all_in {V} (ws : list (Z * V)) (mem : gmap Z V) (a : Z) (v : V) :
  agreeing ws -> (a, v) ∈ ws -> store_all ws mem !! a = Some v.
Proof.
  induction ws as [|w ws IH] using rev_ind; intros Hag Hin.
  - inversion Hin.
  - rewrite store_all_app. cbn [store_all foldl].
    destruct (decide (w.1 = a)) as [E|E].
    + rewrite E, lookup_insert_eq. f_equal. symmetry.
      apply (Hag a v w.2 Hin). apply elem_of_app. right.
      apply list_elem_of_singleton. destruct w; cbn in *; congruence.
    + rewrite lookup_insert_ne by exact E. apply IH.
      * intros a0 v0 v0' H1 H2. apply (Hag a0); apply elem_of_app; now left.
      * apply elem_of_app in Hin as [Hin|Hin]; [exact Hin|].
        apply list_elem_of_singleton in Hin. subst w. now cbn in E.
Qed.


(** ** A launch as the sum of its threads' stores *)

Lemma run_threads_spec {prims : Primitives} (T : template) (P : kernel_args)
    (sched : list thread) (mem : memory) :
  run_threads T P sched mem
  = if forallb (fun t => bool_decide (is_Some (thread_regs T P t))) sched
    then Some {| O_mem := store_all (sched ≫= O_writes T P) (O_mem mem);
                 Lse_mem := store_all (sched ≫= Lse_writes T P) (Lse_mem mem) |}
    else None.
Proof.
  revert mem. induction sched as [|t sched IH]; intros mem.
  - now destruct mem.
  - cbn [run_threads forallb]. unfold qk_int8_sv_f8_attn_kernel.
    rewrite !bind_cons, !store_all_app.
    destruct (kernel_compute T P t) as [tr [r|e]] eqn:E.
    + assert (Hr : thread_regs T P t = Some r) by (unfold thread_regs; now rewrite E).
      assert (HO : O_writes T P t = O_stores T P t (reg_RO r))
        by (unfold O_writes; now rewrite Hr).
      assert (HL : Lse_writes T P t = Lse_stores T P t (reg_m r) (reg_d r))
        by (unfold Lse_writes; now rewrite Hr).
      rewrite Hr, HO, HL. cbn [bind ret]. rewrite IH. reflexivity.
    + assert (Hr : thread_regs T P t = None) by (unfold thread_regs; now rewrite E).
      rewrite Hr. reflexivity.
Qed.

(** ** Where the output stores of a thread land *)

Lemma elem_of_store2 (T : template) (ptr : Z) (c : list F32.t) (i : Z) (a : Z)
    (v : spec_float) :
  (a, v) ∈ store2 T ptr c i ->
  exists e, 0 <= e <= 1 /\ a = ptr + e /\ v = convert T (at0 c (2 * i + e)).
Proof.
  unfold store2. intros Hin.
  apply elem_of_cons in Hin as [Hin|Hin]; [|apply list_elem_of_singleton in Hin];
    inversion Hin; subst.
  - exists 0. rewrite !Z.add_0_r. repeat split; lia.
  - exists 1. repeat split; lia.
Qed.

Lemma Q_idx_lane_base_spec (g : dim3) (t : thread) :
  in_grid g t = true -> 64 * x g <= U32.modulus ->
  Q_idx_lane_base t = bx t * 64 + warp_idx t * 16 + lane_id t / 4
  /\ Q_idx_lane_base t +u 0 *u 64 = Q_idx_lane_base t
  /\ Q_idx_lane_base t +u 8 = Q_idx_lane_base t + 8.
Proof.
  intros Hg Hx. apply in_grid_spec in Hg as (Hgd & Hbx & Hh & Hb & Htid).
  destruct (lane_ranges t) as (Hw & Hl & Hl4 & Hl3); [lia|].
  unfold U32.modulus in Hx.
  assert (E : Q_idx_lane_base t = bx t * 64 + warp_idx t * 16 + lane_id t / 4).
  { unfold Q_idx_lane_base, CTA_Q. u32_small ltac:(unfold U32.modulus; lia). reflexivity. }
  rewrite E. repeat split; u32_small ltac:(unfold U32.modulus; lia); lia.
Qed.

Lemma O_stores_spec (g : dim3) (T : template) (P : kernel_args) (t : thread)
    (RO : tile F32.t) (a : Z) (v : spec_float) :
  in_grid g t = true -> O_fits g T P -> (a, v) ∈ O_stores T P t RO ->
  exists row col,
    0 <= row < qo_len P /\ 0 <= col < head_dim T
    /\ a = O_index P (batch_id t) (head_id t) row col
    /\ row / 64 = bx t
    /\ threadIdx t = 32 * ((row mod 64) / 16) + 4 * (row mod 8) + (col mod 8) / 2
    /\ v = O_value T RO row col.
Proof.
  intros Hg (Hsb & Hsh & Hss & Hhd & Hqo & Hfit & Hx) Hin.
  destruct (Q_idx_lane_base_spec g t Hg Hx) as (Eq0 & Eq1 & Eq2).
  apply in_grid_spec in Hg as (Hgd & Hbx & Hh & Hb & Htid).
  destruct (lane_ranges t) as (Hw & Hl & Hl4 & Hl3); [lia|].
  unfold O_stores in Hin.
  apply list_elem_of_bind in Hin as (fq & Hin & Hfq).
  unfold zseq, num_tiles_q, CTA_Q in Hfq. apply elem_of_seqZ in Hfq.
  assert (fq = 0) by zlia. subst fq.
  apply list_elem_of_bind in Hin as (fv & Hin & Hfv).
  unfold zseq in Hfv. apply elem_of_seqZ in Hfv.
  rewrite Eq1, Eq2 in Hin. set (row0 := Q_idx_lane_base t) in *.
  set (c := default [] (default [] (RO !! Z.to_nat 0) !! Z.to_nat fv)) in *.
  unfold U32.modulus in *. unfold NUM_THREADS in Htid.
  assert (Hb1 : 0 <= batch_id t * stride_bz_o P <= (z g - 1) * stride_bz_o P)
    by (split; [apply Z.mul_nonneg_nonneg | apply Z.mul_le_mono_nonneg_r]; lia).
  assert (Hh1 : 0 <= head_id t * stride_h_o P <= (y g - 1) * stride_h_o P)
    by (split; [apply Z.mul_nonneg_nonneg | apply Z.mul_le_mono_nonneg_r]; lia).
  assert (E0 : 0 *u 64 *u stride_seq_o P = 0) by reflexivity.
  assert (Hrow : forall dr, 0 <= dr <= 1 -> row0 + 8 * dr < qo_len P ->
            O_lane_ptr P t = batch_id t * stride_bz_o P + head_id t * stride_h_o P
                             + row0 * stride_seq_o P + lane_id t mod 4 * 2
            /\ fv *u 16 = fv * 16
            /\ (dr = 1 -> 8 *u stride_seq_o P = 8 * stride_seq_o P)).
  { intros dr Hdr Hlt.
    assert (0 <= (row0 + 8 * dr) * stride_seq_o P <= (qo_len P - 1) * stride_seq_o P)
      by (split; [apply Z.mul_nonneg_nonneg | apply Z.mul_le_mono_nonneg_r]; lia).
    assert (0 <= row0 * stride_seq_o P <= (row0 + 8 * dr) * stride_seq_o P)
      by (split; [apply Z.mul_nonneg_nonneg | apply Z.mul_le_mono_nonneg_r]; lia).
    assert (16 * (fv + 1) <= head_dim T) by zlia.
    split; [|split].
    - unfold O_lane_ptr.
      change (bx t *u CTA_Q +u warp_idx t *u 16 +u lane_id t / 4) with row0.
      u32_small ltac:(unfold U32.modulus; lia). reflexivity.
    - u32_small ltac:(unfold U32.modulus; lia). reflexivity.
    - intros ->. u32_small ltac:(unfold U32.modulus; lia). reflexivity. }
  rewrite E0 in Hin.
  assert (Hcol : forall dc e, 0 <= dc <= 1 -> 0 <= e <= 1 ->
            0 <= lane_id t mod 4 * 2 + fv * 16 + 8 * dc + e < head_dim T).
  { intros dc e Hdc He. zlia. }
  apply elem_of_app in Hin as [Hin|Hin];
    [destruct (Z.ltb_spec row0 (qo_len P)) as [Hlt|Hge]; [|inversion Hin];
     destruct (Hrow 0) as (Eptr & E16 & _); [lia|lia|]; rewrite E16 in Hin
    |destruct (Z.ltb_spec (row0 + 8) (qo_len P)) as [Hlt|Hge]; [|inversion Hin];
     destruct (Hrow 1) as (Eptr & E16 & E8); [lia|lia|]; specialize (E8 eq_refl);
     rewrite E16 in Hin];
    (apply elem_of_app in Hin as [Hin|Hin];
     apply elem_of_store2 in Hin as (e & He & -> & ->)).
  - exists row0, (lane_id t mod 4 * 2 + fv * 16 + 8 * 0 + e).
    split; [lia|]. split; [apply Hcol; lia|]. split; [unfold O_index; lia|].
    split; [zlia|]. split; [unfold warp_idx, lane_id in *; zlia|].
    unfold O_value. fold c. f_equal. f_equal; [|unfold warp_idx, lane_id in *; zlia].
    subst c. do 2 f_equal. zlia.
  - exists row0, (lane_id t mod 4 * 2 + fv * 16 + 8 * 1 + e).
    split; [lia|]. split; [apply Hcol; lia|]. split; [unfold O_index; lia|].
    split; [zlia|]. split; [unfold warp_idx, lane_id in *; zlia|].
    unfold O_value. f_equal. f_equal; [|unfold warp_idx, lane_id in *; zlia].
    subst c. do 2 f_equal. zlia.
  - exists (row0 + 8), (lane_id t mod 4 * 2 + fv * 16 + 8 * 0 + e).
    split; [lia|]. split; [apply Hcol; lia|]. split; [unfold O_index; lia|].
    split; [zlia|]. split; [unfold warp_idx, lane_id in *; zlia|].
    unfold O_value. f_equal. f_equal; [|unfold warp_idx, lane_id in *; zlia].
    subst c. do 2 f_equal. zlia.
  - exists (row0 + 8), (lane_id t mod 4 * 2 + fv * 16 + 8 * 1 + e).
    split; [lia|]. split; [apply Hcol; lia|]. split; [unfold O_index; lia|].
    split; [zlia|]. split; [unfold warp_idx, lane_id in *; zlia|].
    unfold O_value. f_equal. f_equal; [|unfold warp_idx, lane_id in *; zlia].
    subst c. do 2 f_equal. zlia.
Qed.

(** ** Which thread owns which element *)

Lemma thread_ext (g : dim3) (t t' : thread) :
  in_grid g t = true -> in_grid g t' = true ->
  bx t = bx t' -> head_id t = head_id t' -> batch_id t = batch_id t' ->
  threadIdx t = threadIdx t' -> t = t'.
Proof.
  intros Hg Hg' E1 E2 E3 E4.
  apply in_grid_spec in Hg as (Hgd & _). apply in_grid_spec in Hg' as (Hgd' & _).
  destruct t as [gd [bx1 by1 bz1] tid], t' as [gd' [bx2 by2 bz2] tid'].
  unfold bx, head_id, batch_id in *. cbn in *. congruence.
Qed.

Lemma thread_regs_valid {prims : Primitives} (g : dim3) (T : template)
    (P : kernel_args) (nkv : Z) (t : thread) :
  valid_launch g T P nkv -> in_grid g t = true -> is_Some (thread_regs T P t).
Proof.
  intros V Hg.
  destruct (kernel_compute_Done g T P nkv t V Hg) as (tr & r & vr & E & _).
  unfold thread_regs. rewrite E. now exists r.
Qed.

Lemma run_threads_valid {prims : Primitives} (g : dim3) (T : template)
    (P : kernel_args) (nkv : Z) (sched : list thread) (mem : memory) :
  valid_launch g T P nkv -> (forall t, t ∈ sched -> in_grid g t = true) ->
  run_threads T P sched mem
  = Some {| O_mem := store_all (sched ≫= O_writes T P) (O_mem mem);
            Lse_mem := store_all (sched ≫= Lse_writes T P) (Lse_mem mem) |}.
Proof.
  intros V Hall. rewrite run_threads_spec.
  replace (forallb _ sched) with true; [reflexivity|].
  symmetry. apply forallb_forall. intros t Ht. apply bool_decide_eq_true.
  apply (thread_regs_valid g T P nkv); [exact V|].
  apply Hall, list_elem_of_In, Ht.
Qed.

Lemma radix_inj (h h' i i' N : Z) :
  0 <= i < N -> 0 <= i' < N -> h * N + i = h' * N + i' -> h = h' /\ i = i'.
Proof.
  intros Hi Hi' E.
  destruct (Z.lt_trichotomy h h') as [L|[L|L]].
  - assert ((h + 1) * N <= h' * N) by (apply Z.mul_le_mono_nonneg_r; lia). lia.
  - subst h'. lia.
  - assert ((h' + 1) * N <= h * N) by (apply Z.mul_le_mono_nonneg_r; lia). lia.
Qed.

Lemma Lse_index_inj (g : dim3) (P : kernel_args) (b h i b' h' i' : Z) :
  0 <= h < y g -> 0 <= i < qo_len P -> 0 <= h' < y g -> 0 <= i' < qo_len P ->
  Lse_index g P b h i = Lse_index g P b' h' i' -> b = b' /\ h = h' /\ i = i'.
Proof.
  unfold Lse_index. intros Hh Hi Hh' Hi' E.
  pose proof (radix2 h i (y g) (qo_len P) Hh Hi) as R.
  pose proof (radix2 h' i' (y g) (qo_len P) Hh' Hi') as R'.
  destruct (radix_inj b b' (h * qo_len P + i) (h' * qo_len P + i') (qo_len P * y g))
    as [Eb E2]; [lia|lia|lia|].
  destruct (radix_inj h h' i i' (qo_len P) Hi Hi' E2) as [Eh Ei].
  auto.
Qed.

Lemma Lse_stores_spec {prims : Primitives} (g : dim3) (T : template)
    (P : kernel_args) (t : thread) (m d : list (list F32.t)) (a : Z) (v : F32.t) :
  in_grid g t = true -> Lse_fits g P -> (a, v) ∈ Lse_stores T P t m d ->
  return_lse T = true
  /\ 0 <= lse_idx t < qo_len P
  /\ a = Lse_index g P (batch_id t) (head_id t) (lse_idx t)
  /\ t = row_owner g (batch_id t) (head_id t) (lse_idx t)
  /\ v = F32.add (ptx_log2 (at0 (default [] (d !! 0%nat)) (row_pair (lse_idx t))))
                 (at0 (default [] (m !! 0%nat)) (row_pair (lse_idx t))).
Proof.
  intros Hg (Hqo & Hfit & Hx) Hin.
  pose proof Hg as Hg0.
  apply in_grid_spec in Hg as (Hgd & Hbx & Hh & Hb & Htid).
  destruct (lane_ranges t) as (Hw & Hl & Hl4 & Hl3); [lia|].
  unfold U32.modulus in *. unfold NUM_THREADS in Htid.
  unfold Lse_stores in Hin. destruct (return_lse T); [|inversion Hin].
  split; [reflexivity|].
  apply list_elem_of_bind in Hin as (fq & Hin & _).
  destruct (Z.ltb_spec (lane_id t mod 4) 2) as [Hl2|Hl2];
    [|rewrite andb_false_r in Hin; inversion Hin].
  assert (Ei : lse_idx t
               = bx t * 64 + lane_id t / 4 + 8 * (lane_id t mod 4) + 16 * warp_idx t).
  { unfold lse_idx, CTA_Q. u32_small ltac:(unfold U32.modulus; lia). reflexivity. }
  destruct (Z.ltb_spec (lse_idx t) (qo_len P)) as [Hlt|Hge]; [|inversion Hin].
  cbn [andb] in Hin. apply list_elem_of_singleton in Hin. inversion Hin; subst a v.
  split; [lia|].
  assert (Hy : num_qo_heads t = y g) by (unfold num_qo_heads; now rewrite Hgd).
  assert (Hhq : 0 <= head_id t * qo_len P + lse_idx t < y g * qo_len P)
    by (apply radix2; lia).
  assert (Hyq : 0 <= y g * qo_len P) by (apply Z.mul_nonneg_nonneg; lia).
  assert (Hbq : 0 <= batch_id t * (y g * qo_len P) + (head_id t * qo_len P + lse_idx t)
                < z g * (y g * qo_len P)) by (apply radix2; lia).
  assert (Hb0 : 0 <= batch_id t * (y g * qo_len P))
    by (apply Z.mul_nonneg_nonneg; lia).
  assert (Hh0 : 0 <= head_id t * qo_len P) by (apply Z.mul_nonneg_nonneg; lia).
  assert (Hz1 : 1 * (y g * qo_len P) <= z g * (y g * qo_len P))
    by (apply Z.mul_le_mono_nonneg_r; lia).
  assert (Hb2 : (batch_id t + 1) * (y g * qo_len P) <= z g * (y g * qo_len P))
    by (apply Z.mul_le_mono_nonneg_r; lia).
  split; [|split].
  - unfold lse_lane_ptr, Lse_index. rewrite Hy.
    replace (qo_len P * y g) with (y g * qo_len P) by lia.
    rewrite (u32_mul_small (qo_len P) (y g)) by (unfold U32.modulus; lia).
    replace (qo_len P * y g) with (y g * qo_len P) by lia.
    rewrite (u32_mul_small (batch_id t) _) by (unfold U32.modulus; lia).
    rewrite (u32_mul_small (head_id t) _) by (unfold U32.modulus; lia).
    reflexivity.
  - apply (thread_ext g); [exact Hg0| | | | |].
    + unfold in_grid, row_owner, bx, head_id, batch_id, NUM_THREADS in *. cbn.
      rewrite bool_decide_eq_true_2 by reflexivity.
      repeat (apply andb_true_intro; split);
        first [reflexivity | apply Z.leb_le | apply Z.ltb_lt];
        rewrite ?Ei; unfold warp_idx, lane_id in *; zlia.
    + unfold row_owner, bx. cbn. rewrite Ei. unfold bx, warp_idx, lane_id in *. zlia.
    + reflexivity.
    + reflexivity.
    + unfold row_owner. cbn. rewrite Ei. unfold warp_idx, lane_id in *. zlia.
  - unfold lse_value, row_pair. rewrite Ei.
    assert (E1 : lane_id t mod 4 / 2 = 0) by zlia.
    assert (E2 : (lane_id t mod 4) mod 2
                 = (bx t * 64 + lane_id t / 4 + 8 * (lane_id t mod 4)
                    + 16 * warp_idx t) mod 16 / 8) by zlia.
    rewrite E1, E2. reflexivity.
Qed.

Lemma O_writes_owner {prims : Primitives} (g : dim3) (T : template)
    (P : kernel_args) (t t' : thread) (a : Z) (v v' : spec_float) :
  in_grid g t = true -> in_grid g t' = true -> O_fits g T P -> O_distinct g T P ->
  (a, v) ∈ O_writes T P t -> (a, v') ∈ O_writes T P t' -> t = t' /\ v = v'.
Proof.
  intros Hg Hg' Hfit Hd Hin Hin'. unfold O_writes in *.
  destruct (thread_regs T P t) as [r|] eqn:E; [|inversion Hin].
  destruct (thread_regs T P t') as [r'|] eqn:E'; [|inversion Hin'].
  destruct (O_stores_spec g T P t _ a v Hg Hfit Hin)
    as (row & col & Hr & Hc & Ea & Ebx & Etid & Ev).
  destruct (O_stores_spec g T P t' _ a v' Hg' Hfit Hin')
    as (row' & col' & Hr' & Hc' & Ea' & Ebx' & Etid' & Ev').
  destruct (in_grid_spec g t Hg) as (_ & _ & Hh & Hb & _).
  destruct (in_grid_spec g t' Hg') as (_ & _ & Hh' & Hb' & _).
  destruct (Hd _ _ _ _ _ _ _ _ Hb Hh Hr Hc Hb' Hh' Hr' Hc') as (Eb & Eh & Er & Ec);
    [congruence|].
  assert (t = t') by (apply (thread_ext g); congruence).
  subst t' row' col'. rewrite E in E'. injection E' as <-.
  split; [reflexivity | congruence].
Qed.

Lemma Lse_writes_owner {prims : Primitives} (g : dim3) (T : template)
    (P : kernel_args) (t t' : thread) (a : Z) (v v' : F32.t) :
  in_grid g t = true -> in_grid g t' = true -> Lse_fits g P ->
  (a, v) ∈ Lse_writes T P t -> (a, v') ∈ Lse_writes T P t' -> t = t' /\ v = v'.
Proof.
  intros Hg Hg' Hfit Hin Hin'. unfold Lse_writes in *.
  destruct (thread_regs T P t) as [r|] eqn:E; [|inversion Hin].
  destruct (thread_regs T P t') as [r'|] eqn:E'; [|inversion Hin'].
  destruct (Lse_stores_spec g T P t _ _ a v Hg Hfit Hin) as (_ & Hi & Ea & Et & Ev).
  destruct (Lse_stores_spec g T P t' _ _ a v' Hg' Hfit Hin') as (_ & Hi' & Ea' & Et' & Ev').
  destruct (in_grid_spec g t Hg) as (_ & _ & Hh & Hb & _).
  destruct (in_grid_spec g t' Hg') as (_ & _ & Hh' & Hb' & _).
  destruct (Lse_index_inj g P (batch_id t) _ _ (batch_id t') _ _ Hh Hi Hh' Hi')
    as (Eb & Eh & Ei); [congruence|].
  assert (t = t') by (rewrite Et, Et'; congruence).
  subst t'. rewrite E in E'. injection E' as <-.
  split; [reflexivity | congruence].
Qed.

Lemma O_writes_agreeing {prims : Primitives} (g : dim3) (T : template)
    (P : kernel_args) (sched : list thread) :
  (forall t, t ∈ sched -> in_grid g t = true) -> O_fits g T P -> O_distinct g T P ->
  agreeing (sched ≫= O_writes T P).
Proof.
  intros Hall Hfit Hd a v v' H1 H2.
  apply list_elem_of_bind in H1 as (t & H1 & Ht).
  apply list_elem_of_bind in H2 as (t' & H2 & Ht').
  apply (O_writes_owner g T P t t' a v v'); auto.
Qed.

Lemma Lse_writes_agreeing {prims : Primitives} (g : dim3) (T : template)
    (P : kernel_args) (sched : list thread) :
  (forall t, t ∈ sched -> in_grid g t = true) -> Lse_fits g P ->
  agreeing (sched ≫= Lse_writes T P).
Proof.
  intros Hall Hfit a v v' H1 H2.
  apply list_elem_of_bind in H1 as (t & H1 & Ht).
  apply list_elem_of_bind in H2 as (t' & H2 & Ht').
  apply (Lse_writes_owner g T P t t' a v v'); auto.
Qed.


Lemma elem_of_grid_threads (g : dim3) (t : thread) :
  t ∈ grid_threads g <-> in_grid g t = true.
Proof.
  unfold grid_threads, grid_blocks, block_threads, zseq. split.
  - intros Hin.
    apply list_elem_of_bind in Hin as (b & Hin & Hb).
    apply list_elem_of_fmap in Hin as (tid & -> & Htid).
    apply list_elem_of_bind in Hb as (bz & Hb & Hbz).
    apply list_elem_of_bind in Hb as (by_ & Hb & Hby).
    apply list_elem_of_bind in Hb as (bx_ & Hb & Hbx).
    apply list_elem_of_singleton in Hb. subst b.
    apply elem_of_seqZ in Htid, Hbz, Hby, Hbx.
    unfold in_grid, bx, head_id, batch_id. cbn.
    rewrite bool_decide_eq_true_2 by reflexivity.
    repeat (apply andb_true_intro; split);
      first [reflexivity | apply Z.leb_le; lia | apply Z.ltb_lt; lia].
  - intros Hg. apply in_grid_spec in Hg as (Hgd & Hbx & Hh & Hb & Htid).
    destruct t as [gd [bx_ by_ bz] tid]. unfold bx, head_id, batch_id in *.
    cbn in *. subst gd.
    apply list_elem_of_bind. exists {| x := bx_; y := by_; z := bz |}. split.
    + apply list_elem_of_fmap. exists tid. split; [reflexivity|].
      apply elem_of_seqZ. lia.
    + apply list_elem_of_bind. exists bz. split; [|apply elem_of_seqZ; lia].
      apply list_elem_of_bind. exists by_. split; [|apply elem_of_seqZ; lia].
      apply list_elem_of_bind. exists bx_. split; [|apply elem_of_seqZ; lia].
      apply list_elem_of_singleton. reflexivity.
Qed.

Lemma row_owner_in_grid (g : dim3) (P : kernel_args) (b h i : Z) :
  0 <= b < z g -> 0 <= h < y g -> 0 <= i < qo_len P ->
  x g = div_ceil (qo_len P) CTA_Q ->
  in_grid g (row_owner g b h i) = true.
Proof.
  intros Hb Hh Hi Hx.
  unfold in_grid, row_owner, bx, head_id, batch_id, NUM_THREADS. cbn.
  rewrite bool_decide_eq_true_2 by reflexivity.
  unfold div_ceil, CTA_Q in Hx.
  repeat (apply andb_true_intro; split);
    first [reflexivity | apply Z.leb_le | apply Z.ltb_lt]; zlia.
Qed.

Lemma Lse_stores_owner {prims : Primitives} (g : dim3) (T : template)
    (P : kernel_args) (b h i : Z) (m d : list (list F32.t)) :
  return_lse T = true -> Lse_fits g P -> in_grid g (row_owner g b h i) = true ->
  0 <= i < qo_len P ->
  (Lse_index g P b h i,
   F32.add (ptx_log2 (at0 (default [] (d !! 0%nat)) (row_pair i)))
           (at0 (default [] (m !! 0%nat)) (row_pair i)))
  ∈ Lse_stores T P (row_owner g b h i) m d.
Proof.
  intros Hlse Hfit Hg Hi. set (t := row_owner g b h i) in *.
  pose proof Hfit as (Hqo & _ & Hx).
  destruct (in_grid_spec g t Hg) as (_ & Hbx & _ & _ & _).
  assert (Ei : lse_idx t = i).
  { unfold lse_idx, CTA_Q, U32.modulus in *.
    assert (Hl : lane_id t = 4 * (i mod 8) + (i mod 16) / 8)
      by (unfold lane_id, t, row_owner; cbn; zlia).
    assert (Hw : warp_idx t = (i mod 64) / 16)
      by (unfold warp_idx, t, row_owner; cbn; zlia).
    assert (Hb : bx t = i / 64) by reflexivity.
    rewrite Hl, Hw, Hb in *.
    u32_small ltac:(unfold U32.modulus; zlia). zlia. }
  assert (Hl2 : lane_id t mod 4 < 2)
    by (unfold lane_id, t, row_owner; cbn; zlia).
  assert (Hin : (lse_lane_ptr P t, lse_value t m d) ∈ Lse_stores T P t m d).
  { unfold Lse_stores. rewrite Hlse.
    apply list_elem_of_bind. exists 0. split; [|now apply elem_of_seqZ].
    rewrite Ei.
    destruct (Z.ltb_spec i (qo_len P)); [|lia].
    destruct (Z.ltb_spec (lane_id t mod 4) 2); [|lia].
    apply list_elem_of_singleton. reflexivity. }
  destruct (Lse_stores_spec g T P t m d _ _ Hg Hfit Hin) as (_ & _ & Ea & _ & Ev).
  rewrite Ei in Ea, Ev. change (batch_id t) with b in Ea.
  change (head_id t) with h in Ea. rewrite <- Ea, <- Ev. exact Hin.
Qed.

(** ** What a completed call has done *)

Lemma bind_Done_inv {E F A B} (c : W E F A) (k : A -> W E F B) (b : B) :
  (bind c k).2 = Done b ->
  exists a, c.2 = Done a /\ (k a).2 = Done b /\ (bind c k).1 = c.1 ++ (k a).1.
Proof.
  destruct c as [tr [a|e]]; cbn; [|discriminate].
  destruct (k a) as [tr' r] eqn:Eka. cbn. intros ->. exists a. now rewrite Eka.
Qed.

Lemma allocate_lse_spec (c : call) :
  let g := geometry_of c in
  allocate_lse c
  = if negb (return_lse_flag c =? 0)
    then ([DevEmpty [g_batch_size g; g_num_qo_heads g; g_qo_len g] Float32],
          Done {| lse_sizes := [g_batch_size g; g_num_qo_heads g; g_qo_len g];
                  lse_type := Float32 |})
    else ([], Done {| lse_sizes := [0]; lse_type := Float32 |}).
Proof. unfold allocate_lse. now destruct (negb _). Qed.

Lemma dispatch_Done (granularity_of : Z -> option QuantGranularity) (fuse : bool)
    (c : call) (T : template) :
  (dispatch granularity_of fuse c).2 = Done T ->
  return_lse T = negb (return_lse_flag c =? 0).
Proof.
  unfold dispatch. intros H.
  repeat match type of H with
  | (bind ?c0 _).2 = _ =>
      apply bind_Done_inv in H as (? & _ & H & _); cbv beta in H
  end.
  cbn in H. injection H as <-. reflexivity.
Qed.

Lemma attn_inst_buf_Done (NDEBUG fuse : bool)
    (granularity_of : Z -> option QuantGranularity)
    (encode_ok : Z -> Z -> Z -> Z -> Z -> Z -> Z -> bool) (c : call) (lse : lse_tensor) :
  let g := geometry_of c in
  (attn_inst_buf NDEBUG granularity_of encode_ok fuse c).2 = Done lse ->
  exists T nkg pre,
    (attn_inst_buf NDEBUG granularity_of encode_ok fuse c).1
    = pre ++ [DevLaunch T (launch_args fuse c nkg) (launch_grid c)]
    /\ return_lse T = negb (return_lse_flag c =? 0)
    /\ lse = (if return_lse T
              then {| lse_sizes := [g_batch_size g; g_num_qo_heads g; g_qo_len g];
                      lse_type := Float32 |}
              else {| lse_sizes := [0]; lse_type := Float32 |})
    /\ (return_lse T = true ->
        DevEmpty [g_batch_size g; g_num_qo_heads g; g_qo_len g] Float32 ∈ pre).
Proof.
  intros g H. unfold attn_inst_buf in *. fold g in H |- *.
  apply bind_Done_inv in H as ([] & _ & H & L1); cbv beta in H, L1.
  apply bind_Done_inv in H as ([] & _ & H & L2); cbv beta in H, L2.
  apply bind_Done_inv in H as ([] & _ & H & L3); cbv beta in H, L3.
  apply bind_Done_inv in H as (lse0 & Ha & H & L4); cbv beta in H, L4.
  apply bind_Done_inv in H as (nkg & _ & H & L5); cbv beta in H, L5.
  apply bind_Done_inv in H as (T & HT & H & L6); cbv beta in H, L6.
  apply bind_Done_inv in H as ([] & _ & H & L7); cbv beta in H, L7.
  apply bind_Done_inv in H as ([] & _ & H & L8); cbv beta in H, L8.
  apply bind_Done_inv in H as ([] & _ & H & L9); cbv beta in H, L9.
  apply bind_Done_inv in H as ([] & _ & H & L10); cbv beta in H, L10.
  apply bind_Done_inv in H as ([] & _ & H & L11); cbv beta in H, L11.
  apply bind_Done_inv in H as ([] & _ & H & L12); cbv beta in H, L12.
  apply bind_Done_inv in H as ([] & _ & H & L13); cbv beta in H, L13.
  apply bind_Done_inv in H as ([] & _ & H & L14); cbv beta in H, L14.
  cbn in H. injection H as ->.
  apply dispatch_Done in HT.
  rewrite L1, L2, L3, L4, L5, L6, L7, L8, L9, L10, L11, L12, L13, L14.
  cbn [emit ret fst].
  pose proof (allocate_lse_spec c) as Hal. cbv zeta in Hal. fold g in Hal.
  rewrite Hal in Ha |- *. rewrite <- HT in Ha |- *.
  exists T, nkg. eexists. split; [|split; [reflexivity|split]].
  - rewrite app_nil_r.
    change [?a; ?b] with ([a] ++ [b]).
    rewrite !app_assoc. reflexivity.
  - destruct (return_lse T); cbn in Ha; now injection Ha as <-.
  - intros E. rewrite E. cbn [fst]. rewrite !elem_of_app.
    do 10 left. right. apply list_elem_of_singleton. reflexivity.
Qed.

(** ** Launches *)

Lemma in_grid_perm (g : dim3) (sched : list thread) :
  sched ≡ₚ grid_threads g -> forall t, t ∈ sched -> in_grid g t = true.
Proof. intros Hp t Ht. apply elem_of_grid_threads. now rewrite <- Hp. Qed.

Lemma Lse_filled {prims : Primitives} (g : dim3) (T : template) (P : kernel_args)
    (nkv : Z) (sched : list thread) (mem : memory) :
  valid_launch g T P nkv -> Lse_fits g P -> sched ≡ₚ grid_threads g ->
  exists mem',
    run_threads T P sched mem = Some mem'
    /\ if return_lse T
       then forall b h i, 0 <= b < z g -> 0 <= h < y g -> 0 <= i < qo_len P ->
              exists r, thread_regs T P (row_owner g b h i) = Some r
                        /\ Lse_mem mem' !! Lse_index g P b h i
                           = Some (lse_entry (reg_m r) (reg_d r) i)
       else Lse_mem mem' = Lse_mem mem.
Proof.
  intros V Hfit Hp. pose proof (in_grid_perm g sched Hp) as Hall.
  eexists. split; [apply (run_threads_valid g T P nkv); assumption|].
  cbn [Lse_mem]. destruct (return_lse T) eqn:Hlse.
  - intros b h i Hb Hh Hi.
    assert (Hg : in_grid g (row_owner g b h i) = true)
      by (apply (row_owner_in_grid g P); auto; apply (vl_grid_x _ _ _ _ V)).
    destruct (thread_regs_valid g T P nkv _ V Hg) as [r Hr].
    exists r. split; [exact Hr|].
    apply store_all_in; [apply (Lse_writes_agreeing g); assumption|].
    apply list_elem_of_bind. exists (row_owner g b h i). split.
    + unfold Lse_writes. rewrite Hr. apply (Lse_stores_owner g); assumption.
    + rewrite Hp. apply elem_of_grid_threads, Hg.
  - apply map_eq. intros a. apply store_all_notin. intros w Hw.
    apply list_elem_of_bind in Hw as (t & Hw & _).
    unfold Lse_writes, Lse_stores in Hw. rewrite Hlse in Hw.
    destruct (thread_regs T P t); inversion Hw.
Qed.

(** C5.  In a launch that passes the entry points' checks, whatever the order
    in which the threads retire, every store to the output lands on an
    element of a row below [qo_len] (and a column below [head_dim]) of the
    storing block's batch and head, for any [qo_len] and so for those that
    are not multiples of 64.  Hence an address that is not the address of
    such an element keeps the value the caller left there; in an output
    buffer with [rows] rows whose elements have addresses of their own, that
    is every element of a row from [qo_len] on. *)
Theorem rows_beyond_qo_len_untouched {prims : Primitives} (g : dim3) (T : template)
    (P : kernel_args) (nkv : Z) (sched : list thread) (mem : memory) :
  valid_launch g T P nkv -> O_fits g T P ->
  (forall t, t ∈ sched -> in_grid g t = true) ->
  exists mem',
    run_threads T P sched mem = Some mem'
    /\ (forall t a v, t ∈ sched -> (a, v) ∈ O_writes T P t ->
          exists row col,
            0 <= row < qo_len P /\ 0 <= col < head_dim T
            /\ a = O_index P (batch_id t) (head_id t) row col)
    /\ (forall a,
          (forall b h row col,
              0 <= b < z g -> 0 <= h < y g -> 0 <= row < qo_len P ->
              0 <= col < head_dim T -> a <> O_index P b h row col) ->
          O_mem mem' !! a = O_mem mem !! a)
    /\ (forall rows b h row col,
          O_distinct_rows g T P rows ->
          0 <= b < z g -> 0 <= h < y g -> qo_len P <= row < rows ->
          0 <= col < head_dim T ->
          O_mem mem' !! O_index P b h row col = O_mem mem !! O_index P b h row col).
Proof.
  intros V Hfit Hall.
  assert (Hst : forall t a v, t ∈ sched -> (a, v) ∈ O_writes T P t ->
            exists row col,
              0 <= row < qo_len P /\ 0 <= col < head_dim T
              /\ a = O_index P (batch_id t) (head_id t) row col).
  { intros t a v Ht Hin. unfold O_writes in Hin.
    destruct (thread_regs T P t) as [r|]; [|inversion Hin].
    destruct (O_stores_spec g T P t _ a v (Hall t Ht) Hfit Hin)
      as (row & col & Hr & Hc & Ea & _).
    now exists row, col. }
  assert (Hfr : forall a,
            (forall b h row col,
                0 <= b < z g -> 0 <= h < y g -> 0 <= row < qo_len P ->
                0 <= col < head_dim T -> a <> O_index P b h row col) ->
            store_all (sched ≫= O_writes T P) (O_mem mem) !! a = O_mem mem !! a).
  { intros a Hno. apply store_all_notin. intros [a' v] Hw. cbn.
    apply list_elem_of_bind in Hw as (t & Hw & Ht).
    destruct (Hst t a' v Ht Hw) as (row & col & Hr & Hc & ->).
    destruct (in_grid_spec g t (Hall t Ht)) as (_ & _ & Hh & Hb & _).
    intros E. exact (Hno _ _ _ _ Hb Hh Hr Hc (eq_sym E)). }
  eexists. split; [apply (run_threads_valid g T P nkv); assumption|].
  cbn [O_mem]. split; [exact Hst|]. split; [exact Hfr|].
  intros rows b h row col Hd Hb Hh Hr Hc. apply Hfr.
  intros b' h' row' col' Hb' Hh' Hr' Hc' E.
  destruct (Hd b h row col b' h' row' col') as (_ & _ & Er & _);
    try assumption; lia.
Qed.

Lemma sample_O_fits (mode : MaskMode) (lse : bool) (qo kv : Z) :
  0 <= qo <= 64 ->
  O_fits sample_grid (sample_template mode lse) (sample_args qo kv).
Proof. intros Hqo. unfold O_fits, U32.modulus. cbn. lia. Qed.

Lemma sample_O_distinct (mode : MaskMode) (lse : bool) (qo kv rows : Z) :
  O_distinct_rows sample_grid (sample_template mode lse) (sample_args qo kv) rows.
Proof.
  intros b h row col b' h' row' col'. unfold O_index. cbn. lia.
Qed.


Lemma rows_beyond_qo_len_untouched_witness :
  let T := sample_template kNone false in
  let P := sample_args 3 300 in
  let mem := {| O_mem := ∅; Lse_mem := ∅ |} in
  exists mem',
    run_threads (prims := sample_primitives) T P (grid_threads sample_grid) mem
    = Some mem'
    /\ O_mem mem' !! O_index P 0 0 3 0 = None.
Proof.
  intros T P mem.
  destruct (rows_beyond_qo_len_untouched (prims := sample_primitives) sample_grid
              T P 1 (grid_threads sample_grid) mem)
    as (mem' & Hrun & _ & _ & Hrows).
  - apply sample_valid_launch; lia.
  - apply sample_O_fits; lia.
  - intros t Ht. apply elem_of_grid_threads, Ht.
  - exists mem'. split; [exact Hrun|].
    rewrite (Hrows 64 0 0 3 0); [reflexivity| | | | |]; cbn; try lia.
    apply sample_O_distinct.
Defined.



(** C6.  Either entry point ([fuse] false or true), when it returns, returns
    a float32 tensor of shape [(batch, num_qo_heads, qo_len)] that it
    allocated if [return_lse] is not zero, and the placeholder of shape [(0)]
    if it is zero; the kernel it launched last is instantiated with
    [return_lse] accordingly.  That launch, once the scale arrays and sizes
    are those the checks demand, completes, and if [return_lse] is set the
    entry of every query row [i] of every head and batch holds
    [ptx_log2 d + m] of the registers of the thread holding row [i];
    otherwise the log-sum-exp memory is left as it was. *)
Theorem lse_output {prims : Primitives} (NDEBUG fuse : bool)
    (granularity_of : Z -> option QuantGranularity)
    (encode_ok : Z -> Z -> Z -> Z -> Z -> Z -> Z -> bool) (c : call) (lse : lse_tensor) :
  let geo := geometry_of c in
  let g := launch_grid c in
  (attn_inst_buf NDEBUG granularity_of encode_ok fuse c).2 = Done lse ->
  exists T nkg pre,
    let P := launch_args fuse c nkg in
    (attn_inst_buf NDEBUG granularity_of encode_ok fuse c).1 = pre ++ [DevLaunch T P g]
    /\ return_lse T = negb (return_lse_flag c =? 0)
    /\ (if return_lse T
        then lse = {| lse_sizes := [g_batch_size geo; g_num_qo_heads geo; g_qo_len geo];
                      lse_type := Float32 |}
             /\ DevEmpty [g_batch_size geo; g_num_qo_heads geo; g_qo_len geo] Float32
                ∈ pre
        else lse = {| lse_sizes := [0]; lse_type := Float32 |})
    /\ forall nkv sched mem,
         valid_launch g T P nkv -> Lse_fits g P -> sched ≡ₚ grid_threads g ->
         exists mem',
           run_threads T P sched mem = Some mem'
           /\ if return_lse T
              then forall b h i, 0 <= b < z g -> 0 <= h < y g -> 0 <= i < qo_len P ->
                     exists r, thread_regs T P (row_owner g b h i) = Some r
                               /\ Lse_mem mem' !! Lse_index g P b h i
                                  = Some (lse_entry (reg_m r) (reg_d r) i)
              else Lse_mem mem' = Lse_mem mem.
Proof.
  intros geo g H.
  destruct (attn_inst_buf_Done NDEBUG fuse granularity_of encode_ok c lse H)
    as (T & nkg & pre & Hlog & HT & Hlse & Hem).
  exists T, nkg, pre. cbv zeta. split; [exact Hlog|]. split; [exact HT|]. split.
  - fold geo in Hlse, Hem. destruct (return_lse T); [|exact Hlse].
    split; [exact Hlse | now apply Hem].
  - intros nkv sched mem V Hfit Hp. now apply (Lse_filled g T _ nkv).
Qed.

Lemma sample_call_launch :
  let c := sample_call 4 2 1 in
  exists pre,
    (attn_inst_buf false sample_granularity_of sample_encode_ok false c).1
    = pre ++ [DevLaunch (sample_template kNone true) (launch_args false c 2)
                (launch_grid c)].
Proof.
  intros c. exists (removelast (attn_inst_buf false sample_granularity_of sample_encode_ok false c).1).
  vm_compute. reflexivity.
Qed.

Lemma sample_call_valid_launch :
  let c := sample_call 4 2 1 in
  valid_launch (launch_grid c) (sample_template kNone true) (launch_args false c 2) 2
  /\ Lse_fits (launch_grid c) (launch_args false c 2).
Proof.
  intros c. split.
  - split; vm_compute; try reflexivity; try (split; discriminate);
      try discriminate; try (left; reflexivity).
  - repeat split; vm_compute; try reflexivity; discriminate.
Qed.

Lemma sample_call_row :
  let c := sample_call 4 2 1 in
  0 <= 0 < z (launch_grid c) /\ 0 <= 3 < y (launch_grid c)
  /\ 0 <= 63 < qo_len (launch_args false c 2).
Proof. intros c. repeat split; vm_compute; (discriminate || reflexivity). Qed.

Lemma lse_output_witness :
  let c := sample_call 4 2 1 in
  let P := launch_args false c 2 in
  let mem := {| O_mem := ∅; Lse_mem := ∅ |} in
  (attn_inst_buf false sample_granularity_of sample_encode_ok false c).2
  = Done {| lse_sizes := [1; 4; 64]; lse_type := Float32 |}
  /\ exists mem' r,
       run_threads (prims := sample_primitives) (sample_template kNone true) P
         (grid_threads (launch_grid c)) mem = Some mem'
       /\ thread_regs (prims := sample_primitives) (sample_template kNone true) P
            (row_owner (launch_grid c) 0 3 63) = Some r
       /\ Lse_mem mem' !! Lse_index (launch_grid c) P 0 3 63
          = Some (lse_entry (prims := sample_primitives) (reg_m r) (reg_d r) 63).
Proof.
  intros c P mem.
  assert (Hdone : (attn_inst_buf false sample_granularity_of sample_encode_ok false c).2
                  = Done {| lse_sizes := [1; 4; 64]; lse_type := Float32 |})
    by reflexivity.
  split; [exact Hdone|].
  destruct (lse_output (prims := sample_primitives) false false sample_granularity_of
              sample_encode_ok c _ Hdone) as (T & nkg & pre & Hlog & HT & _ & Hk).
  destruct sample_call_launch as (pre0 & Hlog0). fold c in Hlog0.
  rewrite Hlog0 in Hlog. apply app_inj_tail in Hlog as [_ E].
  assert (ET : sample_template kNone true = T)
    by exact (f_equal (fun a => match a with DevLaunch T0 _ _ => T0 | _ => T end) E).
  assert (EP : P = launch_args false c nkg)
    by exact (f_equal (fun a => match a with DevLaunch _ P0 _ => P0 | _ => P end) E).
  subst T. cbv zeta in Hk. rewrite <- EP in Hk.
  destruct sample_call_valid_launch as [V Hfit]. fold c in V, Hfit.
  destruct (Hk 2 (grid_threads (launch_grid c)) mem V Hfit (reflexivity _))
    as (mem' & Hrun & Hfill).
  cbn [return_lse sample_template] in Hfill.
  destruct sample_call_row as (H1 & H2 & H3). fold c in H1, H2. fold c P in H3.
  pose proof (Hfill 0 3 63 H1 H2 H3) as Hex.
  destruct Hex as (r & Hr & Hm).
  exists mem', r.
  split; [exact Hrun|]. split; [exact Hr|]. exact Hm.
Defined.

(** ** Matrix descriptors *)

Lemma lor_disjoint (a c n : Z) :
  0 <= n -> 0 <= a < 2 ^ n -> Z.lor a (c * 2 ^ n) = a + c * 2 ^ n.
Proof.
  intros Hn Ha.
  assert (Hl : Z.land a (c * 2 ^ n) = 0).
  { apply Z.bits_inj'. intros i Hi. rewrite Z.land_spec, Z.bits_0.
    destruct (Z.lt_ge_cases i n) as [Hlt|Hge].
    - rewrite Z.mul_pow2_bits_low by lia. apply andb_false_r.
    - destruct (Z.eq_dec a 0) as [->|Hne]; [now rewrite Z.bits_0|].
      rewrite (Z.bits_above_log2 a i); [reflexivity|lia|].
      apply Z.lt_le_trans with n; [|exact Hge].
      apply Z.log2_lt_pow2; lia. }
  rewrite <- Z.lxor_lor by exact Hl. symmetry. apply Z.add_nocarry_lxor, Hl.
Qed.

Lemma matrix_descriptor_encode_spec (x : Z) :
  0 <= x -> wgmma.matrix_descriptor_encode x = (x mod 2 ^ 18) / 16.
Proof.
  intros Hx. unfold wgmma.matrix_descriptor_encode.
  change 0x3FFFF with (Z.ones 18). rewrite Z.land_ones by lia.
  rewrite Z.shiftr_div_pow2 by lia. reflexivity.
Qed.

(** The address field of a descriptor has 14 bits, gives back every
    16-byte-aligned address below [2 ^ 18], and forgets the bits of an
    address from bit 18 on. *)
Theorem matrix_descriptor_encode_field (x k : Z) :
  0 <= x -> 0 <= k ->
  0 <= wgmma.matrix_descriptor_encode x < 2 ^ 14
  /\ (x < 2 ^ 18 -> x mod 16 = 0 -> 16 * wgmma.matrix_descriptor_encode x = x)
  /\ wgmma.matrix_descriptor_encode (x + k * 2 ^ 18) = wgmma.matrix_descriptor_encode x.
Proof.
  intros Hx Hk. rewrite !matrix_descriptor_encode_spec by nia.
  split; [zlia|]. split; [intros; zlia|].
  now rewrite Z.mod_add by lia.
Qed.

Lemma matrix_descriptor_encode_field_witness :
  0 <= wgmma.matrix_descriptor_encode 0x12340 < 2 ^ 14
  /\ (0x12340 < 2 ^ 18 -> 0x12340 mod 16 = 0 ->
      16 * wgmma.matrix_descriptor_encode 0x12340 = 0x12340)
  /\ wgmma.matrix_descriptor_encode (0x12340 + 5 * 2 ^ 18)
     = wgmma.matrix_descriptor_encode 0x12340.
Proof. apply (matrix_descriptor_encode_field 0x12340 5); lia. Defined.

(** The four fields of a descriptor lie in disjoint bit ranges of a 64-bit
    word: the address field in bits 0..13, the leading-dimension offset 1
    (16 bytes) in bits 16..29, the stride offset [stride / 2] (eight rows of
    [stride] bytes, in units of 16) in bits 32..45 and the layout code in
    bits 62..63, each read back by a shift and a mask; all other bits are
    zero, so no shift loses a bit. *)
Theorem make_smem_desc_fields (stride addr : Z) :
  stride = 32 \/ stride = 64 \/ stride = 128 -> 0 <= addr < 2 ^ 32 ->
  let desc := wgmma.make_smem_desc stride addr in
  desc = wgmma.matrix_descriptor_encode addr + 2 ^ 16 + (stride / 2) * 2 ^ 32
         + wgmma.layout_code stride * 2 ^ 62
  /\ 0 <= desc < 2 ^ 64
  /\ Z.land desc 0x3FFF = wgmma.matrix_descriptor_encode addr
  /\ Z.land (Z.shiftr desc 16) 0x3FFF = 1
  /\ Z.land (Z.shiftr desc 32) 0x3FFF = stride / 2
  /\ Z.shiftr desc 62 = wgmma.layout_code stride.
Proof.
  intros Hs Ha desc.
  assert (Hr : 0 <= wgmma.matrix_descriptor_encode addr < 2 ^ 14)
    by (rewrite matrix_descriptor_encode_spec by lia; zlia).
  assert (E : desc = wgmma.matrix_descriptor_encode addr + 2 ^ 16
                + (stride / 2) * 2 ^ 32 + wgmma.layout_code stride * 2 ^ 62).
  { unfold desc, wgmma.make_smem_desc. set (a := wgmma.matrix_descriptor_encode addr) in *.
    rewrite Z.lor_0_l.
    change (U64.shl (wgmma.matrix_descriptor_encode 16) 16) with (1 * 2 ^ 16).
    rewrite (lor_disjoint a 1 16) by lia.
    destruct Hs as [-> | [-> | ->]];
      [ change (U64.shl (wgmma.matrix_descriptor_encode (8 * 32)) 32) with (16 * 2 ^ 32);
        change (U64.shl (wgmma.layout_code 32) 62) with (3 * 2 ^ 62)
      | change (U64.shl (wgmma.matrix_descriptor_encode (8 * 64)) 32) with (32 * 2 ^ 32);
        change (U64.shl (wgmma.layout_code 64) 62) with (2 * 2 ^ 62)
      | change (U64.shl (wgmma.matrix_descriptor_encode (8 * 128)) 32) with (64 * 2 ^ 32);
        change (U64.shl (wgmma.layout_code 128) 62) with (1 * 2 ^ 62) ];
      rewrite (lor_disjoint _ _ 32) by lia;
      rewrite (lor_disjoint _ _ 62) by lia; reflexivity. }
  split; [exact E|]. rewrite E. clear E desc.
  set (a := wgmma.matrix_descriptor_encode addr) in *.
  change 0x3FFF with (Z.ones 14). rewrite !Z.land_ones, !Z.shiftr_div_pow2 by lia.
  destruct Hs as [-> | [-> | ->]]; cbn -[Z.pow Z.add Z.mul Z.div Z.modulo a];
    repeat split; zlia.
Qed.

Lemma make_smem_desc_fields_witness :
  wgmma.make_smem_desc 64 0x2400 = 0x8000002000010240.
Proof.
  destruct (make_smem_desc_fields 64 0x2400) as (E & _); [lia|lia|].
  rewrite E. reflexivity.
Defined.

(** ** The launch is the last thing a call does *)

Lemma quiet_bind {A B} (c : H A) (k : A -> H B) :
  quiet c -> (forall a, quiet (k a)) -> quiet (bind c k).
Proof.
  unfold quiet. destruct c as [tr [a|e]]; cbn; intros Hc Hk; [|exact Hc].
  specialize (Hk a). destruct (k a) as [tr' r]. cbn in *.
  apply Forall_app. now split.
Qed.

Lemma quiet_nil {A} (c : H A) : c.1 = [] -> quiet c.
Proof. unfold quiet. intros ->. constructor. Qed.

Lemma quiet_CHECK (b : bool) (what : string) : quiet (CHECK b what).
Proof. apply quiet_nil. now destruct b. Qed.

Lemma quiet_assert (NDEBUG b : bool) (what : string) : quiet (assert NDEBUG b what).
Proof. apply quiet_nil. unfold assert. now destruct (NDEBUG || b). Qed.

Lemma quiet_create_tensor_map_4D (NDEBUG : bool)
    (encode_ok : Z -> Z -> Z -> Z -> Z -> Z -> Z -> bool) (d1 d2 d3 d4 s1 s2 s3 : Z) :
  quiet (create_tensor_map_4D NDEBUG encode_ok d1 d2 d3 d4 s1 s2 s3).
Proof.
  unfold create_tensor_map_4D. apply quiet_bind.
  - repeat constructor.
  - intros _. apply quiet_assert.
Qed.

Lemma quiet_dispatch (granularity_of : Z -> option QuantGranularity) (fuse : bool)
    (c : call) : quiet (dispatch granularity_of fuse c).
Proof.
  apply quiet_nil. unfold dispatch.
  destruct (g_head_dim (geometry_of c) =? 64), (g_head_dim (geometry_of c) =? 128),
    (granularity_of (qk_quant_gran c)) as [[]|], (scalar_type (output c)); reflexivity.
Qed.

Lemma launched_last_bind {A B} (fuse : bool) (c : call) (r : H A) (k : A -> H B) :
  quiet r -> (forall a, launched_last fuse c (k a)) -> launched_last fuse c (bind r k).
Proof.
  unfold quiet, launched_last. destruct r as [tr [a|e]]; cbn; intros Hr Hk; [|exact Hr].
  specialize (Hk a). destruct (k a) as [tr' [b|e]]; cbn in *.
  - destruct Hk as (pre & T & nkg & -> & Hpre).
    exists (tr ++ pre), T, nkg. rewrite app_assoc. split; [reflexivity|].
    apply Forall_app. now split.
  - apply Forall_app. now split.
Qed.

Lemma attn_inst_buf_launched_last (NDEBUG fuse : bool)
    (granularity_of : Z -> option QuantGranularity)
    (encode_ok : Z -> Z -> Z -> Z -> Z -> Z -> Z -> bool) (c : call) :
  launched_last fuse c (attn_inst_buf NDEBUG granularity_of encode_ok fuse c).
Proof.
  unfold attn_inst_buf.
  apply launched_last_bind; [apply quiet_nil, writes_nothing_check_tensors|intros _].
  apply launched_last_bind; [apply quiet_nil, writes_nothing_check_shapes|intros _].
  apply launched_last_bind.
  { apply quiet_nil. unfold check_head_ratio.
    destruct (int_rem _ _) as [r|]; [destruct (negb _)|]; reflexivity. }
  intros _. apply launched_last_bind.
  { rewrite allocate_lse_spec. destruct (negb _); repeat constructor. }
  intros lse. apply launched_last_bind.
  { apply quiet_nil. now destruct (int_quot _ _). }
  intros nkg. apply launched_last_bind; [apply quiet_dispatch|intros T].
  apply launched_last_bind; [apply quiet_assert|intros _].
  apply launched_last_bind; [apply quiet_CHECK|intros _].
  apply launched_last_bind; [apply quiet_CHECK|intros _].
  apply launched_last_bind; [destruct fuse; [apply quiet_CHECK|constructor]|intros _].
  apply launched_last_bind; [apply quiet_create_tensor_map_4D|intros _].
  apply launched_last_bind; [apply quiet_create_tensor_map_4D|intros _].
  apply launched_last_bind; [apply quiet_create_tensor_map_4D|intros _].
  unfold launched_last. cbn. exists [], T, nkg. split; [reflexivity|constructor].
Qed.

(** Either entry point starts the kernel only when it returns: a call that
    stops, on whichever check or error, has at most allocated the
    log-sum-exp tensor and encoded tensor maps, and a call that returns has set
    the dynamic shared memory size to that of the three tiles and launched
    once, as its last two device actions. *)
Theorem launch_only_on_return (NDEBUG fuse : bool)
    (granularity_of : Z -> option QuantGranularity)
    (encode_ok : Z -> Z -> Z -> Z -> Z -> Z -> Z -> bool) (c : call) :
  let r := attn_inst_buf NDEBUG granularity_of encode_ok fuse c in
  match r.2 with
  | Stop _ => Forall (fun a => before_launch a = true) r.1
  | Done _ =>
      exists pre T nkg,
        r.1 = pre ++ [DevSetAttribute (CTA_Q * head_dim T + CTA_K * head_dim T
                                        + CTA_K * head_dim T);
                      DevLaunch T (launch_args fuse c nkg) (launch_grid c)]
        /\ Forall (fun a => before_launch a = true) pre
  end.
Proof.
  intros r. exact (attn_inst_buf_launched_last NDEBUG fuse granularity_of encode_ok c).
Qed.

(** ** Why only the last tile is masked *)

(** The loop body hands the scores of its tile to the softmax update
    unmasked.  That loses nothing: in a validated launch every key of a tile
    the loop body handles (tiles [1 .. num_iterations - 1], keys
    [(iter - 1) * 128 .. iter * 128 - 1]) is below [kv_len] and, under causal
    masking, at or before every query row of the block.  The first key of the
    last tile is likewise visible to every query row of the block, so the
    epilogue never masks a whole row. *)
Theorem loop_tiles_need_no_mask (g : dim3) (T : template)
    (P : kernel_args) (nkv : Z) (t : thread) :
  valid_launch g T P nkv -> in_grid g t = true ->
  let n := num_iterations T P t in
  (forall iter k q,
      iter ∈ loop_iters n -> (iter - 1) * CTA_K <= k < iter * CTA_K ->
      bx t * CTA_Q <= q ->
      k < kv_len P /\ (mask_mode T = kCausal -> k <= q))
  /\ (n - 1) * CTA_K < kv_len P
  /\ (mask_mode T = kCausal -> (n - 1) * CTA_K <= bx t * CTA_Q).
Proof.
  intros V Hg n.
  destruct (num_iterations_range g T P nkv t V Hg) as ((Hn1 & Hn2) & En).
  fold n in Hn1, Hn2, En.
  apply in_grid_spec in Hg as (Hgd & Hbx & Hh & Hb & Htid).
  pose proof (vl_kv_len _ _ _ _ V) as Hkv.
  unfold CTA_K, CTA_Q, div_ceil in *.
  assert (Hlast : (n - 1) * 128 < kv_len P
                  /\ (mask_mode T = kCausal -> (n - 1) * 128 <= bx t * 64)).
  { destruct (mask_mode T); (split; [zlia|]); [discriminate|intros _; zlia]. }
  split; [|exact Hlast]. destruct Hlast as (Hl1 & Hl2).
  intros iter k q Hiter Hk Hq. unfold loop_iters in Hiter.
  apply elem_of_seqZ in Hiter.
  assert (iter * 128 <= (n - 1) * 128) by lia.
  split; [lia|]. intros Hc. specialize (Hl2 Hc). lia.
Qed.

Lemma loop_tiles_need_no_mask_witness :
  let T := sample_template kNone false in
  let P := sample_args 64 300 in
  let t := sample_thread 5 in
  num_iterations T P t = 3 /\ 200 < kv_len P.
Proof.
  intros T P t. split; [reflexivity|].
  destruct (loop_tiles_need_no_mask sample_grid T P 1 t) as (Ha & _).
  - apply sample_valid_launch; lia.
  - reflexivity.
  - apply (Ha 2 200 10).
    + apply elem_of_seqZ. change (num_iterations T P t) with 3. lia.
    + unfold CTA_K. lia.
    + change (bx t * CTA_Q) with 0. lia.
Defined.

(** ** Which scale a thread reads *)

(** In a validated launch the 32-bit index arithmetic of the scales does not
    wrap, and the indices are positions in contiguous three-dimensional
    tensors: the query scale read by a thread is element
    [(batch, head, slot)] of a tensor with [scale_len] slots per head, the
    key scale read in tile iteration [iter] is element
    [(batch, head / num_kv_groups, slot)] of a tensor with [k_scale_len]
    slots per key head, and both slots are in range. *)
Theorem scale_index_layout (g : dim3) (T : template) (P : kernel_args)
    (nkv : Z) (t : thread) (iter : Z) :
  valid_launch g T P nkv -> in_grid g t = true ->
  1 <= iter <= num_iterations T P t ->
  let q_slots := scale_len (Q_GRAN T) (x g) 4 in
  let k_slots := k_scale_len (K_GRAN T) (div_ceil (kv_len P) CTA_K) in
  q_scale_idx T t = flat3 (y g) q_slots (batch_id t) (head_id t) (q_scale_slot T t)
  /\ 0 <= q_scale_slot T t < q_slots
  /\ k_read_idx T P t iter
     = flat3 nkv k_slots (batch_id t) (kv_head_id P t) (k_scale_slot T t iter)
  /\ 0 <= k_scale_slot T t iter < k_slots
  /\ 0 <= kv_head_id P t < nkv.
Proof.
  intros V Hg Hiter q_slots k_slots.
  destruct (num_iterations_range g T P nkv t V Hg) as ((Hn1 & Hn2) & _).
  destruct (kv_heads_of_grid g T P nkv t V Hg) as (Hnkv & Hhk).
  apply in_grid_spec in Hg as (Hgd & Hbx & Hh & Hb & Htid).
  destruct (lane_ranges t) as (Hw & Hl & Hl4 & Hl3); [lia|].
  pose proof (vl_Q_fits _ _ _ _ V) as HQ. pose proof (vl_K_fits _ _ _ _ V) as HK.
  pose proof (vl_kv_heads _ _ _ _ V) as Hkvh.
  unfold U32.modulus in HQ, HK.
  assert (Hzy : 1 <= z g * y g) by nia.
  assert (Hx : x g * 4 * 8 <= z g * y g * (x g * 4 * 8)) by nia.
  assert (Hzn : 1 <= z g * nkv) by nia.
  set (nb := div_ceil (kv_len P) CTA_K) in *.
  assert (Hnb : nb * 4 <= z g * nkv * (nb * 4)) by nia.
  unfold flat3, kv_head_id.
  split; [|split; [|split; [|split; [|exact Hhk]]]].
  - unfold q_slots, q_scale_idx, q_scale_slot, scale_len, num_qo_heads. rewrite Hgd.
    destruct (Q_GRAN T).
    + destruct (radix3 (batch_id t) (head_id t) (bx t) (z g) (y g) (x g))
        as (R1 & R2 & R3); try lia.
      assert (z g * y g * x g <= z g * y g * (x g * 4 * 8)) by nia.
      u32_small ltac:(unfold U32.modulus; lia). lia.
    + destruct (radix3 (batch_id t) (head_id t) (bx t * 4 + warp_idx t) (z g) (y g) (x g * 4))
        as (R1 & R2 & R3); try lia.
      assert (z g * y g * (x g * 4) <= z g * y g * (x g * 4 * 8)) by nia.
      u32_small ltac:(unfold U32.modulus; lia). lia.
    + destruct (radix3 (batch_id t) (head_id t)
                  (bx t * 32 + warp_idx t * 8 + lane_id t / 4) (z g) (y g) (x g * 4 * 8))
        as (R1 & R2 & R3); try lia.
      u32_small ltac:(unfold U32.modulus; lia). lia.
  - unfold q_slots, q_scale_slot, scale_len. destruct (Q_GRAN T); lia.
  - unfold k_slots, k_read_idx, k_scale_idx, k_scale_advance_offset, k_scale_slot,
      k_scale_len.
    rewrite Hnkv. fold nb. set (hk := head_id t / num_kv_groups P) in *.
    destruct (K_GRAN T).
    + destruct (radix3 (batch_id t) hk (iter - 1) (z g) nkv nb) as (R1 & R2 & R3); try lia.
      assert (z g * nkv * nb <= z g * nkv * (nb * 4)) by nia.
      u32_small ltac:(unfold U32.modulus; lia). lia.
    + destruct (radix3 (batch_id t) hk (iter - 1) (z g) nkv nb) as (R1 & R2 & R3); try lia.
      assert (z g * nkv * nb <= z g * nkv * (nb * 4)) by nia.
      u32_small ltac:(unfold U32.modulus; lia). lia.
    + destruct (radix3 (batch_id t) hk (lane_id t mod 4 + (iter - 1) * 4) (z g) nkv (nb * 4))
        as (R1 & R2 & R3); try lia.
      u32_small ltac:(unfold U32.modulus; lia). lia.
  - unfold k_slots, k_scale_slot, k_scale_len. fold nb. destruct (K_GRAN T); lia.
Qed.

Lemma scale_index_layout_witness :
  let T := sample_template kNone false in
  let P := sample_args 64 300 in
  let t := sample_thread 37 in
  q_scale_idx T t = 1 /\ k_read_idx T P t 3 = 2.
Proof.
  intros T P t.
  destruct (scale_index_layout sample_grid T P 1 t 3) as (Eq & _ & Ek & _).
  - apply sample_valid_launch; lia.
  - reflexivity.
  - change (num_iterations T P t) with 3. lia.
  - rewrite Eq, Ek. split; reflexivity.
Defined.

(** ** Every element of the output is written *)

Lemma O_owner_in_grid (g : dim3) (P : kernel_args) (b h row col : Z) :
  0 <= b < z g -> 0 <= h < y g -> 0 <= row < qo_len P ->
  x g = div_ceil (qo_len P) CTA_Q ->
  in_grid g (O_owner g b h row col) = true.
Proof.
  intros Hb Hh Hi Hx.
  unfold in_grid, O_owner, bx, head_id, batch_id, NUM_THREADS. cbn.
  rewrite bool_decide_eq_true_2 by reflexivity.
  unfold div_ceil, CTA_Q in Hx.
  repeat (apply andb_true_intro; split);
    first [reflexivity | apply Z.leb_le | apply Z.ltb_lt]; zlia.
Qed.

Lemma elem_of_store2_intro (T : template) (ptr : Z) (c : list F32.t) (i e : Z) :
  0 <= e <= 1 -> (ptr + e, convert T (at0 c (2 * i + e))) ∈ store2 T ptr c i.
Proof.
  intros He. unfold store2. assert (e = 0 \/ e = 1) as [-> | ->] by lia.
  - rewrite !Z.add_0_r. apply list_elem_of_here.
  - apply list_elem_of_further, list_elem_of_here.
Qed.

Lemma O_stores_owner (g : dim3) (T : template) (P : kernel_args)
    (b h row col : Z) (RO : tile F32.t) :
  O_fits g T P -> in_grid g (O_owner g b h row col) = true ->
  0 <= row < qo_len P -> 0 <= col < head_dim T -> head_dim T mod 16 = 0 ->
  (O_index P b h row col, O_value T RO row col)
  ∈ O_stores T P (O_owner g b h row col) RO.
Proof.
  intros (Hsb & Hsh & Hss & Hhd & Hqo & Hfit & Hx) Hg Hrow Hcol Hd16.
  set (t := O_owner g b h row col) in *.
  destruct (Q_idx_lane_base_spec g t Hg Hx) as (Eq0 & Eq1 & Eq2).
  destruct (in_grid_spec g t Hg) as (Hgd & Hbx & Hh & Hb & Htid).
  assert (Hl : lane_id t = 4 * (row mod 8) + (col mod 8) / 2)
    by (unfold lane_id, t, O_owner; cbn; zlia).
  assert (Hw : warp_idx t = (row mod 64) / 16)
    by (unfold warp_idx, t, O_owner; cbn; zlia).
  assert (Hbxt : bx t = row / 64) by reflexivity.
  assert (Hbt : batch_id t = b) by reflexivity.
  assert (Hht : head_id t = h) by reflexivity.
  set (row0 := Q_idx_lane_base t) in *.
  set (dr := (row mod 16) / 8). set (fv := col / 16).
  set (dc := (col mod 16) / 8). set (e := col mod 2).
  assert (Hrow0 : row = row0 + 8 * dr) by (subst dr; rewrite Eq0, Hl, Hw, Hbxt; zlia).
  assert (Hl4 : lane_id t mod 4 = (col mod 8) / 2) by (rewrite Hl; zlia).
  assert (Hcol0 : col = lane_id t mod 4 * 2 + fv * 16 + 8 * dc + e)
    by (subst fv dc e; rewrite Hl4; zlia).
  assert (Hfv : 0 <= fv < head_dim T / 16) by (subst fv; zlia).
  assert (Hdr : 0 <= dr <= 1) by (subst dr; zlia).
  assert (Hdc : 0 <= dc <= 1) by (subst dc; zlia).
  assert (He : 0 <= e <= 1) by (subst e; zlia).
  unfold U32.modulus in *.
  assert (Hb1 : 0 <= b * stride_bz_o P <= (z g - 1) * stride_bz_o P)
    by (split; [apply Z.mul_nonneg_nonneg | apply Z.mul_le_mono_nonneg_r]; lia).
  assert (Hh1 : 0 <= h * stride_h_o P <= (y g - 1) * stride_h_o P)
    by (split; [apply Z.mul_nonneg_nonneg | apply Z.mul_le_mono_nonneg_r]; lia).
  assert (Hr1 : 0 <= row * stride_seq_o P <= (qo_len P - 1) * stride_seq_o P)
    by (split; [apply Z.mul_nonneg_nonneg | apply Z.mul_le_mono_nonneg_r]; lia).
  destruct (lane_ranges t) as (Hw4 & Hl32 & Hl8 & Hl3); [lia|].
  assert (Hrow0' : 0 <= row0) by lia.
  assert (Hr0 : 0 <= row0 * stride_seq_o P <= row * stride_seq_o P)
    by (split; [apply Z.mul_nonneg_nonneg | apply Z.mul_le_mono_nonneg_r]; lia).
  assert (Eptr : O_lane_ptr P t
                 = b * stride_bz_o P + h * stride_h_o P + row0 * stride_seq_o P
                   + lane_id t mod 4 * 2).
  { unfold O_lane_ptr. rewrite Hbt, Hht.
    change (bx t *u CTA_Q +u warp_idx t *u 16 +u lane_id t / 4) with row0.
    assert (0 <= lane_id t mod 4 < 4) by zlia.
    u32_small ltac:(unfold U32.modulus; lia). reflexivity. }
  assert (E16 : fv *u 16 = fv * 16)
    by (u32_small ltac:(unfold U32.modulus; zlia); reflexivity).
  assert (E0 : 0 *u 64 *u stride_seq_o P = 0) by reflexivity.
  assert (Ec : default [] (default [] (RO !! Z.to_nat 0) !! Z.to_nat fv)
               = default [] (default [] (RO !! 0%nat) !! Z.to_nat (col / 16)))
    by reflexivity.
  assert (Ev : O_value T RO row col
               = convert T (at0 (default [] (default [] (RO !! Z.to_nat 0) !! Z.to_nat fv))
                                (2 * (2 * dc + dr) + e))).
  { unfold O_value. rewrite Ec. f_equal. f_equal. subst dc dr e. lia. }
  unfold O_stores. apply list_elem_of_bind. exists 0.
  split; [|apply elem_of_seqZ; unfold num_tiles_q, CTA_Q; zlia].
  apply list_elem_of_bind. exists fv. split; [|apply elem_of_seqZ; lia].
  cbv beta zeta. fold t. fold row0.
  rewrite Eq1, Eq2, E0, E16, Eptr, Z.add_0_r, Ev.
  unfold O_index. rewrite Hcol0 at 1. rewrite Hrow0 at 1.
  apply elem_of_app.
  assert (dr = 0 \/ dr = 1) as [Edr | Edr] by lia; rewrite Edr in *;
    [left; destruct (Z.ltb_spec row0 (qo_len P)); [|lia]
    |right; destruct (Z.ltb_spec (row0 + 8) (qo_len P)); [|lia];
     assert (E8 : 8 *u stride_seq_o P = 8 * stride_seq_o P)
       by (u32_small ltac:(unfold U32.modulus; lia); reflexivity); rewrite E8];
    apply elem_of_app;
    (assert (dc = 0 \/ dc = 1) as [Edc | Edc] by lia; rewrite Edc; [left|right]).
  - replace (b * stride_bz_o P + h * stride_h_o P + (row0 + 8 * 0) * stride_seq_o P
             + (lane_id t mod 4 * 2 + fv * 16 + 8 * 0 + e))
      with (b * stride_bz_o P + h * stride_h_o P + row0 * stride_seq_o P
            + lane_id t mod 4 * 2 + fv * 16 + e) by lia.
    apply (elem_of_store2_intro T _ _ 0 e He).
  - replace (b * stride_bz_o P + h * stride_h_o P + (row0 + 8 * 0) * stride_seq_o P
             + (lane_id t mod 4 * 2 + fv * 16 + 8 * 1 + e))
      with (b * stride_bz_o P + h * stride_h_o P + row0 * stride_seq_o P
            + lane_id t mod 4 * 2 + fv * 16 + 8 + e) by lia.
    apply (elem_of_store2_intro T _ _ 2 e He).
  - replace (b * stride_bz_o P + h * stride_h_o P + (row0 + 8 * 1) * stride_seq_o P
             + (lane_id t mod 4 * 2 + fv * 16 + 8 * 0 + e))
      with (b * stride_bz_o P + h * stride_h_o P + row0 * stride_seq_o P
            + lane_id t mod 4 * 2 + fv * 16 + 8 * stride_seq_o P + e) by lia.
    apply (elem_of_store2_intro T _ _ 1 e He).
  - replace (b * stride_bz_o P + h * stride_h_o P + (row0 + 8 * 1) * stride_seq_o P
             + (lane_id t mod 4 * 2 + fv * 16 + 8 * 1 + e))
      with (b * stride_bz_o P + h * stride_h_o P + row0 * stride_seq_o P
            + lane_id t mod 4 * 2 + fv * 16 + 8 + 8 * stride_seq_o P + e) by lia.
    apply (elem_of_store2_intro T _ _ 3 e He).
Qed.

(** A complete launch that passes the entry points' checks, over an output
    whose elements have addresses of their own, writes every element of every
    row below [qo_len]: whatever the order in which the threads retire, the
    element [(b, h, row, col)] ends up holding the value its one owning thread
    converted from its accumulator registers. *)
Theorem output_filled {prims : Primitives} (g : dim3) (T : template)
    (P : kernel_args) (nkv : Z) (sched : list thread) (mem : memory) :
  valid_launch g T P nkv -> O_fits g T P -> O_distinct g T P ->
  sched ≡ₚ grid_threads g ->
  exists mem',
    run_threads T P sched mem = Some mem'
    /\ forall b h row col,
         0 <= b < z g -> 0 <= h < y g -> 0 <= row < qo_len P -> 0 <= col < head_dim T ->
         exists r,
           thread_regs T P (O_owner g b h row col) = Some r
           /\ O_mem mem' !! O_index P b h row col
              = Some (O_value T (reg_RO r) row col).
Proof.
  intros V Hfit Hd Hp. pose proof (in_grid_perm g sched Hp) as Hall.
  eexists. split; [apply (run_threads_valid g T P nkv); assumption|].
  cbn [O_mem]. intros b h row col Hb Hh Hrow Hcol.
  assert (Hg : in_grid g (O_owner g b h row col) = true)
    by (apply (O_owner_in_grid g P); auto; apply (vl_grid_x _ _ _ _ V)).
  destruct (thread_regs_valid g T P nkv _ V Hg) as [r Hr].
  exists r. split; [exact Hr|].
  apply store_all_in; [apply (O_writes_agreeing g); assumption|].
  apply list_elem_of_bind. exists (O_owner g b h row col). split.
  - unfold O_writes. rewrite Hr. apply (O_stores_owner g); try assumption.
    destruct (vl_head_dim _ _ _ _ V) as [E|E]; rewrite E; reflexivity.
  - rewrite Hp. apply elem_of_grid_threads, Hg.
Qed.

Lemma output_filled_witness :
  let T := sample_template kCausal false in
  let P := sample_args 40 300 in
  let mem := {| O_mem := ∅; Lse_mem := ∅ |} in
  exists mem',
    run_threads (prims := sample_primitives) T P (reverse (grid_threads sample_grid)) mem
    = Some mem'
    /\ is_Some (O_mem mem' !! O_index P 0 0 39 63).
Proof.
  intros T P mem.
  destruct (output_filled (prims := sample_primitives) sample_grid T P 1
              (reverse (grid_threads sample_grid)) mem) as (mem' & Hrun & Hfill).
  - apply sample_valid_launch; lia.
  - apply sample_O_fits; lia.
  - apply sample_O_distinct.
  - apply reverse_Permutation.
  - exists mem'. split; [exact Hrun|].
    destruct (Hfill 0 0 39 63) as (r & _ & Hm); cbn; try lia.
    rewrite Hm. now eexists.
Defined.

(** ** The protocol on the barriers *)

Lemma barrier_ops_app (b : barrier) (tr1 tr2 : list event) :
  barrier_ops b (tr1 ++ tr2) = barrier_ops b tr1 ++ barrier_ops b tr2.
Proof. apply omap_app. Qed.

Lemma barrier_ops_bind_nil {A B} (b : barrier) (c : M A) (k : A -> M B) :
  barrier_ops b c.1 = [] -> (forall a, barrier_ops b (k a).1 = []) ->
  barrier_ops b (bind c k).1 = [].
Proof.
  destruct c as [tr [a|e]]; cbn [bind fst]; intros Hc Hk; [|exact Hc].
  specialize (Hk a). destruct (k a) as [tr' r]. cbn [fst] in *.
  now rewrite barrier_ops_app, Hc, Hk.
Qed.

Lemma barrier_ops_for_each {A S} (b : barrier) (body : S -> A -> M S) (l : list A) :
  (forall s a, barrier_ops b (body s a).1 = []) ->
  forall s, barrier_ops b (for_each body l s).1 = [].
Proof.
  intros Hbody. induction l as [|a l IH]; intros s; [reflexivity|].
  cbn [for_each]. apply barrier_ops_bind_nil; [apply Hbody | apply IH].
Qed.

Lemma barrier_ops_read (b : barrier) (arr : array_id) (data : list F32.t) (idx : Z) :
  barrier_ops b (read arr data idx).1 = [].
Proof. reflexivity. Qed.

Lemma barrier_ops_apply_v_scale (b : barrier) (T : template) (P : kernel_args)
    (t : thread) (RO : tile F32.t) :
  barrier_ops b (apply_v_scale T P t RO).1 = [].
Proof.
  unfold apply_v_scale. apply barrier_ops_for_each. intros s fv.
  repeat (apply barrier_ops_bind_nil; [apply barrier_ops_read | intros ?]).
  reflexivity.
Qed.

Lemma loop_body_ops {prims : Primitives} (T : template) (P : kernel_args) (t : thread)
    (q_scale osm : F32.t) (r : regs) (iter : Z) :
  0 <= k_read_idx T P t iter < Z.of_nat (length (K_scale P)) ->
  exists tr r',
    loop_body T P t q_scale osm r iter = (tr, Done r')
    /\ phase r' = Z.lxor (phase r) 1
    /\ barrier_ops barrier_Q tr = []
    /\ barrier_ops barrier_K tr = loop_ops P T t barrier_K (phase r) [iter]
    /\ barrier_ops barrier_V tr = loop_ops P T t barrier_V (phase r) [iter].
Proof.
  intros Hidx. destruct (zlookup_Some _ _ Hidx) as [ks Hks].
  unfold loop_body, softmax_pv, read, leader, loop_ops, if_leader, tile_bytes.
  fold (k_read_idx T P t iter). rewrite Hks.
  destruct (threadIdx t =? 0);
    cbv beta iota zeta delta [bind emit ret];
    destruct (update_mdo t _ _ _ _ _) as [[[sc RO] m] d];
    (eexists; eexists; split; [reflexivity|]; repeat split; reflexivity).
Qed.

Lemma loop_ops_for_each {prims : Primitives} (T : template) (P : kernel_args)
    (t : thread) (q_scale osm : F32.t) (iters : list Z) :
  (forall iter, iter ∈ iters ->
     0 <= k_read_idx T P t iter < Z.of_nat (length (K_scale P))) ->
  forall r, exists tr r',
    for_each (loop_body T P t q_scale osm) iters r = (tr, Done r')
    /\ phase r' = loop_phase (phase r) iters
    /\ barrier_ops barrier_Q tr = []
    /\ barrier_ops barrier_K tr = loop_ops P T t barrier_K (phase r) iters
    /\ barrier_ops barrier_V tr = loop_ops P T t barrier_V (phase r) iters.
Proof.
  induction iters as [|iter iters IH]; intros Hin r.
  - exists [], r. repeat split; reflexivity.
  - destruct (loop_body_ops T P t q_scale osm r iter)
      as (tr1 & r1 & E1 & Hp1 & Q1 & K1 & V1); [apply Hin; left|].
    destruct (IH (fun i Hi => Hin i (list_elem_of_further _ _ _ Hi)) r1)
      as (tr2 & r2 & E2 & Hp2 & Q2 & K2 & V2).
    exists (tr1 ++ tr2), r2. split.
    { cbn [for_each]. rewrite (bind_Done _ _ _ _ E1), E2. reflexivity. }
    rewrite !barrier_ops_app, Q1, Q2, K1, K2, V1, V2, Hp2, Hp1.
    cbn [loop_ops loop_phase]. rewrite !app_nil_r. repeat split; reflexivity.
Qed.

Lemma lxor_parity (a : Z) : Z.lxor (a mod 2) 1 = (a + 1) mod 2.
Proof.
  assert (a mod 2 = 0 \/ a mod 2 = 1) as [E | E] by zlia; rewrite E;
    [change (Z.lxor 0 1) with 1 | change (Z.lxor 1 1) with 0]; zlia.
Qed.

Lemma loop_ops_seqZ (T : template) (P : kernel_args) (t : thread) (b : barrier)
    (len : nat) :
  forall a, 0 <= a -> (a + Z.of_nat len) * CTA_K <= U32.modulus ->
  loop_ops P T t b (a mod 2) (seqZ a (Z.of_nat len))
  = concat (tile_ops T P t b <$> seqZ a (Z.of_nat len))
  /\ loop_phase (a mod 2) (seqZ a (Z.of_nat len)) = (a + Z.of_nat len) mod 2.
Proof.
  induction len as [|len IH]; intros a Ha Hfit.
  - change (Z.of_nat 0) with 0. rewrite Z.add_0_r. split; reflexivity.
  - rewrite Nat2Z.inj_succ in *. rewrite seqZ_cons by lia.
    replace (Z.pred (Z.succ (Z.of_nat len))) with (Z.of_nat len) by lia.
    cbn [loop_ops loop_phase fmap list_fmap concat].
    rewrite lxor_parity. replace (Z.succ a) with (a + 1) by lia.
    destruct (IH (a + 1)) as [IH1 IH2];
      [lia|replace (a + 1 + Z.of_nat len) with (a + Z.succ (Z.of_nat len)) by lia;
           exact Hfit|].
    rewrite IH1, IH2. split; [|f_equal; lia].
    f_equal. unfold tile_ops, wait_phase, tile_load, CTA_K in *.
    replace ((a + 1) mod 2) with ((a - 1) mod 2) by zlia.
    rewrite Z.mul_1_r.
    assert (E : a *u 128 = a * 128)
      by (u32_small ltac:(unfold U32.modulus in *; lia); reflexivity).
    rewrite E. now destruct b.
Qed.

Lemma barrier_ops_kernel {prims : Primitives} (g : dim3) (T : template)
    (P : kernel_args) (nkv : Z) (t : thread) (b : barrier) :
  valid_launch g T P nkv -> in_grid g t = true ->
  let n := num_iterations T P t in
  exists tr r,
    kernel_compute T P t = (tr, Done r)
    /\ barrier_ops b tr
       = match b with
         | barrier_Q =>
             if_leader t [OpInit 1; OpExpect (CTA_Q * head_dim T);
                          OpLoad 0 (bx t * CTA_Q) (head_id t) (batch_id t)]
             ++ [OpWait 0]
         | _ =>
             first_ops T P t b ++ concat (tile_ops T P t b <$> loop_iters n)
             ++ [OpWait (wait_phase n)]
         end.
Proof.
  intros V Hg n.
  destruct (num_iterations_range g T P nkv t V Hg) as ((Hn1 & Hn2) & _).
  fold n in Hn1, Hn2.
  destruct (zlookup_Some (Q_scale P) (q_scale_idx T t)) as [q Eq].
  { apply (q_scale_idx_in_range g T P nkv t V Hg). }
  set (osm := F32.mul (sm_scale P) log2e).
  destruct (loop_ops_for_each T P t q osm (loop_iters n)) with (r := init_regs T)
    as (tr1 & r1 & E1 & Hp1 & Q1 & K1 & V1).
  { intros iter Hin. unfold loop_iters in Hin. apply elem_of_seqZ in Hin.
    apply (k_read_idx_in_range g T P nkv t iter V Hg). fold n. lia. }
  assert (Hkv : (1 + Z.of_nat (Z.to_nat (n - 1))) * CTA_K <= U32.modulus).
  { pose proof (vl_kv_len _ _ _ _ V) as Hkv.
    unfold I32.max_int, div_ceil, CTA_K, U32.modulus in *. zlia. }
  destruct (loop_ops_seqZ T P t barrier_K (Z.to_nat (n - 1)) 1) as [LK LP]; [lia|exact Hkv|].
  destruct (loop_ops_seqZ T P t barrier_V (Z.to_nat (n - 1)) 1) as [LV _]; [lia|exact Hkv|].
  rewrite Z2Nat.id in LK, LV, LP by lia. fold (loop_iters n) in LK, LV, LP.
  change (1 mod 2) with (phase (init_regs T)) in LK, LV, LP.
  rewrite LK in K1. rewrite LV in V1. rewrite LP in Hp1. clear LK LV LP.
  replace (1 + (n - 1)) with n in Hp1 by lia.
  assert (Hidx : 0 <= k_read_idx T P t n < Z.of_nat (length (K_scale P)))
    by (apply (k_read_idx_in_range g T P nkv t n V Hg); fold n; lia).
  destruct (zlookup_Some _ _ Hidx) as [ks Hks].
  pose proof Hg as Hg0.
  apply in_grid_spec in Hg as (Hgd & Hbx & Hh & Hb & Htid).
  assert (Ebx : bx t *u CTA_Q = bx t * CTA_Q).
  { pose proof (vl_qo_len _ _ _ _ V) as Hqo. pose proof (vl_grid_x _ _ _ _ V) as Hx.
    unfold I32.max_int, div_ceil, CTA_Q in *.
    u32_small ltac:(unfold U32.modulus; zlia). reflexivity. }
  assert (Ewp : (n + 1) mod 2 = wait_phase n) by (unfold wait_phase; zlia).
  unfold kernel_compute, tiles_from. fold osm n.
  unfold prologue, leader, read. rewrite Eq.
  unfold epilogue, epilogue_tile, softmax_pv, read.
  fold n. fold (k_read_idx T P t n).
  destruct (threadIdx t =? 0) eqn:Hlead;
    cbv beta iota zeta delta [bind emit ret]; rewrite E1;
    cbv beta iota zeta; rewrite Hks; cbv beta iota zeta;
    destruct (update_mdo t _ _ _ _ _) as [[[sc RO] m] d];
    destruct (normalize_d t _ _ _) as [[RO' m'] d'];
    pose proof (barrier_ops_apply_v_scale b T P t RO') as Hv;
    (destruct (fuse_v_scale T) eqn:Hf;
     [destruct (apply_v_scale_Done g T P nkv t RO' V Hg0 Hf) as (tr3 & RO3 & E3 & _);
      rewrite E3 in *; cbn [fst] in Hv|]);
    (eexists; eexists; split; [reflexivity|]);
    rewrite !barrier_ops_app, ?Hv, ?app_nil_r;
    destruct b; rewrite ?Q1, ?K1, ?V1, Hp1, lxor_parity, Ewp;
    unfold first_ops, if_leader, tile_load, tile_bytes; rewrite Hlead, ?Ebx;
    rewrite ?Z.mul_1_r, ?Z.mul_0_l; reflexivity.
Qed.


(** The bulk loads and the waits of a validated launch follow the
    single-buffer protocol on the key barrier and on the value barrier alike.
    Thread 0 initialises the barrier and loads tile 0; then every thread, for
    each tile iteration [iter] of the loop, waits for parity
    [(iter - 1) mod 2] and thread 0 refills the buffer with tile [iter]; the
    epilogue waits once more and loads nothing.  So every wait follows the
    load of its tile, no load is issued before the tile before it was waited
    for, the parities alternate from 0, and tiles [0 .. num_iterations - 1]
    of the block's key head are loaded once each.  The query tile is loaded
    once and waited for with parity 0. *)
Theorem barrier_protocol {prims : Primitives} (g : dim3) (T : template)
    (P : kernel_args) (nkv : Z) (t : thread) (b : barrier) :
  valid_launch g T P nkv -> in_grid g t = true ->
  let n := num_iterations T P t in
  exists tr r,
    kernel_compute T P t = (tr, Done r)
    /\ barrier_ops b tr
       = match b with
         | barrier_Q =>
             if_leader t [OpInit 1; OpExpect (CTA_Q * head_dim T);
                          OpLoad 0 (bx t * CTA_Q) (head_id t) (batch_id t)]
             ++ [OpWait 0]
         | _ =>
             first_ops T P t b ++ concat (tile_ops T P t b <$> loop_iters n)
             ++ [OpWait (wait_phase n)]
         end.
Proof.
  intros V Hg n. exact (barrier_ops_kernel g T P nkv t b V Hg).
Qed.

Lemma barrier_protocol_witness :
  let T := sample_template kNone false in
  let P := sample_args 64 300 in
  barrier_ops barrier_K
    (kernel_compute (prims := sample_primitives) T P (sample_thread 0)).1
  = [OpInit 1; OpExpect 8192; OpLoad 0 0 0 0;
     OpWait 0; OpExpect 8192; OpLoad 0 128 0 0;
     OpWait 1; OpExpect 8192; OpLoad 0 256 0 0;
     OpWait 0].
Proof.
  intros T P.
  destruct (barrier_protocol (prims := sample_primitives) sample_grid T P 1
              (sample_thread 0) barrier_K) as (tr & r & E & Hops).
  - apply sample_valid_launch; lia.
  - reflexivity.
  - rewrite E. cbn [fst]. rewrite Hops. reflexivity.
Defined.

(** ** Bulk loads stay inside the tensors *)

Lemma OpLoad_in_tile_ops (T : template) (P : kernel_args) (t : thread) (b : barrier)
    (l : list Z) (p s0 s1 s2 s3 : Z) :
  OpLoad s0 s1 s2 s3
  ∈ first_ops T P t b ++ concat (tile_ops T P t b <$> l) ++ [OpWait p] ->
  exists tile, (tile = 0 \/ tile ∈ l) /\ OpLoad s0 s1 s2 s3 = tile_load P t b tile.
Proof.
  intros Hin. apply elem_of_app in Hin as [Hin | Hin].
  - unfold first_ops, if_leader in Hin. destruct (threadIdx t =? 0); [|inversion Hin].
    exists 0. split; [now left|].
    repeat (apply elem_of_cons in Hin as [Hin | Hin]; [try discriminate Hin|]);
      [|inversion Hin].
    exact Hin.
  - apply elem_of_app in Hin as [Hin | Hin].
    + apply list_elem_of_In, in_concat in Hin as (ops & Hops & Hin).
      apply list_elem_of_In, list_elem_of_fmap in Hops as (iter & -> & Hiter).
      apply list_elem_of_In in Hin.
      exists iter. split; [now right|].
      unfold tile_ops, if_leader in Hin.
      apply elem_of_cons in Hin as [Hin | Hin]; [discriminate Hin|].
      destruct (threadIdx t =? 0); [|inversion Hin].
      repeat (apply elem_of_cons in Hin as [Hin | Hin]; [try discriminate Hin|]);
        [|inversion Hin].
      exact Hin.
    + apply list_elem_of_singleton in Hin. discriminate Hin.
Qed.

(** Every bulk load of a validated launch addresses a tile that starts inside
    its tensor: the query tile at row [bx * 64], below [qo_len], of the
    block's head; a key tile at a multiple of 128 below [kv_len]; a value tile
    of 128 positions that ends within the padded length
    [ceil(kv_len / 128) * 128] the entry points require of the value tensor;
    key and value tiles of a key head below [num_kv_heads], all of a batch
    below the batch size.  The head-dimension coordinate is always 0. *)
Theorem tile_loads_in_bounds {prims : Primitives} (g : dim3) (T : template)
    (P : kernel_args) (nkv : Z) (t : thread) (b : barrier) :
  valid_launch g T P nkv -> in_grid g t = true ->
  exists tr r,
    kernel_compute T P t = (tr, Done r)
    /\ forall s0 s1 s2 s3,
         OpLoad s0 s1 s2 s3 ∈ barrier_ops b tr ->
         0 <= s3 < z g
         /\ match b with
            | barrier_Q =>
                s0 = 0 /\ 0 <= s1 < qo_len P /\ s1 mod CTA_Q = 0 /\ 0 <= s2 < y g
            | barrier_K =>
                s0 = 0 /\ 0 <= s1 < kv_len P /\ s1 mod CTA_K = 0 /\ 0 <= s2 < nkv
            | barrier_V =>
                s1 = 0 /\ 0 <= s0 /\ s0 mod CTA_K = 0
                /\ s0 + CTA_K <= div_ceil (kv_len P) CTA_K * CTA_K
                /\ 0 <= s2 < nkv
            end.
Proof.
  intros V Hg.
  destruct (barrier_ops_kernel g T P nkv t b V Hg) as (tr & r & E & Hops).
  exists tr, r. split; [exact E|]. rewrite Hops. clear Hops E.
  destruct (num_iterations_range g T P nkv t V Hg) as ((Hn1 & Hn2) & En).
  destruct (kv_heads_of_grid g T P nkv t V Hg) as (_ & Hhk).
  fold (kv_head_id P t) in Hhk.
  set (n := num_iterations T P t) in *.
  pose proof (vl_kv_len _ _ _ _ V) as Hkv. pose proof (vl_qo_len _ _ _ _ V) as Hqo.
  pose proof (vl_grid_x _ _ _ _ V) as Hx.
  apply in_grid_spec in Hg as (Hgd & Hbx & Hh & Hb & Htid).
  assert (Htile : forall tile, tile = 0 \/ tile ∈ loop_iters n -> 0 <= tile <= n - 1).
  { intros tile [-> | Hin]; [lia|]. unfold loop_iters in Hin.
    apply elem_of_seqZ in Hin. lia. }
  unfold CTA_K, CTA_Q, div_ceil, I32.max_int in *.
  assert (Hlast : (n - 1) * 128 < kv_len P).
  { rewrite En. destruct (mask_mode T); zlia. }
  intros s0 s1 s2 s3 Hin. destruct b.
  - apply elem_of_app in Hin as [Hin | Hin];
      [|apply list_elem_of_singleton in Hin; discriminate Hin].
    unfold if_leader in Hin. destruct (threadIdx t =? 0); [|inversion Hin].
    repeat (apply elem_of_cons in Hin as [Hin | Hin]; [try discriminate Hin|]);
      [|inversion Hin].
    injection Hin as -> -> -> ->. repeat split; try lia; zlia.
  - apply OpLoad_in_tile_ops in Hin as (tile & Ht & Hin). apply Htile in Ht.
    unfold tile_load, CTA_K in Hin. injection Hin as -> -> -> ->.
    repeat split; try lia; zlia.
  - apply OpLoad_in_tile_ops in Hin as (tile & Ht & Hin). apply Htile in Ht.
    unfold tile_load, CTA_K in Hin. injection Hin as -> -> -> ->.
    repeat split; try lia; zlia.
Qed.

Lemma tile_loads_in_bounds_witness :
  let T := sample_template kNone false in
  let P := sample_args 64 300 in
  OpLoad 256 0 0 0
  ∈ barrier_ops barrier_V
      (kernel_compute (prims := sample_primitives) T P (sample_thread 0)).1
  /\ 256 + CTA_K <= div_ceil (kv_len P) CTA_K * CTA_K.
Proof.
  intros T P.
  assert (Hin : OpLoad 256 0 0 0
                ∈ barrier_ops barrier_V
                    (kernel_compute (prims := sample_primitives) T P (sample_thread 0)).1).
  { apply list_elem_of_In. vm_compute. tauto. }
  split; [exact Hin|].
  destruct (tile_loads_in_bounds (prims := sample_primitives) sample_grid T P 1
              (sample_thread 0) barrier_V) as (tr & r & E & Hb).
  - apply sample_valid_launch; lia.
  - reflexivity.
  - rewrite E in Hin. cbn [fst] in Hin.
    destruct (Hb 256 0 0 0 Hin) as (_ & _ & _ & _ & Hle & _). exact Hle.
Defined.

(** ** Contiguous outputs *)

Lemma contiguous_from_4 (s0 s1 s2 s3 t0 t1 t2 t3 : Z) :
  contiguous_from 1 [(s3, t3); (s2, t2); (s1, t1); (s0, t0)] = true ->
  (s2 <> 1 -> t2 = s3) /\ (s1 <> 1 -> t1 = s2 * s3) /\ (s0 <> 1 -> t0 = s1 * s2 * s3).
Proof.
  cbn [contiguous_from].
  destruct (Z.eqb_spec s3 1) as [-> | N3], (Z.eqb_spec s2 1) as [-> | N2],
    (Z.eqb_spec s1 1) as [-> | N1], (Z.eqb_spec s0 1) as [-> | N0];
    rewrite ?andb_true_iff, ?Z.eqb_eq; intros Hc; repeat split; intros; lia.
Qed.

Lemma narrowed_stride (i s t prod : Z) :
  0 <= i < s -> (s <> 1 -> t = prod) -> 0 <= prod < 2 ^ 31 ->
  i * U32.wrap (I32.of_int64 t) = i * prod
  /\ (s - 1) * U32.wrap (I32.of_int64 t) = (s - 1) * prod
  /\ 0 <= U32.wrap (I32.of_int64 t).
Proof.
  intros Hi Ht Hp.
  assert (Hw : 0 <= U32.wrap (I32.of_int64 t) < 2 ^ 32)
    by (unfold U32.wrap, U32.modulus; zlia).
  destruct (Z.eq_dec s 1) as [-> | Hs].
  - assert (i = 0) as -> by lia. repeat split; first [reflexivity | lia].
  - rewrite (Ht Hs).
    assert (E : U32.wrap (I32.of_int64 prod) = prod)
      by (unfold U32.wrap, U32.modulus, I32.of_int64; zlia).
    rewrite E. repeat split; first [reflexivity | lia].
Qed.

Lemma O_position_range (c : call) (B L H D b h row col : Z) :
  0 <= b < B -> 0 <= h < H -> 0 <= row < L -> 0 <= col < D ->
  0 <= O_position c L H D b h row col < B * L * H * D.
Proof.
  intros Hb Hh Hrow Hcol. unfold O_position. destruct (tensor_layout c =? 0).
  - pose proof (radix2 b row B L Hb Hrow) as H1.
    pose proof (radix2 _ h _ H H1 Hh) as H2.
    exact (radix2 _ col _ D H2 Hcol).
  - pose proof (radix2 b h B H Hb Hh) as H1.
    pose proof (radix2 _ row _ L H1 Hrow) as H2.
    pose proof (radix2 _ col _ D H2 Hcol) as H3.
    replace (B * L * H * D) with (B * H * L * D) by ring. exact H3.
Qed.

Lemma contiguous_output_layout (fuse : bool) (c : call) (nkg : Z) (T : template) :
  let geo := geometry_of c in
  let B := g_batch_size geo in
  let L := g_qo_len geo in
  let H := g_num_qo_heads geo in
  let D := g_head_dim geo in
  let P := launch_args fuse c nkg in
  let g := launch_grid c in
  sizes (output c) = shape4 c B L H D ->
  length (strides (output c)) = 4%nat ->
  is_contiguous (output c) = true ->
  1 <= B -> 1 <= L -> 1 <= H -> 1 <= D -> B * L * H * D < 2 ^ 31 ->
  head_dim T = D ->
  (forall b h row col,
      0 <= b < B -> 0 <= h < H -> 0 <= row < L -> 0 <= col < D ->
      O_index P b h row col = O_position c L H D b h row col)
  /\ z g = B /\ y g = H /\ qo_len P = L
  /\ O_fits g T P
  /\ O_distinct g T P.
Proof.
  intros geo B L H D P g Hsz Hlen Hc HB HL HH HD Htot HT.
  assert (HHD : D <= H * D) by nia.
  assert (HLHD : H * D <= L * (H * D)) by nia.
  assert (HBLHD : L * (H * D) <= B * (L * (H * D))) by nia.
  assert (HLD : D <= L * D) by nia.
  assert (HHLD : L * D <= H * (L * D)) by nia.
  assert (HB' : B <= B * (L * (H * D))) by nia.
  assert (HL' : L <= L * (H * D)) by nia.
  assert (HH' : H <= H * D) by nia.
  assert (Hwrap : forall a, 0 <= a < 2 ^ 31 -> U32.wrap a = a)
    by (intros a Ha; unfold U32.wrap, U32.modulus; zlia).
  assert (Ez : z g = B) by (apply Hwrap; lia).
  assert (Ey : y g = H) by (apply Hwrap; lia).
  assert (Eq : qo_len P = L) by (apply Hwrap; lia).
  assert (Ex : 64 * x g <= U32.modulus).
  { unfold g, launch_grid. cbn [x]. fold geo. fold L.
    rewrite Hwrap; unfold div_ceil, CTA_Q, U32.modulus; zlia. }
  clearbody B L H D.
  assert (Hnz : forall a, 1 <= a -> (0 =? a) = false)
    by (intros a Ha; apply Z.eqb_neq; lia).
  destruct (strides (output c)) as [|t0 [|t1 [|t2 [|t3 [|]]]]] eqn:Est;
    try discriminate Hlen. clear Hlen.
  unfold is_contiguous in Hc. rewrite Hsz, Est in Hc. unfold shape4 in Hc.
  assert (Hstr : exists sbz sh ss pbz ph ps,
             stride_bz_o P = U32.wrap (I32.of_int64 sbz)
             /\ stride_h_o P = U32.wrap (I32.of_int64 sh)
             /\ stride_seq_o P = U32.wrap (I32.of_int64 ss)
             /\ (B <> 1 -> sbz = pbz) /\ (H <> 1 -> sh = ph) /\ (L <> 1 -> ss = ps)
             /\ pbz = L * H * D
             /\ (forall b h row col,
                   b * pbz + h * ph + row * ps + col = O_position c L H D b h row col)
             /\ 0 <= ph <= L * H * D /\ 0 <= ps <= L * H * D
             /\ (H - 1) * ph + (L - 1) * ps + D <= L * H * D).
  { unfold P, launch_args, geo, geometry_of, stride, O_position.
    cbn [stride_bz_o stride_h_o stride_seq_o g_stride_bz_o g_stride_h_o g_stride_seq_o].
    rewrite Est. destruct (tensor_layout c =? 0); cbn [lookup list_lookup default].
    - assert (Hex : existsb (Z.eqb 0) [B; L; H; D] = false).
      { cbn [existsb]. rewrite !Hnz by assumption. reflexivity. }
      rewrite Hex in Hc. cbn [orb zip zip_with rev app] in Hc.
      apply contiguous_from_4 in Hc as (C2 & C1 & C0).
      exists t0, t2, t1, (L * H * D), D, (H * D).
      repeat split; try reflexivity; try assumption; try (intros; lia); try nia.
    - assert (Hex : existsb (Z.eqb 0) [B; H; L; D] = false).
      { cbn [existsb]. rewrite !Hnz by assumption. reflexivity. }
      rewrite Hex in Hc. cbn [orb zip zip_with rev app] in Hc.
      apply contiguous_from_4 in Hc as (C2 & C1 & C0).
      exists t0, t1, t2, (L * H * D), (L * D), D.
      repeat split; try reflexivity; try assumption; try (intros; lia); try nia. }
  destruct Hstr as (sbz & sh & ss & pbz & ph & ps & Ebz & Eh & Es & Cbz & Ch & Cs
                    & Epbz & Hpos & Hph & Hps & Hsum).
  assert (Hph' : ph < 2 ^ 31) by lia. assert (Hps' : ps < 2 ^ 31) by lia.
  assert (Hidx : forall b h row col,
             0 <= b < B -> 0 <= h < H -> 0 <= row < L -> 0 <= col < D ->
             O_index P b h row col = O_position c L H D b h row col).
  { intros b h row col Hb Hh Hrow Hcol. rewrite <- Hpos. unfold O_index.
    rewrite Ebz, Eh, Es.
    destruct (narrowed_stride b B sbz pbz) as (-> & _); [lia|auto|nia|].
    destruct (narrowed_stride h H sh ph) as (-> & _); [lia|auto|lia|].
    destruct (narrowed_stride row L ss ps) as (-> & _); [lia|auto|lia|].
    reflexivity. }
  split; [exact Hidx|]. split; [exact Ez|]. split; [exact Ey|]. split; [exact Eq|].
  split.
  - unfold O_fits. rewrite Ez, Ey, Eq, HT, Ebz, Eh, Es.
    destruct (narrowed_stride 0 B sbz pbz) as (_ & -> & ?); [lia|auto|nia|].
    destruct (narrowed_stride 0 H sh ph) as (_ & -> & ?); [lia|auto|lia|].
    destruct (narrowed_stride 0 L ss ps) as (_ & -> & ?); [lia|auto|lia|].
    unfold U32.modulus in *. repeat split; lia.
  - unfold O_distinct, O_distinct_rows. rewrite Ez, Ey, Eq, HT.
    intros b h row col b' h' row' col' Hb Hh Hrow Hcol Hb' Hh' Hrow' Hcol' E.
    rewrite !Hidx in E by assumption. unfold O_position in E.
    destruct (tensor_layout c =? 0).
    + apply radix_inj in E as [E ->]; [|lia|lia].
      apply radix_inj in E as [E ->]; [|lia|lia].
      apply radix_inj in E as [-> ->]; [|lia|lia]. auto.
    + apply radix_inj in E as [E ->]; [|lia|lia].
      apply radix_inj in E as [E ->]; [|lia|lia].
      apply radix_inj in E as [-> ->]; [|lia|lia]. auto.
Qed.


(** For a contiguous output tensor of the shape the entry points check, in
    either layout, the strides handed to the kernel make the address of
    element [(b, h, row, col)] its position in the tensor's storage.  So no
    offset wraps in 32 bits and distinct elements have distinct addresses:
    the conditions under which the stores of a launch are confined to the
    rows below [qo_len] and independent of the schedule. *)
Theorem contiguous_output_addresses (fuse : bool) (c : call) (nkg : Z) (T : template) :
  let geo := geometry_of c in
  let B := g_batch_size geo in
  let L := g_qo_len geo in
  let H := g_num_qo_heads geo in
  let D := g_head_dim geo in
  let P := launch_args fuse c nkg in
  let g := launch_grid c in
  sizes (output c) = shape4 c B L H D ->
  length (strides (output c)) = 4%nat ->
  is_contiguous (output c) = true ->
  1 <= B -> 1 <= L -> 1 <= H -> 1 <= D -> B * L * H * D < 2 ^ 31 ->
  head_dim T = D ->
  (forall b h row col,
      0 <= b < B -> 0 <= h < H -> 0 <= row < L -> 0 <= col < D ->
      O_index P b h row col = O_position c L H D b h row col)
  /\ z g = B /\ y g = H /\ qo_len P = L
  /\ O_fits g T P
  /\ O_distinct g T P.
Proof.
  intros geo B L H D P g Hsz Hlen Hc HB HL HH HD Htot HT.
  exact (contiguous_output_layout fuse c nkg T Hsz Hlen Hc HB HL HH HD Htot HT).
Qed.

Lemma contiguous_output_addresses_witness :
  let c := sample_call 4 2 0 in
  O_index (launch_args false c 2) 0 3 63 63 = 63 * 256 + 3 * 64 + 63
  /\ O_distinct (launch_grid c) (sample_template kNone false) (launch_args false c 2).
Proof.
  intros c.
  destruct (contiguous_output_addresses false c 2 (sample_template kNone false))
    as (Hidx & _ & _ & _ & _ & Hd); try reflexivity; try (vm_compute; discriminate).
  split; [|exact Hd]. rewrite Hidx; [reflexivity| | | |]; vm_compute; split; (discriminate || reflexivity).
Defined.

(** ** From the checks of the entry points to the launch *)

Lemma CHECK_Done (b : bool) (what : string) (u : unit) :
  (CHECK b what).2 = Done u -> b = true.
Proof. now destruct b. Qed.

Lemma CHECK_SHAPE_Done (a : Tensor) (shape : list Z) (what : string) (u : unit) :
  (CHECK_SHAPE a shape what).2 = Done u -> sizes a = shape.
Proof.
  unfold CHECK_SHAPE. intros Hd. apply CHECK_Done in Hd.
  now apply bool_decide_eq_true in Hd.
Qed.

Lemma check_head_ratio_Done (a b : Z) (u : unit) :
  (check_head_ratio a b).2 = Done u -> b <> 0 /\ Z.rem a b = 0.
Proof.
  unfold check_head_ratio, int_rem.
  destruct (Z.eqb_spec b 0) as [-> | Hb]; [discriminate|]. cbn [orb].
  destruct ((a =? - 2 ^ 31) && (b =? -1)); [discriminate|].
  destruct (Z.eqb_spec (Z.rem a b) 0) as [E | E]; [auto | discriminate].
Qed.

Lemma dispatch_Done_template (granularity_of : Z -> option QuantGranularity)
    (fuse : bool) (c : call) (T : template) :
  (dispatch granularity_of fuse c).2 = Done T ->
  head_dim T = g_head_dim (geometry_of c)
  /\ (head_dim T = 64 \/ head_dim T = 128)
  /\ K_GRAN T = Q_GRAN T
  /\ (Q_GRAN T = kPerWarp \/ Q_GRAN T = kPerThread)
  /\ fuse_v_scale T = fuse.
Proof.
  unfold dispatch.
  destruct (Z.eqb_spec (g_head_dim (geometry_of c)) 64) as [E64 | N64];
    [|destruct (Z.eqb_spec (g_head_dim (geometry_of c)) 128) as [E128 | N128]];
    destruct (granularity_of (qk_quant_gran c)) as [[]|];
    destruct (scalar_type (output c)); cbn; intros Hd;
    first [discriminate Hd | injection Hd as <-; cbn; auto 10].
Qed.

Lemma narrowed_range (a : Z) : - 2 ^ 31 <= I32.of_int64 a < 2 ^ 31.
Proof. unfold I32.of_int64. zlia. Qed.

Lemma returned_call_facts (NDEBUG fuse : bool)
    (granularity_of : Z -> option QuantGranularity)
    (encode_ok : Z -> Z -> Z -> Z -> Z -> Z -> Z -> bool) (c : call) (lse : lse_tensor) :
  (attn_inst_buf NDEBUG granularity_of encode_ok fuse c).2 = Done lse ->
  call_in_range fuse c ->
  exists T nkg pre,
    (attn_inst_buf NDEBUG granularity_of encode_ok fuse c).1
    = pre ++ [DevLaunch T (launch_args fuse c nkg) (launch_grid c)]
    /\ valid_launch (launch_grid c) T (launch_args fuse c nkg)
         (g_num_kv_heads (geometry_of c))
    /\ head_dim T = g_head_dim (geometry_of c)
    /\ sizes (output c)
       = shape4 c (g_batch_size (geometry_of c)) (g_qo_len (geometry_of c))
           (g_num_qo_heads (geometry_of c)) (g_head_dim (geometry_of c)).
Proof.
  intros Hdone R.
  unfold attn_inst_buf in *. set (geo := geometry_of c) in *.
  apply bind_Done_inv in Hdone as ([] & _ & H & L1); cbv beta in H, L1.
  apply bind_Done_inv in H as ([] & H2 & H & L2); cbv beta in H, L2.
  apply bind_Done_inv in H as ([] & H3 & H & L3); cbv beta in H, L3.
  apply bind_Done_inv in H as (lse0 & _ & H & L4); cbv beta in H, L4.
  apply bind_Done_inv in H as (nkg & H5 & H & L5); cbv beta in H, L5.
  apply bind_Done_inv in H as (T & HT & H & L6); cbv beta in H, L6.
  apply bind_Done_inv in H as ([] & _ & H & L7); cbv beta in H, L7.
  apply bind_Done_inv in H as ([] & H8 & H & L8); cbv beta in H, L8.
  apply bind_Done_inv in H as ([] & H9 & H & L9); cbv beta in H, L9.
  apply bind_Done_inv in H as ([] & H10 & H & L10); cbv beta in H, L10.
  apply bind_Done_inv in H as ([] & _ & H & L11); cbv beta in H, L11.
  apply bind_Done_inv in H as ([] & _ & H & L12); cbv beta in H, L12.
  apply bind_Done_inv in H as ([] & _ & H & L13); cbv beta in H, L13.
  apply bind_Done_inv in H as ([] & _ & H & L14); cbv beta in H, L14.
  clear H.
  assert (Hout : sizes (output c)
                 = shape4 c (g_batch_size geo) (g_qo_len geo) (g_num_qo_heads geo)
                     (g_head_dim geo)).
  { unfold check_shapes in H2. fold geo in H2.
    apply bind_Done_inv in H2 as ([] & _ & H2 & _); cbv beta in H2.
    apply bind_Done_inv in H2 as ([] & _ & H2 & _); cbv beta in H2.
    apply bind_Done_inv in H2 as ([] & H2o & _ & _).
    now apply CHECK_SHAPE_Done in H2o. }
  exists T, nkg. eexists. split.
  { rewrite L1, L2, L3, L4, L5, L6, L7, L8, L9, L10, L11, L12, L13, L14.
    cbn [emit ret fst]. rewrite app_nil_r.
    change [?a; ?b] with ([a] ++ [b]). rewrite !app_assoc. reflexivity. }
  clear L1 L2 L3 L4 L5 L6 L7 L8 L9 L10 L11 L12 L13 L14.
  apply check_head_ratio_Done in H3 as (Hb0 & Hrem).
  apply dispatch_Done_template in HT as (Ehd & Hhd & EKG & HQG & Efuse).
  apply CHECK_SHAPE_Done in H8. apply CHECK_SHAPE_Done in H9.
  destruct R as [RB RL RK RHq RHk SQ SK SV FQ FK FV].
  fold geo in RB, RL, RK, RHq, RHk, FQ, FK, FV.
  set (B := g_batch_size geo) in *. set (L := g_qo_len geo) in *.
  set (KV := g_kv_len geo) in *. set (Hq := g_num_qo_heads geo) in *.
  set (Hk := g_num_kv_heads geo) in *.
  assert (HB31 : B < 2 ^ 31) by (unfold B, geo, geometry_of; cbn; apply narrowed_range).
  assert (HL31 : L < 2 ^ 31)
    by (unfold L, geo, geometry_of; cbn; apply narrowed_range).
  assert (HK31 : KV < 2 ^ 31)
    by (unfold KV, geo, geometry_of; cbn; apply narrowed_range).
  assert (HHq31 : Hq < 2 ^ 31)
    by (unfold Hq, geo, geometry_of; cbn; apply narrowed_range).
  assert (Enkg : nkg = Z.quot Hq Hk).
  { unfold int_quot in H5. destruct (Z.eqb_spec Hk 0) as [E | _]; [lia|].
    cbn [orb] in H5. destruct (Z.eqb_spec Hq (- 2 ^ 31)) as [E | _]; [lia|].
    cbn in H5. now injection H5 as <-. }
  assert (Hmul : Hq = Hk * nkg).
  { pose proof (Z.quot_rem' Hq Hk) as Hqr. rewrite Hrem in Hqr. lia. }
  assert (Hnkg : 1 <= nkg <= Hq) by nia.
  assert (Hwrap : forall a, 0 <= a < 2 ^ 31 -> U32.wrap a = a)
    by (intros a Ha; unfold U32.wrap, U32.modulus; zlia).
  assert (Ez : z (launch_grid c) = B) by (apply Hwrap; lia).
  assert (Ey : y (launch_grid c) = Hq) by (apply Hwrap; lia).
  assert (Ex : x (launch_grid c) = div_ceil L CTA_Q).
  { apply Hwrap. unfold div_ceil, CTA_Q. zlia. }
  assert (Eql : qo_len (launch_args fuse c nkg) = L) by (apply Hwrap; lia).
  assert (Ekl : kv_len (launch_args fuse c nkg) = KV) by (apply Hwrap; lia).
  assert (Eng : num_kv_groups (launch_args fuse c nkg) = nkg) by (apply Hwrap; lia).
  assert (V : valid_launch (launch_grid c) T (launch_args fuse c nkg) Hk).
  { split; rewrite ?Ez, ?Ey, ?Ex, ?Eql, ?Ekl, ?Eng; unfold I32.max_int;
      try lia; try assumption.
    - cbn [Q_scale launch_args]. rewrite SQ. unfold numel. rewrite H8.
      unfold scale_shapes, scale_len, NUM_THREADS. fold geo. fold B Hq L.
      change (128 / 32) with 4.
      destruct HQG as [E | E]; rewrite E; cbn [fst foldr]; lia.
    - cbn [K_scale launch_args]. rewrite SK. unfold numel. rewrite H9.
      unfold scale_shapes, k_scale_len. rewrite EKG. fold geo. fold B Hk KV.
      destruct HQG as [E | E]; rewrite E; cbn [snd foldr]; lia.
    - intros Hf. assert (Ef : fuse = true) by congruence. rewrite Ef in *.
      apply CHECK_SHAPE_Done in H10.
      cbn [V_scale launch_args]. rewrite (SV eq_refl). unfold numel. rewrite H10.
      rewrite Ehd. fold geo. fold B Hk. cbn [foldr]. lia. }
  split; [exact V|]. split; [exact Ehd | exact Hout].
Qed.


(** A call that returns has launched a kernel that satisfies what the
    kernel's index arithmetic relies on, provided no tensor is empty and the
    scale tensors are backed by storage of fewer than [2 ^ 32] entries: the
    grid is [(ceil(qo_len / 64), num_qo_heads, batch)], the head counts are
    positive with [num_qo_heads = num_kv_groups * num_kv_heads], the head
    dimension is 64 or 128, and the scale arrays have the lengths their
    granularity asks for.  Hence no thread of that launch reads outside a
    scale array: every thread runs to completion. *)
Theorem returned_call_launch_is_valid {prims : Primitives} (NDEBUG fuse : bool)
    (granularity_of : Z -> option QuantGranularity)
    (encode_ok : Z -> Z -> Z -> Z -> Z -> Z -> Z -> bool) (c : call) (lse : lse_tensor) :
  (attn_inst_buf NDEBUG granularity_of encode_ok fuse c).2 = Done lse ->
  call_in_range fuse c ->
  exists T nkg pre,
    let P := launch_args fuse c nkg in
    let g := launch_grid c in
    (attn_inst_buf NDEBUG granularity_of encode_ok fuse c).1 = pre ++ [DevLaunch T P g]
    /\ valid_launch g T P (g_num_kv_heads (geometry_of c))
    /\ forall t, in_grid g t = true ->
         exists tr r, kernel_compute T P t = (tr, Done r).
Proof.
  intros Hdone R.
  destruct (returned_call_facts NDEBUG fuse granularity_of encode_ok c lse Hdone R)
    as (T & nkg & pre & Hlog & V & _).
  exists T, nkg, pre. cbv zeta. split; [exact Hlog|]. split; [exact V|].
  intros t Hg.
  destruct (kernel_compute_Done _ T _ _ t V Hg) as (tr & r & _ & E & _).
  now exists tr, r.
Qed.

Lemma sample_call_in_range : call_in_range false (sample_call 4 2 1).
Proof.
  split; try (vm_compute; (discriminate || reflexivity)).
Qed.

Lemma returned_call_launch_is_valid_witness :
  let c := sample_call 4 2 1 in
  exists T nkg, valid_launch (launch_grid c) T (launch_args false c nkg) 2.
Proof.
  intros c.
  destruct (returned_call_launch_is_valid (prims := sample_primitives) false false
              sample_granularity_of sample_encode_ok c
              {| lse_sizes := [1; 4; 64]; lse_type := Float32 |})
    as (T & nkg & pre & _ & V & _).
  - reflexivity.
  - apply sample_call_in_range.
  - exists T, nkg. exact V.
Defined.

(** ** The value scale of the fused variant *)

Lemma tile_get_scale_frag (RO : tile F32.t) (fv : Z) (vs : list F32.t) (fq f k : Z) :
  0 <= fq -> 0 <= f -> 0 <= k ->
  tile_get (scale_frag RO fv vs) fq f k
  = (fun a => if f =? fv
              then F32.mul a (at0 vs (if k <? 4 then k mod 2 else 2 + k mod 2))
              else a) <$> tile_get RO fq f k.
Proof.
  intros Hq Hf Hk. unfold scale_frag.
  rewrite <- (Z2Nat.id fq), <- (Z2Nat.id f), <- (Z2Nat.id k) by lia.
  rewrite tile_get_imap. rewrite !Z2Nat.id by lia. reflexivity.
Qed.

Lemma V_scale_index_spec (g : dim3) (T : template) (P : kernel_args)
    (nkv : Z) (t : thread) :
  valid_launch g T P nkv -> in_grid g t = true -> fuse_v_scale T = true ->
  (forall fv off, 0 <= fv < num_tiles_v T -> 0 <= off <= 9 ->
     0 <= V_scale_base T P t + fv *u 16 + off < Z.of_nat (length (V_scale P))
     /\ V_scale_base T P t + fv *u 16 + off
        = flat3 nkv (head_dim T) (batch_id t) (kv_head_id P t)
            (lane_id t mod 4 * 2 + fv * 16 + off)
     /\ 0 <= lane_id t mod 4 * 2 + fv * 16 + off < head_dim T).
Proof.
  intros V Hg Hfuse fv off Hfv Hoff.
  destruct (kv_heads_of_grid g T P nkv t V Hg) as (Hnkv & Hhk).
  apply in_grid_spec in Hg as (Hgd & Hbx & Hh & Hb & Htid).
  destruct (lane_ranges t) as (Hw & Hl & Hl4 & Hl3); [lia|].
  pose proof (vl_V_scale _ _ _ _ V Hfuse) as Hlen.
  pose proof (vl_V_fits _ _ _ _ V) as Hfit.
  pose proof (vl_head_dim _ _ _ _ V) as Hhd.
  pose proof (vl_kv_heads _ _ _ _ V) as Hkvh.
  assert (Hfv' : 0 <= fv * 16 + 9 < head_dim T + 0).
  { unfold num_tiles_v in Hfv. destruct Hhd as [Hd | Hd]; rewrite Hd in *; zlia. }
  unfold flat3, kv_head_id.
  assert (Hbase : V_scale_base T P t
                  = batch_id t * nkv * head_dim T
                    + head_id t / num_kv_groups P * head_dim T + lane_id t mod 4 * 2).
  { unfold V_scale_base. rewrite Hnkv. set (hk := head_id t / num_kv_groups P) in *.
    destruct (radix3 (batch_id t) hk 0 (z g) nkv (head_dim T)) as (R1 & R2 & R3); try lia.
    assert (z g * nkv * head_dim T <= z g * nkv * 128) by nia.
    unfold U32.modulus in Hfit.
    u32_small ltac:(unfold U32.modulus; lia). reflexivity. }
  set (hk := head_id t / num_kv_groups P) in *.
  destruct (radix3 (batch_id t) hk (lane_id t mod 4 * 2 + fv * 16 + off) (z g) nkv (head_dim T))
    as (R1 & R2 & R3); try lia.
  assert (E16 : fv *u 16 = fv * 16).
  { unfold U32.modulus in Hfit. u32_small ltac:(unfold U32.modulus; lia). reflexivity. }
  rewrite E16, Hbase. split; [lia|]. split; lia.
Qed.

Lemma apply_v_scale_scaled_by (g : dim3) (T : template) (P : kernel_args)
    (nkv : Z) (t : thread) (l : list Z) :
  valid_launch g T P nkv -> in_grid g t = true -> fuse_v_scale T = true ->
  (forall fv, fv ∈ l -> 0 <= fv < num_tiles_v T) ->
  forall RO, exists tr,
    for_each
      (fun RO fv =>
         let* v0 := read V_scale_array (V_scale P) (V_scale_base T P t + fv *u 16) in
         let* v1 := read V_scale_array (V_scale P) (V_scale_base T P t + fv *u 16 + 1) in
         let* v2 := read V_scale_array (V_scale P) (V_scale_base T P t + fv *u 16 + 8) in
         let* v3 := read V_scale_array (V_scale P) (V_scale_base T P t + fv *u 16 + 8 + 1) in
         ret (scale_frag RO fv [v0; v1; v2; v3]))
      l RO
    = (tr, Done (scaled_by T P t RO l)).
Proof.
  intros V Hg Hfuse. induction l as [|fv l IH]; intros Hl RO.
  - exists []. reflexivity.
  - assert (Hfv : 0 <= fv < num_tiles_v T) by (apply Hl; left).
    pose proof (V_scale_index_spec g T P nkv t V Hg Hfuse fv) as Hidx.
    destruct (Hidx 0) as (B0 & _); [lia|lia|]. rewrite Z.add_0_r in B0.
    destruct (Hidx 1) as (B1 & _); [lia|lia|].
    destruct (Hidx 8) as (B2 & _); [lia|lia|].
    destruct (Hidx 9) as (B3 & _); [lia|lia|].
    replace (V_scale_base T P t + fv *u 16 + 9)
      with (V_scale_base T P t + fv *u 16 + 8 + 1) in B3 by lia.
    destruct (zlookup_Some _ _ B0) as [v0 E0]. destruct (zlookup_Some _ _ B1) as [v1 E1].
    destruct (zlookup_Some _ _ B2) as [v2 E2]. destruct (zlookup_Some _ _ B3) as [v3 E3].
    assert (Evs : v_scale_frag T P t fv = [v0; v1; v2; v3])
      by (unfold v_scale_frag; rewrite E0, E1, E2, E3; reflexivity).
    destruct (IH (fun f Hf => Hl f (list_elem_of_further _ _ _ Hf))
                 (scale_frag RO fv [v0; v1; v2; v3])) as [tr2 E].
    eexists. cbn [for_each scaled_by foldl]. unfold read at 1 2 3 4.
    rewrite E0, E1, E2, E3. cbv beta iota zeta delta [bind emit ret].
    cbv beta iota zeta delta [bind emit ret] in E.
    rewrite E, Evs. reflexivity.
Qed.

Lemma tile_get_scaled_by (T : template) (P : kernel_args) (t : thread)
    (l : list Z) (fq f k : Z) :
  NoDup l -> 0 <= fq -> 0 <= f -> 0 <= k ->
  forall RO,
    tile_get (scaled_by T P t RO l) fq f k
    = (fun a => if bool_decide (f ∈ l)
                then F32.mul a (at0 (v_scale_frag T P t f)
                                    (if k <? 4 then k mod 2 else 2 + k mod 2))
                else a) <$> tile_get RO fq f k.
Proof.
  intros Hnd Hq Hf Hk. induction l as [|fv l IH]; intros RO.
  - cbn. now destruct (tile_get RO fq f k).
  - apply NoDup_cons in Hnd as [Hnotin Hnd].
    cbn [scaled_by foldl]. fold (scaled_by T P t (scale_frag RO fv (v_scale_frag T P t fv)) l).
    rewrite (IH Hnd), tile_get_scale_frag by lia.
    destruct (tile_get RO fq f k) as [a|]; [|reflexivity]. cbn [fmap option_fmap option_map].
    f_equal. destruct (Z.eqb_spec f fv) as [-> | Hne].
    + rewrite (bool_decide_eq_false_2 _ Hnotin).
      rewrite bool_decide_eq_true_2 by left. reflexivity.
    + destruct (bool_decide (f ∈ l)) eqn:Hin.
      * rewrite bool_decide_eq_true_2; [reflexivity|].
        right. now apply bool_decide_eq_true in Hin.
      * rewrite bool_decide_eq_false_2; [reflexivity|].
        apply bool_decide_eq_false in Hin. intros Hc.
        apply elem_of_cons in Hc as [Hc | Hc]; auto.
Qed.

Lemma tile_get_at0 (RO : tile F32.t) (fq f k : Z) (x : F32.t) :
  tile_get RO fq f k = Some x ->
  at0 (default [] (default [] (RO !! Z.to_nat fq) !! Z.to_nat f)) k = x.
Proof.
  unfold tile_get, at0. destruct (RO !! Z.to_nat fq) as [r|]; [|discriminate].
  cbn. destruct (r !! Z.to_nat f) as [c|]; [|discriminate].
  cbn. destruct (c !! Z.to_nat k); [|discriminate]. now intros [= ->].
Qed.

(** In the fused variant every output element is scaled by the value scale
    of its own column: for the thread that owns element [(b, h, row, col)],
    the accumulator register the element is stored from leaves
    [apply_v_scale] multiplied by entry [(b, h / num_kv_groups, col)] of the
    value-scale tensor, and no read of that tensor is out of bounds. *)
Theorem fused_v_scale_per_column (g : dim3) (T : template) (P : kernel_args)
    (nkv b h row col : Z) (RO : tile F32.t) (a : F32.t) :
  valid_launch g T P nkv -> fuse_v_scale T = true ->
  0 <= b < z g -> 0 <= h < y g -> 0 <= row < qo_len P -> 0 <= col < head_dim T ->
  tile_get RO 0 (col / 16) (O_reg row col) = Some a ->
  exists tr RO' vs,
    apply_v_scale T P (O_owner g b h row col) RO = (tr, Done RO')
    /\ zlookup (V_scale P) (flat3 nkv (head_dim T) b (h / num_kv_groups P) col) = Some vs
    /\ tile_get RO' 0 (col / 16) (O_reg row col) = Some (F32.mul a vs)
    /\ O_value T RO' row col = convert T (F32.mul a vs).
Proof.
  intros V Hfuse Hb Hh Hrow Hcol Ha.
  set (t := O_owner g b h row col).
  assert (Hg : in_grid g t = true)
    by (apply (O_owner_in_grid g P); auto; apply (vl_grid_x _ _ _ _ V)).
  set (fv := col / 16). set (dc := (col mod 16) / 8). set (e := col mod 2).
  set (dr := (row mod 16) / 8).
  assert (Hhd : head_dim T mod 16 = 0)
    by (destruct (vl_head_dim _ _ _ _ V) as [E | E]; rewrite E; reflexivity).
  assert (Hfv : 0 <= fv < num_tiles_v T) by (unfold num_tiles_v; subst fv; zlia).
  assert (Hl4 : lane_id t mod 4 = (col mod 8) / 2)
    by (unfold lane_id, t, O_owner; cbn; zlia).
  assert (Hcol0 : lane_id t mod 4 * 2 + fv * 16 + (8 * dc + e) = col)
    by (subst fv dc e; rewrite Hl4; zlia).
  assert (Hdc : 0 <= dc <= 1) by (subst dc; zlia).
  assert (He : 0 <= e <= 1) by (subst e; zlia).
  assert (Hdr : 0 <= dr <= 1) by (subst dr; zlia).
  destruct (V_scale_index_spec g T P nkv t V Hg Hfuse fv (8 * dc + e)) as (Hin & Eidx & _);
    [exact Hfv | lia |].
  rewrite Hcol0 in Eidx. change (batch_id t) with b in Eidx.
  change (kv_head_id P t) with (h / num_kv_groups P) in Eidx.
  destruct (zlookup_Some _ _ Hin) as [vs Evs].
  destruct (apply_v_scale_scaled_by g T P nkv t (zseq (num_tiles_v T)) V Hg Hfuse) with (RO := RO)
    as [tr Etr].
  { intros f Hf. unfold zseq in Hf. apply elem_of_seqZ in Hf. lia. }
  exists tr, (scaled_by T P t RO (zseq (num_tiles_v T))), vs.
  split; [exact Etr|]. split; [rewrite <- Eidx; exact Evs|].
  assert (Hget : tile_get (scaled_by T P t RO (zseq (num_tiles_v T))) 0 fv (O_reg row col)
                 = Some (F32.mul a vs)).
  { rewrite tile_get_scaled_by; [| apply NoDup_seqZ | lia | lia | unfold O_reg; zlia].
    fold fv in Ha. rewrite Ha. cbn [fmap option_fmap option_map].
    rewrite bool_decide_eq_true_2 by (unfold zseq; apply elem_of_seqZ; lia).
    do 2 f_equal.
    assert (Hk : O_reg row col = 4 * dc + 2 * dr + e) by reflexivity.
    rewrite Hk. unfold v_scale_frag.
    assert (dc = 0 \/ dc = 1) as [Edc | Edc] by lia;
      assert (dr = 0 \/ dr = 1) as [Edr | Edr] by lia;
      assert (e = 0 \/ e = 1) as [Ee | Ee] by lia;
      rewrite Edc, Edr, Ee; cbn -[zlookup Z.add Z.mul U32.mul V_scale_base];
      match goal with
      | |- context [zlookup (V_scale P) ?i] =>
          replace i with (V_scale_base T P t + fv *u 16 + (8 * dc + e)) by lia
      end;
      rewrite Evs; reflexivity. }
  split; [exact Hget|].
  unfold O_value. fold fv. 
  change (4 * (col mod 16 / 8) + 2 * (row mod 16 / 8) + col mod 2) with (O_reg row col).
  f_equal. apply (tile_get_at0 _ 0 fv). exact Hget.
Qed.

Lemma sample_fused_valid_launch (qo kv : Z) :
  1 <= qo <= 64 -> 1 <= kv <= 1024 ->
  valid_launch sample_grid sample_fused_template (sample_fused_args qo kv) 1.
Proof.
  intros Hqo Hkv.
  split; cbn -[Z.mul Z.div div_ceil];
    unfold I32.max_int, U32.modulus, CTA_Q, CTA_K, div_ceil;
    try rewrite repeat_length; try zlia; try discriminate.
  intros _. reflexivity.
Qed.

Lemma fused_v_scale_per_column_witness :
  let T := sample_fused_template in
  let P := sample_fused_args 64 300 in
  let RO := tile_init 1 4 F32.one in
  exists tr RO',
    apply_v_scale T P (O_owner sample_grid 0 0 13 27) RO = (tr, Done RO')
    /\ O_value T RO' 13 27 = convert T (F32.mul F32.one (F32.of_Z 28)).
Proof.
  intros T P RO.
  destruct (fused_v_scale_per_column sample_grid T P 1 0 0 13 27 RO F32.one)
    as (tr & RO' & vs & E & Evs & _ & Ev).
  - apply sample_fused_valid_launch; lia.
  - reflexivity.
  - cbn; lia.
  - cbn; lia.
  - cbn; lia.
  - cbn; lia.
  - reflexivity.
  - exists tr, RO'. split; [exact E|]. rewrite Ev.
    vm_compute in Evs. injection Evs as <-. reflexivity.
Defined.

(** ** A returned call and the output storage *)

(** What a call that returns has done to a contiguous output of fewer than
    [2 ^ 31] elements (no tensor empty, the scale tensors backed by
    storage): it launched one kernel, and however the threads of that launch
    are ordered the launch completes, leaves in every position of the
    output's storage the value the owning thread converted from its
    accumulator for that batch, head, row and column, and changes no address
    outside the storage. *)
Theorem returned_call_fills_output {prims : Primitives} (NDEBUG fuse : bool)
    (granularity_of : Z -> option QuantGranularity)
    (encode_ok : Z -> Z -> Z -> Z -> Z -> Z -> Z -> bool) (c : call) (lse : lse_tensor) :
  let geo := geometry_of c in
  let B := g_batch_size geo in
  let L := g_qo_len geo in
  let H := g_num_qo_heads geo in
  let D := g_head_dim geo in
  (attn_inst_buf NDEBUG granularity_of encode_ok fuse c).2 = Done lse ->
  call_in_range fuse c ->
  length (strides (output c)) = 4%nat ->
  is_contiguous (output c) = true ->
  B * L * H * D < 2 ^ 31 ->
  exists T nkg pre,
    let P := launch_args fuse c nkg in
    let g := launch_grid c in
    (attn_inst_buf NDEBUG granularity_of encode_ok fuse c).1 = pre ++ [DevLaunch T P g]
    /\ forall sched mem,
         sched ≡ₚ grid_threads g ->
         exists mem',
           run_threads T P sched mem = Some mem'
           /\ (forall b h row col,
                 0 <= b < B -> 0 <= h < H -> 0 <= row < L -> 0 <= col < D ->
                 exists r,
                   thread_regs T P (O_owner g b h row col) = Some r
                   /\ O_mem mem' !! O_position c L H D b h row col
                      = Some (O_value T (reg_RO r) row col))
           /\ (forall a, ~ (0 <= a < B * L * H * D) ->
                 O_mem mem' !! a = O_mem mem !! a).
Proof.
  intros geo B L H D Hdone R Hlen Hc Htot.
  destruct (returned_call_facts NDEBUG fuse granularity_of encode_ok c lse Hdone R)
    as (T & nkg & pre & Hlog & V & Ehd & Hout).
  fold geo in Ehd, Hout. fold B L H D in Hout. fold D in Ehd.
  assert (HD : 1 <= D) by (destruct (vl_head_dim _ _ _ _ V); lia).
  destruct (contiguous_output_layout fuse c nkg T Hout Hlen Hc
              (cr_batch _ _ R) (cr_qo_len _ _ R) (cr_qo_heads _ _ R) HD Htot Ehd)
    as (Hidx & Ez & Ey & Eq & Hfit & Hd).
  fold geo B L H D in Hidx, Ez, Ey, Eq.
  exists T, nkg, pre. cbv zeta. split; [exact Hlog|].
  set (P := launch_args fuse c nkg) in *. set (g := launch_grid c) in *.
  intros sched mem Hp. pose proof (in_grid_perm g sched Hp) as Hall.
  eexists. split; [apply (run_threads_valid g T P _ sched mem V Hall)|].
  cbn [O_mem]. split.
  - intros b h row col Hb Hh Hrow Hcol.
    assert (Hg : in_grid g (O_owner g b h row col) = true).
    { apply (O_owner_in_grid g P);
        [rewrite Ez | rewrite Ey | rewrite Eq | apply (vl_grid_x _ _ _ _ V)];
        assumption. }
    destruct (thread_regs_valid g T P _ _ V Hg) as [r Hr].
    exists r. split; [exact Hr|]. rewrite <- Hidx by assumption.
    apply store_all_in; [apply (O_writes_agreeing g); assumption|].
    apply list_elem_of_bind. exists (O_owner g b h row col). split.
    + unfold O_writes. rewrite Hr.
      apply (O_stores_owner g); rewrite ?Ez, ?Ey, ?Eq, ?Ehd; try assumption.
      destruct (vl_head_dim _ _ _ _ V) as [E|E]; rewrite <- Ehd, E; reflexivity.
    + rewrite Hp. apply elem_of_grid_threads, Hg.
  - intros a Ha. apply store_all_notin. intros [a' v] Hw. cbn.
    apply list_elem_of_bind in Hw as (t & Hw & Ht). unfold O_writes in Hw.
    destruct (thread_regs T P t) as [r|]; [|inversion Hw].
    destruct (O_stores_spec g T P t _ a' v (Hall t Ht) Hfit Hw)
      as (row & col & Hr & Hcl & -> & _).
    destruct (in_grid_spec g t (Hall t Ht)) as (_ & _ & Hh & Hb & _).
    rewrite Ez in Hb. rewrite Ey in Hh. rewrite Eq in Hr. rewrite Ehd in Hcl.
    rewrite Hidx by assumption.
    pose proof (O_position_range c B L H D _ _ _ _ Hb Hh Hr Hcl). lia.
Qed.

Lemma returned_call_fills_output_witness :
  let c := sample_call 4 2 1 in
  exists T nkg mem',
    run_threads (prims := sample_primitives) T (launch_args false c nkg)
      (reverse (grid_threads (launch_grid c))) {| O_mem := ∅; Lse_mem := ∅ |}
    = Some mem'
    /\ is_Some (O_mem mem' !! 16383)
    /\ O_mem mem' !! 16384 = None.
Proof.
  intros c.
  destruct (returned_call_fills_output (prims := sample_primitives) false false
              sample_granularity_of sample_encode_ok c
              {| lse_sizes := [1; 4; 64]; lse_type := Float32 |})
    as (T & nkg & pre & _ & Hrun).
  - reflexivity.
  - apply sample_call_in_range.
  - reflexivity.
  - reflexivity.
  - reflexivity.
  - destruct (Hrun (reverse (grid_threads (launch_grid c)))
                {| O_mem := ∅; Lse_mem := ∅ |} (reverse_Permutation _))
      as (mem' & E & Hfill & Hframe).
    exists T, nkg, mem'. split; [exact E|]. split.
    + destruct (Hfill 0 3 63 63) as (r & _ & Hm);
        try (split; (discriminate || reflexivity)).
      change (O_position _ _ _ _ _ _ _ _) with 16383 in Hm. rewrite Hm. now eexists.
    + rewrite Hframe; [reflexivity|].
      intros [_ Hlt]. revert Hlt. apply Z.le_ngt. discriminate.
Defined.
